(** * Shinobi Cash core: note derivation, note discovery, withdrawal inputs

    A shallow embedding of the TypeScript sources

      - [packages/core/src/crypto/noteDerivation.ts]
      - [packages/core/src/services/WithdrawalContextService.ts]
      - [packages/core/src/services/NoteDiscoveryService.ts]
      - [packages/core/src/zk/WithdrawalProofGenerator.ts]
      - [packages/core/src/services/DepositService.ts]
      - [packages/core/src/crypto/keyGeneration.ts]
      - [packages/core/src/crypto/accountKey.ts]
      - [packages/data/src/transformers/index.ts]

    JavaScript values are modelled as follows.  A [bigint] is a [Z]; an
    integral [number] (deposit and change indices, tree depths) is a [Z]
    as well, and a [number] that may be [NaN] is a [number].  Strings are
    [string]s, read as sequences of code units below 256.  A thrown
    exception is the [Throw] branch of [result]; a [while (true)] loop is
    a fixpoint on a fuel argument that answers [None] when the fuel runs
    out.  The hash functions and the encoders of [poseidon-lite] and
    [viem] are the fields of the class [Primitives]. *)

From Stdlib Require Import ZArith List String Ascii Bool Lia.
From Stdlib Require Import DecimalString HexadecimalString.
From Stdlib Require Import DecimalZ HexadecimalZ DecimalN HexadecimalN.
From Stdlib Require QArith.QArith_base QArith.Qround.
Import ListNotations.

Local Open Scope string_scope.
Local Open Scope Z_scope.

(* ################################################################## *)
(** * Part I: the program                                              *)
(* ################################################################## *)

(* ================================================================== *)
(** ** Exceptions and the result monad                                 *)
(* ================================================================== *)

(** The exceptions the modelled code can raise.  [Error msg] is
    [new Error(msg)]; [External msg] is whatever a collaborator (viem, the
    circuit loader, snarkjs, the fetcher) rejects with. *)
Inductive exn : Type :=
| SyntaxError
| TypeError
| RangeError
| Error (msg : string)
| External (msg : string).

Inductive result (A : Type) : Type :=
| Ok (a : A)
| Throw (e : exn).

Arguments Ok {A} a.
Arguments Throw {A} e.

Definition bind {A B} (r : result A) (k : A -> result B) : result B :=
  match r with
  | Ok a => k a
  | Throw e => Throw e
  end.

Declare Scope result_scope.
Delimit Scope result_scope with result.
Notation "x <- r ;; k" := (bind r (fun x => k))
  (at level 61, r at next level, right associativity) : result_scope.
Local Open Scope result_scope.

Definition is_Ok {A} (r : result A) : bool :=
  match r with Ok _ => true | Throw _ => false end.

(** Fuelled loops answer [option (result A)]: [None] is "out of fuel". *)
Definition omap_result {A B} (f : A -> B) (o : option (result A))
  : option (result B) :=
  match o with
  | Some (Ok a) => Some (Ok (f a))
  | Some (Throw e) => Some (Throw e)
  | None => None
  end.

(* ================================================================== *)
(** ** JavaScript strings and BigInt                                   *)
(* ================================================================== *)

Module JS.

(** [WhiteSpace] and [LineTerminator] code units below 256: TAB, LF, VT,
    FF, CR, SP and NBSP. *)
Definition is_white_space (c : ascii) : bool :=
  let n := nat_of_ascii c in
  (Nat.eqb n 9 || Nat.eqb n 10 || Nat.eqb n 11 || Nat.eqb n 12
   || Nat.eqb n 13 || Nat.eqb n 32 || Nat.eqb n 160)%bool.

Fixpoint trimStart (s : string) : string :=
  match s with
  | String c r => if is_white_space c then trimStart r else s
  | EmptyString => EmptyString
  end.

Fixpoint rev (s : string) : string :=
  match s with
  | EmptyString => EmptyString
  | String c r => rev r ++ String c EmptyString
  end.

Definition trimEnd (s : string) : string := rev (trimStart (rev s)).

(** [String.prototype.trim]. *)
Definition trim (s : string) : string := trimEnd (trimStart s).

(** [String.prototype.startsWith]. *)
Definition startsWith (s p : string) : bool := String.prefix p s.

(** Truthiness of a string that may be [null] or [undefined]. *)
Definition truthy_string (o : option string) : bool :=
  match o with
  | Some s => negb (String.eqb s "")
  | None => false
  end.

(** Truthiness of a bigint that may be [null] or [undefined]. *)
Definition truthy_bigint (o : option Z) : bool :=
  match o with
  | Some z => negb (z =? 0)
  | None => false
  end.

(** Upper-case hexadecimal digits are accepted by [BigInt]; the Standard
    Library's reader takes the lower-case ones. *)
Definition lower_hex_digit (c : ascii) : ascii :=
  match c with
  | "A" => "a" | "B" => "b" | "C" => "c"
  | "D" => "d" | "E" => "e" | "F" => "f"
  | _ => c
  end%char.

Fixpoint lower_hex (s : string) : string :=
  match s with
  | EmptyString => EmptyString
  | String c r => String (lower_hex_digit c) (lower_hex r)
  end.

Definition parse_decimal_digits (s : string) : option Z :=
  match s with
  | EmptyString => None
  | _ => option_map Z.of_uint (DecimalString.NilEmpty.uint_of_string s)
  end.

Definition parse_hex_digits (s : string) : option Z :=
  match s with
  | EmptyString => None
  | _ => option_map Z.of_hex_uint
           (HexadecimalString.NilEmpty.uint_of_string (lower_hex s))
  end.

(** Digits of a radix up to ten (binary and octal literals). *)
Definition small_digit (radix : Z) (c : ascii) : option Z :=
  let d := Z.of_nat (nat_of_ascii c) - 48 in
  if (0 <=? d) && (d <? radix) then Some d else None.

Fixpoint parse_small_radix_acc (radix : Z) (s : string) (acc : Z) : option Z :=
  match s with
  | EmptyString => Some acc
  | String c r =>
      match small_digit radix c with
      | Some d => parse_small_radix_acc radix r (acc * radix + d)
      | None => None
      end
  end.

Definition parse_small_radix (radix : Z) (s : string) : option Z :=
  match s with
  | EmptyString => None
  | _ => parse_small_radix_acc radix s 0
  end.

Definition of_option {A} (e : exn) (o : option A) : result A :=
  match o with Some a => Ok a | None => Throw e end.

(** [StringToBigInt] on the trimmed text: the empty string is [0n]; a
    [0x], [0o] or [0b] literal carries no sign; a decimal literal may
    carry one. *)
Definition StringIntegerLiteral (t : string) : option Z :=
  match t with
  | EmptyString => Some 0
  | String "0" (String "x" r) | String "0" (String "X" r) => parse_hex_digits r
  | String "0" (String "o" r) | String "0" (String "O" r) => parse_small_radix 8 r
  | String "0" (String "b" r) | String "0" (String "B" r) => parse_small_radix 2 r
  | String "-" r => option_map Z.opp (parse_decimal_digits r)
  | String "+" r => parse_decimal_digits r
  | _ => parse_decimal_digits t
  end.

(** [BigInt(s)] for a string [s]: a [SyntaxError] when [s] is no integer
    literal. *)
Definition BigInt (s : string) : result Z :=
  of_option SyntaxError (StringIntegerLiteral (trim s)).

(** [BigInt(s)] where [s] may be [null] or [undefined] ([TypeError]). *)
Definition BigInt_opt (o : option string) : result Z :=
  match o with
  | Some s => BigInt s
  | None => Throw TypeError
  end.

(** [BigInt.prototype.toString()], radix ten. *)
Definition toString (z : Z) : string :=
  DecimalString.NilZero.string_of_int (Z.to_int z).

(** [BigInt.prototype.toString(16)]: the sign, then lower-case digits. *)
Definition toString16 (z : Z) : string :=
  (if z <? 0 then "-" else "")
  ++ HexadecimalString.NilZero.string_of_uint (N.to_hex_uint (Z.abs_N z)).

(** A [number] that may be [NaN]. *)
Inductive number : Type :=
| Num (z : Z)
| NaN.

Definition number_toString (n : number) : string :=
  match n with
  | Num z => toString z
  | NaN => "NaN"
  end.

(** The truncating remainder [%] of bigints. *)
Definition rem (a b : Z) : Z := Z.rem a b.

End JS.

(* ================================================================== *)
(** ** Primitives consumed from [poseidon-lite] and [viem]             *)
(* ================================================================== *)

(** A [0x]-prefixed hexadecimal string (viem's [Hex]). *)
Definition Hex : Type := string.

(** A value handed to viem's encoders together with its ABI type. *)
#[warnings="-register-all"]
Inductive AbiValue : Type :=
| abi_address (a : string)
| abi_uint64 (n : Z)
| abi_uint256 (n : Z)
| abi_bytes32 (h : Hex)
| abi_bytes (h : Hex)
| abi_string (s : string)
| abi_tuple (components : list AbiValue).

(** The library functions the core calls.  The Poseidon hashes and
    Keccak-256 always answer; [getAddress] and the two encoders throw on
    an ill-formed argument. *)
Class Primitives : Type := {
  poseidon1 : Z -> Z;
  poseidon2 : Z -> Z -> Z;
  poseidon3 : Z -> Z -> Z -> Z;
  keccak256 : Hex -> Hex;
  getAddress : string -> result string;
  encodePacked : list AbiValue -> result Hex;
  encodeAbiParameters : list AbiValue -> result Hex
}.

(* ================================================================== *)
(** ** crypto/noteDerivation.ts                                        *)
(* ================================================================== *)

(** BN254 scalar field. *)
Definition F : Z :=
  21888242871839275222246405745257275088548364400416034343698204186575808495617.

Definition hexToBigInt (hex : Hex) : result Z := JS.BigInt hex.

(** [((x % F) + F) % F] with JavaScript's truncating [%]. *)
Definition modF (x : Z) : Z := JS.rem (JS.rem x F + F) F.

(** The key argument of the derivations: [string | bigint]. *)
Inductive UserKey : Type :=
| KeyString (s : string)
| KeyBigInt (k : Z).

Inductive NoteType : Type := deposit | change | refund.
Inductive NoteStatus : Type := unspent | spent.

(** [types/Note.ts].  [amount] is declared a string, and the services test
    it against [null] and [undefined]: it is an [option]. *)
Record Note : Type := mkNote {
  poolAddress : string;
  depositIndex : Z;
  changeIndex : Z;
  noteType : NoteType;
  amount : option string;
  originTransactionHash : string;
  destinationTransactionHash : string;
  originChainId : string;
  destinationChainId : string;
  blockNumber : string;
  timestamp : string;
  status : NoteStatus;
  isActivated : bool;
  label : string;
  refundCommitment : option string
}.

Definition NoteChain : Type := list Note.

(** Qualified spellings of the projections, for the places where the
    source binds a local of the same name. *)
Module Note.
Abbreviation poolAddress := poolAddress (only parsing).
Abbreviation depositIndex := depositIndex (only parsing).
Abbreviation changeIndex := changeIndex (only parsing).
End Note.

Section NoteDerivation.

Context `{P : Primitives}.

Definition fieldFromKeccak (bytes : Hex) : result Z :=
  x <- hexToBigInt (keccak256 bytes) ;; Ok (modF x).

Definition contextField (poolAddress : string) (depositIndex changeIndex : Z)
    (tag : Hex) : result Z :=
  addr <- getAddress poolAddress ;;
  packed <- encodePacked
              [abi_address addr; abi_uint64 depositIndex;
               abi_uint64 changeIndex; abi_bytes32 tag] ;;
  fieldFromKeccak packed.

Definition prf2 (key ctx dom : Z) : Z :=
  modF (poseidon2 key (modF (poseidon2 ctx dom))).

Definition parseUserKey (userKey : UserKey) : result Z :=
  match userKey with
  | KeyBigInt k => Ok (modF k)
  | KeyString u =>
      let s := JS.trim u in
      if JS.startsWith s "0x"
      then x <- hexToBigInt s ;; Ok (modF x)
      else x <- JS.BigInt s ;; Ok (modF x)
  end.

(** The module's constants.  They are evaluated when the module loads,
    so every derivation below binds them first. *)
Definition domainTag (name : string) : result Hex :=
  packed <- encodePacked [abi_string name] ;; Ok (keccak256 packed).

Definition TAG_DEPOSIT_NULLIFIER := domainTag "shinobi.cash:DepositNullifierV1".
Definition TAG_DEPOSIT_SECRET := domainTag "shinobi.cash:DepositSecretV1".
Definition TAG_CHANGE_NULLIFIER := domainTag "shinobi.cash:ChangeNullifierV1".
Definition TAG_CHANGE_SECRET := domainTag "shinobi.cash:ChangeSecretV1".
Definition TAG_REFUND_NULLIFIER := domainTag "shinobi.cash:RefundNullifierV1".
Definition TAG_REFUND_SECRET := domainTag "shinobi.cash:RefundSecretV1".

Definition domainField (tag : result Hex) : result Z :=
  t <- tag ;; fieldFromKeccak t.

Definition DOM_DEPOSIT_NULLIFIER := domainField TAG_DEPOSIT_NULLIFIER.
Definition DOM_DEPOSIT_SECRET := domainField TAG_DEPOSIT_SECRET.
Definition DOM_CHANGE_NULLIFIER := domainField TAG_CHANGE_NULLIFIER.
Definition DOM_CHANGE_SECRET := domainField TAG_CHANGE_SECRET.
Definition DOM_REFUND_NULLIFIER := domainField TAG_REFUND_NULLIFIER.
Definition DOM_REFUND_SECRET := domainField TAG_REFUND_SECRET.

Definition deriveDepositNullifier (userKey : UserKey) (poolAddress : string)
    (depositIndex : Z) : result Z :=
  tag <- TAG_DEPOSIT_NULLIFIER ;; dom <- DOM_DEPOSIT_NULLIFIER ;;
  k <- parseUserKey userKey ;;
  ctx <- contextField poolAddress depositIndex 0 tag ;;
  Ok (prf2 k ctx dom).

Definition deriveDepositSecret (userKey : UserKey) (poolAddress : string)
    (depositIndex : Z) : result Z :=
  tag <- TAG_DEPOSIT_SECRET ;; dom <- DOM_DEPOSIT_SECRET ;;
  k <- parseUserKey userKey ;;
  ctx <- contextField poolAddress depositIndex 0 tag ;;
  Ok (prf2 k ctx dom).

Definition deriveChangeNullifier (userKey : UserKey) (poolAddress : string)
    (depositIndex changeIndex : Z) : result Z :=
  tag <- TAG_CHANGE_NULLIFIER ;; dom <- DOM_CHANGE_NULLIFIER ;;
  k <- parseUserKey userKey ;;
  ctx <- contextField poolAddress depositIndex changeIndex tag ;;
  Ok (prf2 k ctx dom).

Definition deriveChangeSecret (userKey : UserKey) (poolAddress : string)
    (depositIndex changeIndex : Z) : result Z :=
  tag <- TAG_CHANGE_SECRET ;; dom <- DOM_CHANGE_SECRET ;;
  k <- parseUserKey userKey ;;
  ctx <- contextField poolAddress depositIndex changeIndex tag ;;
  Ok (prf2 k ctx dom).

Definition deriveRefundNullifier (userKey : UserKey) (poolAddress : string)
    (depositIndex changeIndex : Z) : result Z :=
  tag <- TAG_REFUND_NULLIFIER ;; dom <- DOM_REFUND_NULLIFIER ;;
  k <- parseUserKey userKey ;;
  ctx <- contextField poolAddress depositIndex changeIndex tag ;;
  Ok (prf2 k ctx dom).

Definition deriveRefundSecret (userKey : UserKey) (poolAddress : string)
    (depositIndex changeIndex : Z) : result Z :=
  tag <- TAG_REFUND_SECRET ;; dom <- DOM_REFUND_SECRET ;;
  k <- parseUserKey userKey ;;
  ctx <- contextField poolAddress depositIndex changeIndex tag ;;
  Ok (prf2 k ctx dom).

Definition derivedNoteCommitment (accountKey : Z) (note : Note) : result Z :=
  ns <- (if changeIndex note =? 0 then
           (* Deposit note *)
           nullifier <- deriveDepositNullifier (KeyBigInt accountKey)
                          (poolAddress note) (depositIndex note) ;;
           secret <- deriveDepositSecret (KeyBigInt accountKey)
                       (poolAddress note) (depositIndex note) ;;
           Ok (nullifier, secret)
         else
           (* Change note *)
           nullifier <- deriveChangeNullifier (KeyBigInt accountKey)
                          (poolAddress note) (depositIndex note) (changeIndex note) ;;
           secret <- deriveChangeSecret (KeyBigInt accountKey)
                       (poolAddress note) (depositIndex note) (changeIndex note) ;;
           Ok (nullifier, secret)) ;;
  let precommitment := poseidon2 (fst ns) (snd ns) in
  a <- JS.BigInt_opt (amount note) ;;
  l <- JS.BigInt (label note) ;;
  Ok (poseidon3 a l precommitment).

End NoteDerivation.

(* ================================================================== *)
(** ** services/WithdrawalContextService.ts                            *)
(* ================================================================== *)

Module WithdrawalContextService.

(** BN254 scalar field modulus for ZK-SNARK circuits. *)
Definition SNARK_SCALAR_FIELD : Z :=
  21888242871839275222246405745257275088548364400416034343698204186575808495617.

Record WithdrawalContext : Type := mkWithdrawalContext {
  context : Z;
  newNullifier : Z;
  newSecret : Z;
  existingNullifier : Z;
  existingSecret : Z;
  existingCommitment : Z
}.

(** [CrosschainWithdrawalContext extends WithdrawalContext]: the base
    fields are those of [baseContext] (the object spread). *)
Record CrosschainWithdrawalContext : Type := mkCrosschainWithdrawalContext {
  baseContext : WithdrawalContext;
  refundNullifier : Z;
  refundSecret : Z;
  refundCommitment : Z
}.

(** The module [poseidon-lite], as far as
    [calculateCrosschainWithdrawalContext] reads it. *)
Record PoseidonLite : Type := mkPoseidonLite {
  lite_poseidon2 : Z -> Z -> Z;
  lite_poseidon3 : Z -> Z -> Z -> Z
}.

(** [require], the loader of the CommonJS module system: what it answers
    for a module identifier.  The package is built as a CommonJS module
    and as an ES module ([tsup.config.ts]: [format: ['cjs', 'esm']], with
    [poseidon-lite] external).  The first has [require]; the second has
    none, and the call throws. *)
Class ModuleSystem : Type := {
  require : string -> result PoseidonLite
}.

Section Service.

Context `{P : Primitives}.

Definition hashToBigInt (data : Hex) : result Z :=
  x <- JS.BigInt (keccak256 data) ;; Ok (JS.rem x SNARK_SCALAR_FIELD).

Definition calculateContextHash (withdrawalData : string * Hex) (poolScope : Z)
  : result Z :=
  encoded <- encodeAbiParameters
               [abi_tuple [abi_address (fst withdrawalData);
                           abi_bytes (snd withdrawalData)];
                abi_uint256 poolScope] ;;
  hashToBigInt encoded.

Definition calculateWithdrawalContext (note : Note) (accountKey : Z)
    (withdrawalData : string * Hex) (poolScope : Z) : result WithdrawalContext :=
  context <- calculateContextHash withdrawalData poolScope ;;
  existingCommitment <- derivedNoteCommitment accountKey note ;;
  newNullifier <- deriveChangeNullifier (KeyBigInt accountKey)
                    (poolAddress note) (depositIndex note) (changeIndex note + 1) ;;
  newSecret <- deriveChangeSecret (KeyBigInt accountKey)
                 (poolAddress note) (depositIndex note) (changeIndex note + 1) ;;
  existing <- (if changeIndex note =? 0 then
                 (* Deposit note *)
                 n <- deriveDepositNullifier (KeyBigInt accountKey)
                        (poolAddress note) (depositIndex note) ;;
                 s <- deriveDepositSecret (KeyBigInt accountKey)
                        (poolAddress note) (depositIndex note) ;;
                 Ok (n, s)
               else
                 (* Change note *)
                 n <- deriveChangeNullifier (KeyBigInt accountKey)
                        (poolAddress note) (depositIndex note) (changeIndex note) ;;
                 s <- deriveChangeSecret (KeyBigInt accountKey)
                        (poolAddress note) (depositIndex note) (changeIndex note) ;;
                 Ok (n, s)) ;;
  Ok {| context := context;
        newNullifier := newNullifier;
        newSecret := newSecret;
        existingNullifier := fst existing;
        existingSecret := snd existing;
        existingCommitment := existingCommitment |}.

Context `{M : ModuleSystem}.

Definition calculateCrosschainWithdrawalContext (note : Note) (accountKey : Z)
    (withdrawalData : string * Hex) (poolScope : Z)
  : result CrosschainWithdrawalContext :=
  baseContext <- calculateWithdrawalContext note accountKey withdrawalData poolScope ;;
  refundNullifier <- deriveRefundNullifier (KeyBigInt accountKey)
                       (poolAddress note) (depositIndex note) (changeIndex note + 1) ;;
  refundSecret <- deriveRefundSecret (KeyBigInt accountKey)
                    (poolAddress note) (depositIndex note) (changeIndex note + 1) ;;
  (* const { poseidon2, poseidon3 } = require('poseidon-lite') *)
  lite <- require "poseidon-lite" ;;
  let refundPrecommitment := lite_poseidon2 lite refundNullifier refundSecret in
  remainingAmount <- JS.BigInt_opt (amount note) ;;
  l <- JS.BigInt (label note) ;;
  let refundCommitment := lite_poseidon3 lite remainingAmount l refundPrecommitment in
  Ok {| baseContext := baseContext;
        refundNullifier := refundNullifier;
        refundSecret := refundSecret;
        refundCommitment := refundCommitment |}.

End Service.

End WithdrawalContextService.

(* ================================================================== *)
(** ** services/NoteDiscoveryService.ts                                *)
(* ================================================================== *)

Inductive ActivityType : Type :=
| DEPOSIT
| WITHDRAWAL
| CROSSCHAIN_DEPOSIT
| CROSSCHAIN_WITHDRAWAL.

(** The indexer's [Activity], with the fields discovery reads.  A field
    declared optional or nullable is an [option]. *)
Module Activity.

Record t : Type := mk {
  type : ActivityType;
  amount : option Z;
  label : option string;
  precommitmentHash : option string;
  spentNullifier : option string;
  newCommitment : option string;
  refundCommitment : option string;
  blockNumber : Z;
  timestamp : Z;
  originTransactionHash : string;
  destinationTransactionHash : option string;
  originChainId : Z;
  destinationChainId : option Z
}.

End Activity.

(** [type LiveDeposit = { depositIndex, chainIndex, remaining }]. *)
Module LiveDeposit.

Record t : Type := mk {
  depositIndex : Z;
  chainIndex : nat;
  remaining : Z
}.

End LiveDeposit.

Record DiscoveryResult : Type := mkDiscoveryResult {
  notes : list NoteChain;
  lastUsedIndex : Z;
  newNotesFound : Z;
  lastProcessedCursor : option string
}.

Record DiscoveryProgress : Type := mkDiscoveryProgress {
  pagesProcessed : Z;
  currentPageActivityCount : Z;
  depositsChecked : Z;
  depositsMatched : Z;
  lastCursor : option string;
  complete : bool
}.

(** [DiscoveryOptions] without the abort signal and the progress
    observer: the run modelled here is never cancelled. *)
Record DiscoveryOptions : Type := mkDiscoveryOptions {
  maxPages : option Z;
  pageSize : option Z
}.

Record PageInfo : Type := mkPageInfo {
  hasNextPage : bool;
  endCursor : option string
}.

Record ActivityPage : Type := mkActivityPage {
  items : list Activity.t;
  pageInfo : PageInfo
}.

(** [fetchActivities(poolAddress, limit, cursor, 'asc')]. *)
Definition ActivityFetcher : Type :=
  string -> Z -> option string -> result ActivityPage.

(** What [storeDiscoveredNotes] was called with, latest first. *)
Definition Checkpoints : Type := list (list NoteChain * option string).

Definition ACTIVITIES_PER_PAGE : Z := 100.

(** Binding in fuelled code: an exception or the end of the fuel stops
    the computation. *)
Definition fbind {A B} (o : option (result A)) (k : A -> option (result B))
  : option (result B) :=
  match o with
  | Some (Ok a) => k a
  | Some (Throw e) => Some (Throw e)
  | None => None
  end.

Notation "x <~ o ;; k" := (fbind o (fun x => k))
  (at level 61, o at next level, right associativity) : result_scope.

(** [l[l.length - 1]]. *)
Definition lastOf {A} (l : list A) : option A := nth_error l (List.length l - 1).

(** [l[i] = f(l[i])] for an index in range. *)
Fixpoint updateAt {A} (i : nat) (f : A -> A) (l : list A) : list A :=
  match l, i with
  | [], _ => []
  | x :: r, O => f x :: r
  | x :: r, S j => x :: updateAt j f r
  end.

(** [Array.prototype.findIndex], [None] for [-1]. *)
Fixpoint findIndex {A} (f : A -> bool) (l : list A) : option nat :=
  match l with
  | [] => None
  | x :: r => if f x then Some O else option_map S (findIndex f r)
  end.

Definition setStatus (s : NoteStatus) (n : Note) : Note := {|
  poolAddress := poolAddress n;
  depositIndex := depositIndex n;
  changeIndex := changeIndex n;
  noteType := noteType n;
  amount := amount n;
  originTransactionHash := originTransactionHash n;
  destinationTransactionHash := destinationTransactionHash n;
  originChainId := originChainId n;
  destinationChainId := destinationChainId n;
  blockNumber := blockNumber n;
  timestamp := timestamp n;
  status := s;
  isActivated := isActivated n;
  label := label n;
  refundCommitment := refundCommitment n
|}.

(** [chain[chain.length - 1].status = 'spent']. *)
Definition markLastSpent (chain : NoteChain) : NoteChain :=
  updateAt (List.length chain - 1) (setStatus spent) chain.

Definition status_eqb (a b : NoteStatus) : bool :=
  match a, b with
  | unspent, unspent | spent, spent => true
  | _, _ => false
  end.

Definition string_opt_is (o : option string) (s : string) : bool :=
  match o with
  | Some x => String.eqb x s
  | None => false
  end.

(** The predicate of the [find] in [extendChainInPlace]. *)
Definition spends (nullifierHash : string) (activity : Activity.t) : bool :=
  match Activity.type activity with
  | WITHDRAWAL | CROSSCHAIN_WITHDRAWAL =>
      string_opt_is (Activity.spentNullifier activity) nullifierHash
  | _ => false
  end.

(** The predicate of the [findIndex] in [discoverNotes]. *)
Definition deposits (targetPrecommitment : string) (activity : Activity.t) : bool :=
  match Activity.type activity with
  | DEPOSIT | CROSSCHAIN_DEPOSIT =>
      string_opt_is (Activity.precommitmentHash activity) targetPrecommitment
  | _ => false
  end.

(** [a || b] on strings that may be missing. *)
Definition string_or (a : option string) (b : string) : string :=
  match a with
  | Some s => if String.eqb s "" then b else s
  | None => b
  end.

(** [a || b] on bigints that may be missing. *)
Definition bigint_or (a : option Z) (b : Z) : Z :=
  match a with
  | Some z => if z =? 0 then b else z
  | None => b
  end.

(** [tail.status === 'unspent' && tail.amount && BigInt(tail.amount) > 0n
    && tail.isActivated], the admission test of [liveDeposits]: the
    amount [BigInt(tail.amount)] of an admitted tail, [None] otherwise. *)
Definition liveRemaining (tail : Note) : result (option Z) :=
  if status_eqb (status tail) unspent && JS.truthy_string (amount tail) then
    a <- JS.BigInt_opt (amount tail) ;;
    Ok (if (a >? 0) && isActivated tail then Some a else None)
  else Ok None.

(** [tail.status === 'spent' || !tail.amount || BigInt(tail.amount) <= 0n],
    the test that drops an extended chain from [liveDeposits]: [None] when
    it holds, the new remaining amount [BigInt(tail.amount)] otherwise. *)
Definition stillLive (tail : Note) : result (option Z) :=
  if status_eqb (status tail) spent || negb (JS.truthy_string (amount tail)) then
    Ok None
  else
    a <- JS.BigInt_opt (amount tail) ;;
    Ok (if a <=? 0 then None else Some a).

Section NoteDiscovery.

Context `{P : Primitives}.

(** The change note [extendChainInPlace] appends for a matched
    withdrawal. *)
Definition changeNoteOf (head : Note) (changeIndex remaining : Z)
    (withdrawal : Activity.t) : Note := {|
  poolAddress := poolAddress head;
  depositIndex := depositIndex head;
  changeIndex := changeIndex;
  noteType := change;
  amount := Some (JS.toString remaining);
  originTransactionHash := Activity.originTransactionHash withdrawal;
  destinationTransactionHash :=
    string_or (Activity.destinationTransactionHash withdrawal)
      (Activity.originTransactionHash withdrawal);
  originChainId := JS.toString (Activity.originChainId withdrawal);
  destinationChainId :=
    JS.toString (bigint_or (Activity.destinationChainId withdrawal)
                   (Activity.originChainId withdrawal));
  blockNumber := JS.toString (Activity.blockNumber withdrawal);
  timestamp := JS.toString (Activity.timestamp withdrawal);
  status := if remaining >? 0 then unspent else spent;
  isActivated := true;
  label := label head;
  refundCommitment := Activity.refundCommitment withdrawal
|}.

(** The [while (true)] loop of [extendChainInPlace]. *)
Fixpoint extendLoop (fuel : nat) (pageActivities : list Activity.t)
    (accountKey : Z) (poolAddress : string) (chain : NoteChain)
    (remaining changeIndex currentNullifier withdrawalsMatched : Z)
  : option (result (NoteChain * Z)) :=
  match fuel with
  | O => None
  | S fuel' =>
      let nullifierHash := JS.toString (poseidon1 currentNullifier) in
      match find (spends nullifierHash) pageActivities with
      | None => Some (Ok (chain, withdrawalsMatched))
      | Some withdrawal =>
          if negb (JS.truthy_string (Activity.newCommitment withdrawal))
             || negb (JS.truthy_bigint (Activity.amount withdrawal))
          then Some (Ok (chain, withdrawalsMatched))
          else
            let chain := markLastSpent chain in
            let remaining := remaining - bigint_or (Activity.amount withdrawal) 0 in
            match nth_error chain 0 with
            | None => Some (Throw TypeError)
            | Some head =>
                let changeNote := changeNoteOf head changeIndex remaining withdrawal in
                let chain := (chain ++ [changeNote])%list in
                let withdrawalsMatched := withdrawalsMatched + 1 in
                if remaining <=? 0 then Some (Ok (chain, withdrawalsMatched))
                else
                  match deriveChangeNullifier (KeyBigInt accountKey) poolAddress
                          (depositIndex head) changeIndex with
                  | Throw e => Some (Throw e)
                  | Ok currentNullifier =>
                      extendLoop fuel' pageActivities accountKey poolAddress chain
                        remaining (changeIndex + 1) currentNullifier withdrawalsMatched
                  end
            end
      end
  end.

(** [extendChainInPlace]: the chain after the in-place updates, and the
    number of withdrawals matched. *)
Definition extendChainInPlace (fuel : nat) (chain : NoteChain)
    (pageActivities : list Activity.t) (accountKey : Z) (poolAddress : string)
  : option (result (NoteChain * Z)) :=
  match lastOf chain with
  | None => Some (Throw TypeError)
  | Some lastNote =>
      match amount lastNote with
      | None => Some (Ok (chain, 0))
      | Some lastAmount =>
          remaining <~ Some (JS.BigInt lastAmount) ;;
          let changeIndex :=
            if changeIndex lastNote =? 0 then 1 else changeIndex lastNote + 1 in
          head <~ Some (JS.of_option TypeError (nth_error chain 0)) ;;
          currentNullifier <~
            Some (if Note.changeIndex lastNote =? 0
                  then deriveDepositNullifier (KeyBigInt accountKey) poolAddress
                         (depositIndex head)
                  else deriveChangeNullifier (KeyBigInt accountKey) poolAddress
                         (depositIndex head) (Note.changeIndex lastNote)) ;;
          extendLoop fuel pageActivities accountKey poolAddress chain
            remaining changeIndex currentNullifier 0
      end
  end.

(** The deposit note [buildChainForDepositInPage] starts the chain with. *)
Definition depositNoteOf (depositActivity : Activity.t) (depositIndex : Z)
    (poolAddress : string) : Note := {|
  Note.poolAddress := poolAddress;
  Note.depositIndex := depositIndex;
  changeIndex := 0;
  noteType := deposit;
  amount := Some (if JS.truthy_bigint (Activity.amount depositActivity)
                  then JS.toString (bigint_or (Activity.amount depositActivity) 0)
                  else "0");
  originTransactionHash := Activity.originTransactionHash depositActivity;
  destinationTransactionHash :=
    string_or (Activity.destinationTransactionHash depositActivity)
      (Activity.originTransactionHash depositActivity);
  originChainId := JS.toString (Activity.originChainId depositActivity);
  destinationChainId :=
    JS.toString (bigint_or (Activity.destinationChainId depositActivity)
                   (Activity.originChainId depositActivity));
  blockNumber := JS.toString (Activity.blockNumber depositActivity);
  timestamp := JS.toString (Activity.timestamp depositActivity);
  status := unspent;
  isActivated := match Activity.label depositActivity with
                 | Some _ => true
                 | None => false
                 end;
  label := string_or (Activity.label depositActivity)
             ("Pending Deposit #" ++ JS.toString depositIndex);
  refundCommitment := None
|}.

Definition buildChainForDepositInPage (fuel : nat) (depositActivity : Activity.t)
    (depositIndex : Z) (pageActivitiesAfter : list Activity.t)
    (accountKey : Z) (poolAddress : string) : option (result NoteChain) :=
  let depositNote := depositNoteOf depositActivity depositIndex poolAddress in
  let chain := [depositNote] in
  r <~ extendChainInPlace fuel chain pageActivitiesAfter accountKey poolAddress ;;
  Some (Ok (fst r)).

End NoteDiscovery.

(** The state [discoverNotes] carries from page to page. *)
Record Scan : Type := mkScan {
  scanNotes : list NoteChain;
  scanLastUsedIndex : Z;
  nextDepositIndex : Z;
  liveDeposits : list LiveDeposit.t;
  progress : DiscoveryProgress
}.

Definition sameLive (a b : LiveDeposit.t) : bool :=
  (LiveDeposit.depositIndex a =? LiveDeposit.depositIndex b)
  && Nat.eqb (LiveDeposit.chainIndex a) (LiveDeposit.chainIndex b).

Definition setRemaining (newRemaining : Z) (d : LiveDeposit.t) : LiveDeposit.t :=
  {| LiveDeposit.depositIndex := LiveDeposit.depositIndex d;
     LiveDeposit.chainIndex := LiveDeposit.chainIndex d;
     LiveDeposit.remaining := newRemaining |}.

Definition checkDeposit (p : DiscoveryProgress) : DiscoveryProgress :=
  {| pagesProcessed := pagesProcessed p;
     currentPageActivityCount := currentPageActivityCount p;
     depositsChecked := depositsChecked p + 1;
     depositsMatched := depositsMatched p;
     lastCursor := lastCursor p;
     complete := complete p |}.

Definition matchDeposit (p : DiscoveryProgress) : DiscoveryProgress :=
  {| pagesProcessed := pagesProcessed p;
     currentPageActivityCount := currentPageActivityCount p;
     depositsChecked := depositsChecked p;
     depositsMatched := depositsMatched p + 1;
     lastCursor := lastCursor p;
     complete := complete p |}.

Definition enterPage (pages count : Z) (cursor : option string)
    (p : DiscoveryProgress) : DiscoveryProgress :=
  {| pagesProcessed := pages;
     currentPageActivityCount := count;
     depositsChecked := depositsChecked p;
     depositsMatched := depositsMatched p;
     lastCursor := cursor;
     complete := complete p |}.

Section DiscoverNotes.

Context `{P : Primitives}.

(** Step 1 of a page: [for (const liveDeposit of [...liveDeposits])].
    The snapshot is walked while [notes] and [liveDeposits] are updated. *)
Fixpoint extendLiveDeposits (fuel : nat) (snapshot : list LiveDeposit.t)
    (activities : list Activity.t) (accountKey : Z) (poolAddress : string)
    (notes : list NoteChain) (liveDeposits : list LiveDeposit.t)
  : option (result (list NoteChain * list LiveDeposit.t)) :=
  match snapshot with
  | [] => Some (Ok (notes, liveDeposits))
  | liveDeposit :: rest =>
      match nth_error notes (LiveDeposit.chainIndex liveDeposit) with
      | None =>
          extendLiveDeposits fuel rest activities accountKey poolAddress
            notes liveDeposits
      | Some chain =>
          r <~ extendChainInPlace fuel chain activities accountKey poolAddress ;;
          let chain := fst r in
          let withdrawalsMatched := snd r in
          let notes := updateAt (LiveDeposit.chainIndex liveDeposit)
                         (fun _ => chain) notes in
          if withdrawalsMatched >? 0 then
            lastNote <~ Some (JS.of_option TypeError (lastOf chain)) ;;
            newRemaining <~ Some (stillLive lastNote) ;;
            let liveDeposits :=
              match newRemaining with
              | None =>
                  filter (fun deposit => negb (sameLive deposit liveDeposit))
                    liveDeposits
              | Some newRemaining =>
                  map (fun deposit =>
                         if sameLive deposit liveDeposit
                         then setRemaining newRemaining deposit
                         else deposit)
                    liveDeposits
              end in
            extendLiveDeposits fuel rest activities accountKey poolAddress
              notes liveDeposits
          else
            extendLiveDeposits fuel rest activities accountKey poolAddress
              notes liveDeposits
      end
  end.

(** Step 2 of a page: the [while (true)] scan for new deposits. *)
Fixpoint scanDeposits (fuel : nat) (activities : list Activity.t)
    (accountKey : Z) (poolAddress : string) (s : Scan)
  : option (result Scan) :=
  match fuel with
  | O => None
  | S fuel' =>
      let candidateDepositIndex := nextDepositIndex s in
      depositNullifier <~
        Some (deriveDepositNullifier (KeyBigInt accountKey) poolAddress
                candidateDepositIndex) ;;
      depositSecret <~
        Some (deriveDepositSecret (KeyBigInt accountKey) poolAddress
                candidateDepositIndex) ;;
      let targetPrecommitment :=
        JS.toString (poseidon2 depositNullifier depositSecret) in
      let progress := checkDeposit (progress s) in
      match findIndex (deposits targetPrecommitment) activities with
      | None =>
          Some (Ok {| scanNotes := scanNotes s;
                      scanLastUsedIndex := scanLastUsedIndex s;
                      nextDepositIndex := nextDepositIndex s;
                      liveDeposits := liveDeposits s;
                      progress := progress |})
      | Some depositPosition =>
          depositActivity <~
            Some (JS.of_option TypeError (nth_error activities depositPosition)) ;;
          let activitiesAfter := skipn (depositPosition + 1) activities in
          newChain <~ buildChainForDepositInPage fuel' depositActivity
                        candidateDepositIndex activitiesAfter accountKey poolAddress ;;
          let notes := (scanNotes s ++ [newChain])%list in
          let newChainIndex := (List.length notes - 1)%nat in
          lastNote <~ Some (JS.of_option TypeError (lastOf newChain)) ;;
          live <~ Some (liveRemaining lastNote) ;;
          let liveDeposits :=
            match live with
            | Some remaining =>
                (liveDeposits s ++
                 [{| LiveDeposit.depositIndex := candidateDepositIndex;
                     LiveDeposit.chainIndex := newChainIndex;
                     LiveDeposit.remaining := remaining |}])%list
            | None => liveDeposits s
            end in
          scanDeposits fuel' activities accountKey poolAddress
            {| scanNotes := notes;
               scanLastUsedIndex := Z.max (scanLastUsedIndex s) candidateDepositIndex;
               nextDepositIndex := candidateDepositIndex + 1;
               liveDeposits := liveDeposits;
               progress := matchDeposit progress |}
      end
  end.

(** One page: extend the live chains, then scan for new deposits. *)
Definition processPage (fuel : nat) (activities : list Activity.t)
    (accountKey : Z) (poolAddress : string) (s : Scan) : option (result Scan) :=
  extended <~
    (match liveDeposits s with
     | [] => Some (Ok (scanNotes s, liveDeposits s))
     | _ => extendLiveDeposits fuel (liveDeposits s) activities accountKey
              poolAddress (scanNotes s) (liveDeposits s)
     end) ;;
  scanDeposits fuel activities accountKey poolAddress
    {| scanNotes := fst extended;
       scanLastUsedIndex := scanLastUsedIndex s;
       nextDepositIndex := nextDepositIndex s;
       liveDeposits := snd extended;
       progress := progress s |}.

(** [!maxPages || pagesProcessed < maxPages]. *)
Definition underPageCap (maxPages : option Z) (pagesProcessed : Z) : bool :=
  match maxPages with
  | Some m => (m =? 0) || (pagesProcessed <? m)
  | None => true
  end.

Definition resultOf (s : Scan) (cursor : option string) : DiscoveryResult :=
  {| notes := scanNotes s;
     lastUsedIndex := scanLastUsedIndex s;
     newNotesFound := depositsMatched (progress s);
     lastProcessedCursor := cursor |}.

(** The main loop, entered with [hasNext = true]. *)
Fixpoint pagesLoop (fuel : nat) (fetchActivities : ActivityFetcher)
    (options : DiscoveryOptions) (accountKey : Z) (poolAddress : string)
    (s : Scan) (cursor : option string) (pages : Z) (stored : Checkpoints)
  : option (result (DiscoveryResult * Checkpoints)) :=
  match fuel with
  | O => None
  | S fuel' =>
      if underPageCap (maxPages options) pages then
        activitiesResult <~
          Some (fetchActivities poolAddress
                  (match pageSize options with
                   | Some n => n
                   | None => ACTIVITIES_PER_PAGE
                   end) cursor) ;;
        let activities := items activitiesResult in
        let cursor := endCursor (pageInfo activitiesResult) in
        let pages := pages + 1 in
        let s := {| scanNotes := scanNotes s;
                    scanLastUsedIndex := scanLastUsedIndex s;
                    nextDepositIndex := nextDepositIndex s;
                    liveDeposits := liveDeposits s;
                    progress := enterPage pages (Z.of_nat (List.length activities))
                                  cursor (progress s) |} in
        s <~ processPage fuel' activities accountKey poolAddress s ;;
        let stored := (scanNotes s, cursor) :: stored in
        if hasNextPage (pageInfo activitiesResult)
        then pagesLoop fuel' fetchActivities options accountKey poolAddress
               s cursor pages stored
        else Some (Ok (resultOf s cursor, stored))
      else Some (Ok (resultOf s cursor, stored))
  end.

(** The live deposits of the cached chains ([notes.forEach]). *)
Fixpoint initialLiveDeposits (idx : nat) (chains : list NoteChain)
  : result (list LiveDeposit.t) :=
  match chains with
  | [] => Ok []
  | chain :: rest =>
      last <- JS.of_option TypeError (lastOf chain) ;;
      live <- liveRemaining last ;;
      entry <- (match live with
                | Some remaining =>
                    first <- JS.of_option TypeError (nth_error chain 0) ;;
                    Ok [{| LiveDeposit.depositIndex := depositIndex first;
                           LiveDeposit.chainIndex := idx;
                           LiveDeposit.remaining := remaining |}]
                | None => Ok []
                end) ;;
      more <- initialLiveDeposits (S idx) rest ;;
      Ok (entry ++ more)%list
  end.

(** [discoverNotes]: [cached] is what [getCachedNotes] answered. *)
Definition discoverNotes (fuel : nat) (cached : option DiscoveryResult)
    (fetchActivities : ActivityFetcher) (poolAddress : string) (accountKey : Z)
    (options : DiscoveryOptions)
  : option (result (DiscoveryResult * Checkpoints)) :=
  let notes := match cached with Some c => notes c | None => [] end in
  let lastUsedIndex := match cached with Some c => lastUsedIndex c | None => -1 end in
  let nextDepositIndex := lastUsedIndex + 1 in
  liveDeposits <~ Some (initialLiveDeposits 0 notes) ;;
  let cursor :=
    match cached with
    | Some c => match lastProcessedCursor c with
                | Some x => if String.eqb x "" then None else Some x
                | None => None
                end
    | None => None
    end in
  pagesLoop fuel fetchActivities options accountKey poolAddress
    {| scanNotes := notes;
       scanLastUsedIndex := lastUsedIndex;
       nextDepositIndex := nextDepositIndex;
       liveDeposits := liveDeposits;
       progress := mkDiscoveryProgress 0 0 0 0 None false |}
    cursor 0 [].

End DiscoverNotes.

(** From here on [++] is list concatenation. *)
Local Open Scope list_scope.

(* ================================================================== *)
(** ** The Lean incremental Merkle tree                                *)
(* ================================================================== *)

(** Modelled from the spec: the class [LeanIMT] of the package
    [@zk-kit/lean-imt], which is not among the sources.  Section 4.3
    describes it (append-only, a node without a sibling is copied up,
    [depth = ceil(log2(size))]) and section 9 asks for the reference
    algorithm verbatim; the model is that algorithm: [insert] rewrites the
    path of the new leaf level by level, and [generateProof] collects the
    siblings that exist, with the path bits read as a binary number. *)
Module LeanIMT.

(** [_nodes]: level 0 holds the leaves, the last level the root. *)
Record t : Type := mk { nodes : list (list Z) }.

Record LeanIMTMerkleProof : Type := mkProof {
  root : Z;
  leaf : Z;
  index : JS.number;
  siblings : list Z
}.

Definition empty : t := {| nodes := [[]] |}.

Definition depth (tree : t) : nat := (List.length (nodes tree) - 1)%nat.

Definition size (tree : t) : nat := List.length (nth 0 (nodes tree) []).

(** [Math.ceil(Math.log2(n))] for [n >= 1]. *)
Definition ceil_log2 (n : nat) : nat := Z.to_nat (Z.log2_up (Z.of_nat n)).

(** [level[i] = x] for [i <= level.length]. *)
Definition setAt (i : nat) (x : Z) (level : list Z) : list Z :=
  firstn i level ++ [x] ++ skipn (S i) level.

Section Hash.

Variable hash : Z -> Z -> Z.

(** The loop of [insert] over the levels below the root, then the store
    of the new root. *)
Fixpoint insertFrom (levels : list (list Z)) (index : nat) (node : Z)
  : list (list Z) :=
  match levels with
  | [] => []
  | [_] => [[node]]
  | level :: rest =>
      let level := setAt index node level in
      let node := if Nat.odd index
                  then hash (nth (index - 1) level 0) node
                  else node in
      level :: insertFrom rest (Nat.div2 index) node
  end.

Definition insert (leaf : Z) (tree : t) : t :=
  let levels :=
    if Nat.ltb (depth tree) (ceil_log2 (size tree + 1))
    then nodes tree ++ [[]]
    else nodes tree in
  {| nodes := insertFrom levels (size tree) leaf |}.

End Hash.

(** The loop of [generateProof]: the siblings that exist, and the path
    bits, from the leaves upward. *)
Fixpoint proofFrom (levels : list (list Z)) (index : nat)
  : list Z * list bool :=
  match levels with
  | [] | [_] => ([], [])
  | level :: rest =>
      let isRightNode := Nat.odd index in
      let siblingIndex := if isRightNode then (index - 1)%nat else S index in
      let above := proofFrom rest (Nat.div2 index) in
      match nth_error level siblingIndex with
      | Some sibling => (sibling :: fst above, isRightNode :: snd above)
      | None => above
      end
  end.

(** [Number.parseInt(path.reverse().join(""), 2)]: [NaN] for no bit. *)
Fixpoint bits_value (path : list bool) : Z :=
  match path with
  | [] => 0
  | b :: r => (if b then 1 else 0) + 2 * bits_value r
  end.

Definition parsePath (path : list bool) : JS.number :=
  match path with
  | [] => JS.NaN
  | _ => JS.Num (bits_value path)
  end.

Definition generateProof (tree : t) (i : nat) : result LeanIMTMerkleProof :=
  if Nat.ltb i (size tree) then
    let p := proofFrom (nodes tree) i in
    Ok {| root := nth 0 (nth (depth tree) (nodes tree) []) 0;
          leaf := nth i (nth 0 (nodes tree) []) 0;
          index := parsePath (snd p);
          siblings := fst p |}
  else Throw (Error "The leaf does not exist in this tree").

End LeanIMT.

(* ================================================================== *)
(** ** zk/WithdrawalProofGenerator.ts                                  *)
(* ================================================================== *)

(** The values of the circuit-input object: strings, numbers and arrays. *)
#[warnings="-register-all"]
Inductive JSValue : Type :=
| VString (s : string)
| VNumber (n : JS.number)
| VArray (elements : list JSValue).

(** An object literal: its properties in order. *)
Definition JSObject : Type := list (string * JSValue).

Fixpoint get (name : string) (o : JSObject) : option JSValue :=
  match o with
  | [] => None
  | (k, v) :: r => if String.eqb k name then Some v else get name r
  end.

(** What a collaborator (the circuit loader, snarkjs) answers: a value or
    a rejection of its own. *)
Inductive outcome (A : Type) : Type :=
| Answer (a : A)
| Reject (msg : string).

Arguments Answer {A} a.
Arguments Reject {A} msg.

Definition await {A} (o : outcome A) : result A :=
  match o with
  | Answer a => Ok a
  | Reject msg => Throw (External msg)
  end.

Record CircuitFiles : Type := mkCircuitFiles {
  wasmFile : string;
  zkeyFile : string;
  vkeyData : string
}.

Definition CircuitFileLoader : Type := outcome CircuitFiles.

Record WithdrawalProofData : Type := mkWithdrawalProofData {
  proof : string;
  publicSignals : list string
}.

(** [snarkjs.groth16]. *)
Class Groth16 : Type := {
  fullProve : JSObject -> string -> string -> outcome WithdrawalProofData;
  verify : string -> list string -> string -> outcome bool
}.

Module WithdrawalProofArgs.

Record t : Type := mk {
  existingCommitmentHash : Z;
  existingValue : Z;
  existingNullifier : Z;
  existingSecret : Z;
  withdrawalValue : Z;
  context : Z;
  label : Z;
  newNullifier : Z;
  newSecret : Z;
  stateTreeCommitments : list Z;
  aspTreeLabels : list Z
}.

End WithdrawalProofArgs.

(** [CrosschainWithdrawalProofArgs extends WithdrawalProofArgs]. *)
Module CrosschainWithdrawalProofArgs.

Record t : Type := mk {
  base : WithdrawalProofArgs.t;
  refundNullifier : Z;
  refundSecret : Z
}.

End CrosschainWithdrawalProofArgs.

(** The parameter object of [prepareCircuitInputs]. *)
Module CircuitParams.

Record t : Type := mk {
  withdrawalValue : Z;
  existingValue : Z;
  existingNullifier : Z;
  existingSecret : Z;
  context : Z;
  label : Z;
  newNullifier : Z;
  newSecret : Z;
  stateProof : LeanIMT.LeanIMTMerkleProof;
  aspProof : LeanIMT.LeanIMTMerkleProof;
  stateTreeDepth : Z;
  ASPTreeDepth : Z;
  stateIndex : JS.number;
  aspIndex : JS.number
}.

End CircuitParams.

(** The fields of the generator object. *)
Record Generator : Type := mkGenerator {
  circuitFiles : option CircuitFiles;
  crosschainCircuitFiles : option CircuitFiles;
  circuitFileLoader : option CircuitFileLoader;
  crosschainCircuitFileLoader : option CircuitFileLoader
}.

(** What the generator did to its collaborators. *)
Inductive Event : Type :=
| Loaded (crosschain : bool)
| Proved (inputs : JSObject)
| Checked (signals : list string).

(** The generator's fields and the events so far, latest first. *)
Definition World : Type := Generator * list Event.

Definition MAX_TREE_DEPTH : nat := 32.

Definition padArray (arr : list Z) (length : nat) : list Z :=
  if Nat.leb length (List.length arr) then arr
  else arr ++ repeat 0 (length - List.length arr).

(** [Array.prototype.indexOf]: [None] for [-1]. *)
Fixpoint indexOf (x : Z) (l : list Z) : option nat :=
  match l with
  | [] => None
  | y :: r => if y =? x then Some O else option_map S (indexOf x r)
  end.

(** [Object.is(i, Number.NaN) ? 0 : i]. *)
Definition nanToZero (i : JS.number) : JS.number :=
  match i with
  | JS.NaN => JS.Num 0
  | _ => i
  end.

Definition siblingStrings (siblings : list Z) : JSValue :=
  VArray (map (fun s => VString (JS.toString s))
            (padArray siblings MAX_TREE_DEPTH)).

Definition prepareCircuitInputs (params : CircuitParams.t) : JSObject :=
  [ ("withdrawnValue", VString (JS.toString (CircuitParams.withdrawalValue params)));
    ("stateRoot", VString (JS.toString (LeanIMT.root (CircuitParams.stateProof params))));
    ("ASPRoot", VString (JS.toString (LeanIMT.root (CircuitParams.aspProof params))));
    ("stateTreeDepth", VString (JS.toString (CircuitParams.stateTreeDepth params)));
    ("ASPTreeDepth", VString (JS.toString (CircuitParams.ASPTreeDepth params)));
    ("context", VString (JS.toString (CircuitParams.context params)));
    ("label", VString (JS.toString (CircuitParams.label params)));
    ("existingValue", VString (JS.toString (CircuitParams.existingValue params)));
    ("existingNullifier", VString (JS.toString (CircuitParams.existingNullifier params)));
    ("existingSecret", VString (JS.toString (CircuitParams.existingSecret params)));
    ("newNullifier", VString (JS.toString (CircuitParams.newNullifier params)));
    ("newSecret", VString (JS.toString (CircuitParams.newSecret params)));
    ("stateSiblings", siblingStrings (LeanIMT.siblings (CircuitParams.stateProof params)));
    ("ASPSiblings", siblingStrings (LeanIMT.siblings (CircuitParams.aspProof params)));
    ("stateIndex", VNumber (CircuitParams.stateIndex params));
    ("ASPIndex", VNumber (CircuitParams.aspIndex params)) ].

Definition prepareCrossChainWithdrawalCircuitInputs (params : CircuitParams.t)
    (refundNullifier refundSecret : Z) : JSObject :=
  [ ("withdrawnValue", VString (JS.toString (CircuitParams.withdrawalValue params)));
    ("stateRoot", VString (JS.toString (LeanIMT.root (CircuitParams.stateProof params))));
    ("ASPRoot", VString (JS.toString (LeanIMT.root (CircuitParams.aspProof params))));
    ("stateTreeDepth", VString (JS.toString (CircuitParams.stateTreeDepth params)));
    ("ASPTreeDepth", VString (JS.toString (CircuitParams.ASPTreeDepth params)));
    ("context", VString (JS.toString (CircuitParams.context params)));
    ("label", VString (JS.toString (CircuitParams.label params)));
    ("existingValue", VString (JS.toString (CircuitParams.existingValue params)));
    ("existingNullifier", VString (JS.toString (CircuitParams.existingNullifier params)));
    ("existingSecret", VString (JS.toString (CircuitParams.existingSecret params)));
    ("newNullifier", VString (JS.toString (CircuitParams.newNullifier params)));
    ("newSecret", VString (JS.toString (CircuitParams.newSecret params)));
    ("refundNullifier", VString (JS.toString refundNullifier));
    ("refundSecret", VString (JS.toString refundSecret));
    ("stateSiblings", siblingStrings (LeanIMT.siblings (CircuitParams.stateProof params)));
    ("ASPSiblings", siblingStrings (LeanIMT.siblings (CircuitParams.aspProof params)));
    ("stateIndex", VNumber (CircuitParams.stateIndex params));
    ("ASPIndex", VNumber (CircuitParams.aspIndex params)) ].

Definition commitmentNotFound : exn :=
  Error "Existing commitment not found in state tree".

Definition labelNotFound : exn :=
  Error "Commitment label not found in ASP tree".

Definition verificationFailed : exn :=
  Error "Generated proof failed verification".

Section ProofGenerator.

Context `{P : Primitives} `{G : Groth16}.

(** [buildMerkleTrees]: both trees by [insert] in order, with
    [poseidon2] as the hash. *)
Definition buildTree (leaves : list Z) : LeanIMT.t :=
  fold_left (fun tree x => LeanIMT.insert poseidon2 x tree) leaves LeanIMT.empty.

Definition buildMerkleTrees (stateTreeCommitments aspTreeLabels : list Z)
  : LeanIMT.t * LeanIMT.t :=
  (buildTree stateTreeCommitments, buildTree aspTreeLabels).

(** The statements of [generateWithdrawalProof] between the loading of
    the circuit files and the call of the prover: trees, indices, the two
    errors, the Merkle proofs and the parameter object. *)
Definition circuitParams (args : WithdrawalProofArgs.t) : result CircuitParams.t :=
  let trees := buildMerkleTrees (WithdrawalProofArgs.stateTreeCommitments args)
                 (WithdrawalProofArgs.aspTreeLabels args) in
  let stateTree := fst trees in
  let aspTree := snd trees in
  let stateIndex := indexOf (WithdrawalProofArgs.existingCommitmentHash args)
                      (WithdrawalProofArgs.stateTreeCommitments args) in
  let aspIndex := indexOf (WithdrawalProofArgs.label args)
                    (WithdrawalProofArgs.aspTreeLabels args) in
  match stateIndex, aspIndex with
  | None, _ => Throw commitmentNotFound
  | Some _, None => Throw labelNotFound
  | Some stateIndex, Some aspIndex =>
      stateProof <- LeanIMT.generateProof stateTree stateIndex ;;
      aspProof <- LeanIMT.generateProof aspTree aspIndex ;;
      Ok {| CircuitParams.withdrawalValue := WithdrawalProofArgs.withdrawalValue args;
            CircuitParams.existingValue := WithdrawalProofArgs.existingValue args;
            CircuitParams.existingNullifier := WithdrawalProofArgs.existingNullifier args;
            CircuitParams.existingSecret := WithdrawalProofArgs.existingSecret args;
            CircuitParams.context := WithdrawalProofArgs.context args;
            CircuitParams.label := WithdrawalProofArgs.label args;
            CircuitParams.newNullifier := WithdrawalProofArgs.newNullifier args;
            CircuitParams.newSecret := WithdrawalProofArgs.newSecret args;
            CircuitParams.stateProof := stateProof;
            CircuitParams.aspProof := aspProof;
            CircuitParams.stateTreeDepth := Z.of_nat (LeanIMT.depth stateTree);
            CircuitParams.ASPTreeDepth := Z.of_nat (LeanIMT.depth aspTree);
            CircuitParams.stateIndex := nanToZero (LeanIMT.index stateProof);
            CircuitParams.aspIndex := nanToZero (LeanIMT.index aspProof) |}
  end.

Definition ensureCircuitFiles (w : World) : result CircuitFiles * World :=
  let (g, events) := w in
  match circuitFiles g with
  | Some files => (Ok files, w)
  | None =>
      match circuitFileLoader g with
      | None =>
          (Throw (Error "Circuit file loader not provided. Please provide a circuit file loader in constructor."), w)
      | Some loader =>
          match await loader with
          | Ok files =>
              (Ok files,
               ({| circuitFiles := Some files;
                   crosschainCircuitFiles := crosschainCircuitFiles g;
                   circuitFileLoader := circuitFileLoader g;
                   crosschainCircuitFileLoader := crosschainCircuitFileLoader g |},
                Loaded false :: events))
          | Throw e => (Throw e, (g, Loaded false :: events))
          end
      end
  end.

Definition ensureCrossChainWithdrawalCircuitFiles (w : World)
  : result CircuitFiles * World :=
  let (g, events) := w in
  match crosschainCircuitFiles g with
  | Some files => (Ok files, w)
  | None =>
      match crosschainCircuitFileLoader g with
      | None =>
          (Throw (Error "Cross-chain circuit file loader not provided. Please provide a cross-chain circuit file loader in constructor."), w)
      | Some loader =>
          match await loader with
          | Ok files =>
              (Ok files,
               ({| circuitFiles := circuitFiles g;
                   crosschainCircuitFiles := Some files;
                   circuitFileLoader := circuitFileLoader g;
                   crosschainCircuitFileLoader := crosschainCircuitFileLoader g |},
                Loaded true :: events))
          | Throw e => (Throw e, (g, Loaded true :: events))
          end
      end
  end.

(** [verifyWithdrawalProof] and its cross-chain twin: any exception
    inside the [try] block answers [false]. *)
Definition verifyWith (ensure : World -> result CircuitFiles * World)
    (proofData : WithdrawalProofData) (w : World) : bool * World :=
  match ensure w with
  | (Ok files, (g, events)) =>
      let w := (g, Checked (publicSignals proofData) :: events) in
      match await (verify (vkeyData files) (publicSignals proofData) (proof proofData)) with
      | Ok isValid => (isValid, w)
      | Throw _ => (false, w)
      end
  | (Throw _, w) => (false, w)
  end.

Definition verifyWithdrawalProof := verifyWith ensureCircuitFiles.

Definition verifyCrosschainWithdrawalProof :=
  verifyWith ensureCrossChainWithdrawalCircuitFiles.

(** The tail shared by the two generators: prove, verify, return. *)
Definition proveAndVerify (files : CircuitFiles) (circuitInputs : JSObject)
    (check : WithdrawalProofData -> World -> bool * World) (w : World)
  : result WithdrawalProofData * World :=
  let (g, events) := w in
  let w := (g, Proved circuitInputs :: events) in
  match await (fullProve circuitInputs (wasmFile files) (zkeyFile files)) with
  | Throw e => (Throw e, w)
  | Ok data =>
      match check data w with
      | (true, w) => (Ok data, w)
      | (false, w) => (Throw verificationFailed, w)
      end
  end.

Definition generateWithdrawalProof (args : WithdrawalProofArgs.t) (w : World)
  : result WithdrawalProofData * World :=
  match ensureCircuitFiles w with
  | (Throw e, w) => (Throw e, w)
  | (Ok files, w) =>
      match circuitParams args with
      | Throw e => (Throw e, w)
      | Ok params =>
          proveAndVerify files (prepareCircuitInputs params) verifyWithdrawalProof w
      end
  end.

Definition generateCrosschainWithdrawalProof
    (args : CrosschainWithdrawalProofArgs.t) (w : World)
  : result WithdrawalProofData * World :=
  match ensureCrossChainWithdrawalCircuitFiles w with
  | (Throw e, w) => (Throw e, w)
  | (Ok files, w) =>
      match circuitParams (CrosschainWithdrawalProofArgs.base args) with
      | Throw e => (Throw e, w)
      | Ok params =>
          proveAndVerify files
            (prepareCrossChainWithdrawalCircuitInputs params
               (CrosschainWithdrawalProofArgs.refundNullifier args)
               (CrosschainWithdrawalProofArgs.refundSecret args))
            verifyCrosschainWithdrawalProof w
      end
  end.

End ProofGenerator.

(* ================================================================== *)
(** ** services/DepositService.ts                                      *)
(* ================================================================== *)

Module DepositService.

(** [types/Deposit.ts]. *)
Record DepositCommitmentResult : Type := mkDepositCommitmentResult {
  precommitment : string;
  depositIndex : Z;
  poolAddress : string;
  nullifier : Z;
  secret : Z
}.

Record DepositCommitmentOptions : Type := mkDepositCommitmentOptions {
  optionsDepositIndex : option Z;
  forceRegenerate : option bool
}.

(** [IDepositStorageProvider]: what its two methods answer for a public
    key and a pool address. *)
Record IDepositStorageProvider : Type := mkIDepositStorageProvider {
  getNextDepositIndex : string -> string -> outcome Z;
  updateLastUsedDepositIndex : string -> string -> Z -> outcome unit
}.

Section Service.

Context `{P : Primitives}.

Variable storageProvider : IDepositStorageProvider.

Definition generateDepositCommitment (accountKey : Z) (publicKey : string)
    (poolAddress : string) (options : option DepositCommitmentOptions)
  : result DepositCommitmentResult :=
  depositIndex <-
    (match match options with
           | Some o => optionsDepositIndex o
           | None => None
           end with
     | Some i => Ok i
     | None => await (getNextDepositIndex storageProvider publicKey poolAddress)
     end) ;;
  depositNullifier <- deriveDepositNullifier (KeyBigInt accountKey) poolAddress
                        depositIndex ;;
  depositSecret <- deriveDepositSecret (KeyBigInt accountKey) poolAddress
                     depositIndex ;;
  let precommitment := poseidon2 depositNullifier depositSecret in
  Ok {| precommitment := ("0x" ++ JS.toString16 precommitment)%string;
        depositIndex := depositIndex;
        poolAddress := poolAddress;
        nullifier := depositNullifier;
        secret := depositSecret |}.

Definition updateDepositIndex (publicKey poolAddress : string) (depositIndex : Z)
  : result unit :=
  await (updateLastUsedDepositIndex storageProvider publicKey poolAddress
           depositIndex).

End Service.

End DepositService.

(* ================================================================== *)
(** ** crypto/keyGeneration.ts and crypto/accountKey.ts                *)
(* ================================================================== *)

(** [Array.prototype.join] and [String.prototype.split] on a list of
    strings. *)
Module JSArray.

(** [words.join(sep)]. *)
Definition join (sep : string) (words : list string) : string :=
  String.concat sep words.

(** The loop of [s.split(/\s+/)]: [inRun] tells whether the code unit
    before was white space; the piece being read is the head of the
    answer. *)
Fixpoint splitWhiteFrom (inRun : bool) (s : string) : list string :=
  match s with
  | EmptyString => [""%string]
  | String c r =>
      if JS.is_white_space c then
        if inRun then splitWhiteFrom true r
        else ""%string :: splitWhiteFrom true r
      else
        match splitWhiteFrom false r with
        | piece :: pieces => String c piece :: pieces
        | [] => [String c ""]
        end
  end.

(** [s.split(/\s+/)]: the pieces of [s] between its maximal runs of
    white space. *)
Definition splitWhite (s : string) : list string := splitWhiteFrom false s.

(** [s.split(sep)] for a separator of one code unit. *)
Fixpoint splitOn (sep : ascii) (s : string) : list string :=
  match s with
  | EmptyString => [""%string]
  | String c r =>
      if Ascii.eqb c sep then ""%string :: splitOn sep r
      else
        match splitOn sep r with
        | piece :: pieces => String c piece :: pieces
        | [] => [String c ""]
        end
  end.

(** The value of a hexadecimal digit. *)
Definition hexDigit (c : ascii) : option Z :=
  let n := Z.of_nat (nat_of_ascii c) in
  if (48 <=? n) && (n <=? 57) then Some (n - 48)
  else if (97 <=? n) && (n <=? 102) then Some (n - 87)
  else if (65 <=? n) && (n <=? 70) then Some (n - 55)
  else None.

(** The hexadecimal digits a text starts with. *)
Fixpoint hexPrefix (s : string) : list Z :=
  match s with
  | EmptyString => []
  | String c r =>
      match hexDigit c with
      | Some d => d :: hexPrefix r
      | None => []
      end
  end.

(** [Number.parseInt(s, 16)], for a text short enough to be read
    exactly: leading white space, a sign and a [0x] prefix are skipped,
    the digits that follow are read, and [NaN] is answered when there is
    none. *)
Definition parseInt16 (s : string) : JS.number :=
  let s := JS.trimStart s in
  let sign := match s with String "-" _ => -1 | _ => 1 end in
  let s := match s with String "-" r | String "+" r => r | _ => s end in
  let s := match s with
           | String "0" (String "x" r) | String "0" (String "X" r) => r
           | _ => s
           end in
  match hexPrefix s with
  | [] => JS.NaN
  | digits => JS.Num (sign * fold_left (fun a d => 16 * a + d) digits 0)
  end.

(** The conversion of a number stored into a [Uint8Array]. *)
Definition toUint8 (n : JS.number) : Z :=
  match n with
  | JS.Num z => z mod 256
  | JS.NaN => 0
  end.

End JSArray.

(** What [ethers.Wallet.fromPhrase] answers. *)
Record Wallet : Type := mkWallet {
  walletPublicKey : string;
  walletPrivateKey : string;
  walletAddress : string
}.

(** The functions of [bip39] and [ethers] that key generation calls. *)
Class KeyLibraries : Type := {
  bip39_entropyToMnemonic : list Z -> result string;
  bip39_validateMnemonic : string -> bool;
  Wallet_fromPhrase : string -> result Wallet
}.

Module KeyGeneration.

Record KeyGenerationResult : Type := mkKeyGenerationResult {
  publicKey : string;
  privateKey : string;
  mnemonic : list string;
  address : string
}.

Section KeyGeneration.

Context `{L : KeyLibraries}.

(** The slices [cleanHex.slice(i, i + 2)] that are stored, [i = 0, 2,
    ...]: the array has [cleanHex.length / 2] slots, rounded down, so a
    last slice of one code unit is written out of range and lost. *)
Fixpoint slices (cleanHex : string) : list string :=
  match cleanHex with
  | String a (String b r) => String a (String b "") :: slices r
  | _ => []
  end.

Definition hexToBytes (hex : string) : list Z :=
  let cleanHex := if JS.startsWith hex "0x"
                  then String.substring 2 (String.length hex - 2) hex
                  else hex in
  map (fun slice => JSArray.toUint8 (JSArray.parseInt16 slice)) (slices cleanHex).

(** The 16 bytes of entropy [generateKeysFromRandomSeed] draws from the
    seed bytes. *)
Definition entropyOf (seedBytes : list Z) : list Z :=
  let len := List.length seedBytes in
  if Nat.leb 16 len then firstn 16 seedBytes
  else
    seedBytes
    ++ map (fun i : nat =>
              (* seedBytes[i % seedBytes.length] ^ (i % 256); an index out
                 of range reads [undefined], which [^] takes for 0 *)
              let byte := match nth_error seedBytes (Nat.modulo i len) with
                          | Some b => b
                          | None => 0
                          end in
              JSArray.toUint8 (JS.Num (Z.lxor byte (Z.of_nat i mod 256))))
         (seq len (16 - len)).

Definition generateKeysFromRandomSeed (randomSeed : string)
  : result KeyGenerationResult :=
  let seedBytes := hexToBytes randomSeed in
  let entropy := entropyOf seedBytes in
  mnemonic <- bip39_entropyToMnemonic entropy ;;
  if negb (bip39_validateMnemonic mnemonic) then
    Throw (Error "Generated invalid mnemonic phrase")
  else
    wallet <- Wallet_fromPhrase mnemonic ;;
    Ok {| publicKey := walletPublicKey wallet;
          privateKey := walletPrivateKey wallet;
          mnemonic := JSArray.splitOn " " mnemonic;
          address := walletAddress wallet |}.

Definition validateMnemonic (mnemonic : list string) : bool :=
  bip39_validateMnemonic (JSArray.join " " mnemonic).

Definition restoreFromMnemonic (mnemonic : list string)
  : result KeyGenerationResult :=
  let mnemonicPhrase := JSArray.join " " mnemonic in
  if negb (bip39_validateMnemonic mnemonicPhrase) then
    Throw (Error "Invalid mnemonic phrase")
  else
    wallet <- Wallet_fromPhrase mnemonicPhrase ;;
    Ok {| publicKey := walletPublicKey wallet;
          privateKey := walletPrivateKey wallet;
          mnemonic := mnemonic;
          address := walletAddress wallet |}.

End KeyGeneration.

End KeyGeneration.

Module AccountKey.

Record AuthCredentials : Type := mkAuthCredentials {
  mnemonic : option (list string);
  privateKey : option string
}.

Section AccountKey.

Context `{L : KeyLibraries}.

Definition getAccountKey (credentials : AuthCredentials) : result Z :=
  (* Prefer private key if available *)
  if JS.truthy_string (privateKey credentials) then
    parseUserKey (KeyString (match privateKey credentials with
                             | Some key => key
                             | None => ""
                             end))
  (* Fall back to mnemonic derivation *)
  else
    match mnemonic credentials with
    | Some words =>
        if Nat.ltb 0 (List.length words) then
          restored <- KeyGeneration.restoreFromMnemonic words ;;
          parseUserKey (KeyString (KeyGeneration.privateKey restored))
        else Throw (Error "No valid authentication credentials available")
    | None => Throw (Error "No valid authentication credentials available")
    end.

Definition parseMnemonicInput (input : string) : result (list string) :=
  let words := JSArray.splitWhite (JS.trim input) in
  if negb (KeyGeneration.validateMnemonic words) then
    Throw (Error ("Invalid mnemonic: expected 12 or 24 words, got "
                  ++ JS.toString (Z.of_nat (List.length words)))%string)
  else Ok words.

Definition mnemonicToString (mnemonic : list string) : string :=
  JSArray.join " " mnemonic.

End AccountKey.

End AccountKey.

(* ================================================================== *)
(** ** transformers/index.ts of the data package                       *)
(* ================================================================== *)

Module Transformers.

(** A JavaScript number: a finite value, [NaN] or an infinity.  Every
    finite double is a rational. *)
Inductive Number : Type :=
| Finite (q : QArith_base.Q)
| NotANumber
| PlusInfinity
| MinusInfinity.

(** Plain data as the indexer delivers it, with bigints.  An object is
    the list of its own properties, with distinct keys, in the order
    [for ... in] visits them; that is the order in which the functions
    below write the properties of their result.  The prototype of an
    object is not part of the model. *)
#[warnings="-register-all"]
Inductive Value : Type :=
| Null
| Undefined
| Boolean (b : bool)
| Num (n : Number)
| Str (s : string)
| Big (z : Z)
| Arr (items : list Value)
| Obj (properties : list (string * Value)).

(** The argument of [safeBigIntParse]:
    [string | number | bigint | null | undefined]. *)
Inductive Parsable : Type :=
| ofNull
| ofUndefined
| ofBigInt (z : Z)
| ofNumber (n : Number)
| ofString (s : string).

Definition safeBigIntParse (value : Parsable) : result Z :=
  match value with
  | ofNull | ofUndefined => Ok 0
  | ofBigInt z => Ok z
  | ofNumber n =>
      (* BigInt(Math.floor(value)) *)
      match n with
      | Finite q => Ok (Qround.Qfloor q)
      | _ => Throw RangeError
      end
  | ofString s =>
      (* try { return BigInt(value) } catch { return 0n } *)
      match JS.BigInt s with
      | Ok z => Ok z
      | Throw _ => Ok 0
      end
  end.

(** [result[key] = value], where [result] was made as [{}] and [written]
    holds the other own properties it gets.  The assignment writes an own
    property, except at the key [__proto__]: there it calls the setter
    that [Object.prototype] has for that key, which writes no own
    property (it makes [value] the prototype of [result] when [value] is
    an object or [null], and does nothing otherwise). *)
Definition assign (key : string) (value : Value)
    (written : list (string * Value)) : list (string * Value) :=
  if String.eqb key "__proto__" then written else (key, value) :: written.

Fixpoint convertBigIntsToStrings (obj : Value) : Value :=
  match obj with
  | Big z => Str (JS.toString z)
  | Null | Undefined => obj
  | Arr items => Arr (map convertBigIntsToStrings items)
  | Obj properties =>
      Obj ((fix each (l : list (string * Value)) : list (string * Value) :=
              match l with
              | [] => []
              | (key, value) :: rest =>
                  assign key (convertBigIntsToStrings value) (each rest)
              end) properties)
  | _ => obj
  end.

(** [bigIntFields.includes(key)]. *)
Definition includes (key : string) (bigIntFields : list string) : bool :=
  existsb (String.eqb key) bigIntFields.

(** [typeof value === 'object']. *)
Definition isObject (value : Value) : bool :=
  match value with
  | Null | Arr _ | Obj _ => true
  | _ => false
  end.

(** A string or a number, as an argument of [safeBigIntParse]. *)
Definition stringOrNumber (value : Value) : option Parsable :=
  match value with
  | Str s => Some (ofString s)
  | Num n => Some (ofNumber n)
  | _ => None
  end.

Fixpoint convertStringsToBigInts (bigIntFields : list string) (obj : Value)
  : result Value :=
  match obj with
  | Null | Undefined => Ok obj
  | Arr items =>
      converted <-
        (fix each (l : list Value) : result (list Value) :=
           match l with
           | [] => Ok []
           | item :: rest =>
               y <- convertStringsToBigInts bigIntFields item ;;
               ys <- each rest ;;
               Ok (y :: ys)
           end) items ;;
      Ok (Arr converted)
  | Obj properties =>
      converted <-
        (fix each (l : list (string * Value)) : result (list (string * Value)) :=
           match l with
           | [] => Ok []
           | (key, value) :: rest =>
               y <- (match (if includes key bigIntFields
                            then stringOrNumber value else None) with
                     | Some parsable =>
                         z <- safeBigIntParse parsable ;; Ok (Big z)
                     | None =>
                         if isObject value
                         then convertStringsToBigInts bigIntFields value
                         else Ok value
                     end) ;;
               ys <- each rest ;;
               Ok (assign key y ys)
           end) properties ;;
      Ok (Obj converted)
  | _ => Ok obj
  end.

(** Which fields are bigints, entity by entity. *)
Module BIGINT_FIELDS.

Definition activity : list string :=
  ["amount"; "originalAmount"; "vettingFeeAmount"; "feeAmount"; "feeRefund";
   "blockNumber"; "timestamp"; "originChainId"; "destinationChainId"]%string.

Definition pool : list string :=
  ["totalDeposits"; "totalWithdrawals"; "depositCount"; "createdAt"]%string.

Definition stateTreeLeaf : list string := ["leafIndex"; "treeSize"]%string.

Definition aspApprovalList : list string := ["timestamp"]%string.

Definition crossChainIntent : list string :=
  ["originChainId"; "destinationChainId"; "amount"; "createdAt"]%string.

End BIGINT_FIELDS.

Definition serializeActivity (entity : Value) : Value :=
  convertBigIntsToStrings entity.

Definition serializePool (entity : Value) : Value :=
  convertBigIntsToStrings entity.

Definition serializeStateTreeLeaf (entity : Value) : Value :=
  convertBigIntsToStrings entity.

Definition serializeASPApprovalList (entity : Value) : Value :=
  convertBigIntsToStrings entity.

Definition serializeCrossChainIntent (entity : Value) : Value :=
  convertBigIntsToStrings entity.

Definition deserializeActivity (entity : Value) : result Value :=
  convertStringsToBigInts BIGINT_FIELDS.activity entity.

Definition deserializePool (entity : Value) : result Value :=
  convertStringsToBigInts BIGINT_FIELDS.pool entity.

Definition deserializeStateTreeLeaf (entity : Value) : result Value :=
  convertStringsToBigInts BIGINT_FIELDS.stateTreeLeaf entity.

Definition deserializeASPApprovalList (entity : Value) : result Value :=
  convertStringsToBigInts BIGINT_FIELDS.aspApprovalList entity.

Definition deserializeCrossChainIntent (entity : Value) : result Value :=
  convertStringsToBigInts BIGINT_FIELDS.crossChainIntent entity.

Definition serializeActivities (activities : list Value) : list Value :=
  map serializeActivity activities.

Fixpoint deserializeActivities (activities : list Value) : result (list Value) :=
  match activities with
  | [] => Ok []
  | a :: rest =>
      y <- deserializeActivity a ;; ys <- deserializeActivities rest ;; Ok (y :: ys)
  end.

End Transformers.

(* ################################################################## *)
(** * Part II: the specification's formulas and sample inputs          *)
(* ################################################################## *)

(** In this part [++] is string concatenation again. *)
Local Open Scope string_scope.
Local Open Scope Z_scope.

(* ================================================================== *)
(** ** The derivations as the specification writes them                *)
(* ================================================================== *)

(** Section 4.1 and 4.2 of the specification, word for word: [mod_p] is
    the mathematical remainder, [field_from_keccak] reduces the 256-bit
    digest, a domain tag is the digest of the UTF-8 text
    ["shinobi.cash:X"], [dom_X] is [field_from_keccak tag_X], and [prf]
    nests two [poseidon2] calls. *)
Module Spec.

Section Spec.

Context `{P : Primitives}.

Definition p : Z := F.

Definition mod_p (x : Z) : Z := x mod p.

Definition uint256 (digest : Hex) : result Z := JS.BigInt digest.

Definition field_from_keccak (bytes : Hex) : result Z :=
  x <- uint256 (keccak256 bytes) ;; Ok (mod_p x).

Definition tag (X : string) : result Hex :=
  utf8 <- encodePacked [abi_string ("shinobi.cash:" ++ X)] ;;
  Ok (keccak256 utf8).

Definition prf (k ctx dom : Z) : Z :=
  mod_p (poseidon2 k (mod_p (poseidon2 ctx dom))).

(** [prf(k, ctx(pool, di, ci, X), dom_X)]. *)
Definition derive (X : string) (k : Z) (pool : string) (di ci : Z) : result Z :=
  tag_X <- tag X ;;
  dom_X <- field_from_keccak tag_X ;;
  addr <- getAddress pool ;;
  packed <- encodePacked
              [abi_address addr; abi_uint64 di; abi_uint64 ci; abi_bytes32 tag_X] ;;
  ctx <- field_from_keccak packed ;;
  Ok (prf k ctx dom_X).

End Spec.

End Spec.

(* ================================================================== *)
(** ** A sample instance of the primitives                             *)
(* ================================================================== *)

(** An executable stand-in for [poseidon-lite] and [viem], used to run the
    model on concrete inputs.  The hashes are pairing functions on the
    integers (hence collision-free); the digest of a text is a positional
    code of its characters; [getAddress] accepts the 42-character
    spellings; the encoders lay the values out one after the other and
    refuse a [uint64] out of range. *)
Module Sample.

(** An injection of [Z] into the non-negative integers. *)
Definition fold_sign (z : Z) : Z := if 0 <=? z then 2 * z else - 2 * z - 1.

(** Twice Cantor's pairing of two non-negative integers. *)
Definition cantor (a b : Z) : Z := (a + b) * (a + b + 1) + 2 * b.

Definition hash2 (a b : Z) : Z := cantor (fold_sign a) (fold_sign b).
Definition hash1 (a : Z) : Z := hash2 a 1.
Definition hash3 (a b c : Z) : Z := hash2 a (hash2 b c).

Fixpoint text_code (s : string) : Z :=
  match s with
  | EmptyString => 1
  | String c r => 256 * text_code r + Z.of_nat (nat_of_ascii c)
  end.

Definition digest (bytes : Hex) : Hex := "0x" ++ JS.toString16 (text_code bytes).

Definition checksum (address : string) : result string :=
  if Nat.eqb (String.length address) 42 && JS.startsWith address "0x"
  then Ok address
  else Throw (External "InvalidAddressError").

Fixpoint layout (v : AbiValue) : result string :=
  match v with
  | abi_address a => Ok ("a" ++ a)
  | abi_uint64 n =>
      if (0 <=? n) && (n <? 2 ^ 64) then Ok ("u" ++ JS.toString n)
      else Throw (External "IntegerOutOfRangeError")
  | abi_uint256 n =>
      if (0 <=? n) && (n <? 2 ^ 256) then Ok ("U" ++ JS.toString n)
      else Throw (External "IntegerOutOfRangeError")
  | abi_bytes32 h => Ok ("h" ++ h)
  | abi_bytes h => Ok ("b" ++ h)
  | abi_string s => Ok ("s" ++ s)
  | abi_tuple components =>
      (fix all (l : list AbiValue) : result string :=
         match l with
         | [] => Ok ")"
         | x :: r => a <- layout x ;; b <- all r ;; Ok (a ++ "," ++ b)
         end) components
  end.

Fixpoint encode (values : list AbiValue) : result Hex :=
  match values with
  | [] => Ok "0x"
  | v :: r => a <- layout v ;; b <- encode r ;; Ok (b ++ "/" ++ a)
  end.

#[export] Instance primitives : Primitives := {|
  poseidon1 := hash1;
  poseidon2 := hash2;
  poseidon3 := hash3;
  keccak256 := digest;
  getAddress := checksum;
  encodePacked := encode;
  encodeAbiParameters := encode
|}.

Definition pool : string := "0x5543a1b2c3d4e5f60718293a4b5c6d7e8f907D18".

End Sample.

(** The two builds of the package.  In the CommonJS build [require]
    answers the module whose functions the static imports give; in the ES
    module build there is no [require], and calling it throws. *)
Module SampleModules.

Definition commonjs : WithdrawalContextService.ModuleSystem := {|
  WithdrawalContextService.require := fun _ =>
    Ok {| WithdrawalContextService.lite_poseidon2 := Sample.hash2;
          WithdrawalContextService.lite_poseidon3 := Sample.hash3 |}
|}.

Definition esm : WithdrawalContextService.ModuleSystem := {|
  WithdrawalContextService.require := fun _ =>
    Throw (External "require is not available in an ES module")
|}.

End SampleModules.

(* ================================================================== *)
(** ** Sample notes, pages and proof arguments                         *)
(* ================================================================== *)

Module SampleNotes.

#[local] Existing Instance Sample.primitives.

Definition key : Z := 7.

(** An activated deposit note of one million base units. *)
Definition deposit_note : Note := {|
  poolAddress := Sample.pool;
  depositIndex := 0;
  changeIndex := 0;
  noteType := deposit;
  amount := Some "1000000";
  originTransactionHash := "0xaa";
  destinationTransactionHash := "0xaa";
  originChainId := "1";
  destinationChainId := "1";
  blockNumber := "10";
  timestamp := "1000";
  status := unspent;
  isActivated := true;
  label := "12345";
  refundCommitment := None
|}.

Definition withdrawalData : string * Hex := (Sample.pool, "0x00").

Definition value_of {A} (default : A) (r : result A) : A :=
  match r with Ok a => a | Throw _ => default end.

Definition nullifier :=
  Eval vm_compute in value_of 0 (deriveDepositNullifier (KeyBigInt key) Sample.pool 0).

Definition secret :=
  Eval vm_compute in value_of 0 (deriveDepositSecret (KeyBigInt key) Sample.pool 0).

Definition base :=
  Eval vm_compute in
    value_of (WithdrawalContextService.mkWithdrawalContext 0 0 0 0 0 0)
      (WithdrawalContextService.calculateWithdrawalContext deposit_note key withdrawalData 1).

Definition refund_pair :=
  Eval vm_compute in
    (value_of 0 (deriveRefundNullifier (KeyBigInt key) Sample.pool 0 1),
     value_of 0 (deriveRefundSecret (KeyBigInt key) Sample.pool 0 1)).

End SampleNotes.

Module SampleDiscovery.

#[local] Existing Instance Sample.primitives.

Definition key : Z := SampleNotes.key.

Definition changeNullifier1 :=
  Eval vm_compute in
    SampleNotes.value_of 0 (deriveChangeNullifier (KeyBigInt key) Sample.pool 0 1).

Definition precommitment0 :=
  Eval vm_compute in
    JS.toString (poseidon2 SampleNotes.nullifier SampleNotes.secret).

Definition nullifierHash0 :=
  Eval vm_compute in JS.toString (poseidon1 SampleNotes.nullifier).

Definition nullifierHash1 :=
  Eval vm_compute in JS.toString (poseidon1 changeNullifier1).

(** An activated deposit of 1,000,000 at deposit index 0. *)
Definition depositActivity : Activity.t := {|
  Activity.type := DEPOSIT;
  Activity.amount := Some 1000000;
  Activity.label := Some "12345";
  Activity.precommitmentHash := Some precommitment0;
  Activity.spentNullifier := None;
  Activity.newCommitment := None;
  Activity.refundCommitment := None;
  Activity.blockNumber := 10;
  Activity.timestamp := 1000;
  Activity.originTransactionHash := "0xaa";
  Activity.destinationTransactionHash := None;
  Activity.originChainId := 1;
  Activity.destinationChainId := None
|}.

(** The same deposit before activation: no amount, no label. *)
Definition pendingDeposit : Activity.t := {|
  Activity.type := CROSSCHAIN_DEPOSIT;
  Activity.amount := None;
  Activity.label := None;
  Activity.precommitmentHash := Some precommitment0;
  Activity.spentNullifier := None;
  Activity.newCommitment := None;
  Activity.refundCommitment := None;
  Activity.blockNumber := 10;
  Activity.timestamp := 1000;
  Activity.originTransactionHash := "0xaa";
  Activity.destinationTransactionHash := None;
  Activity.originChainId := 1;
  Activity.destinationChainId := None
|}.

Definition withdrawalOf (spent : string) (value : option Z)
    (commitment refund : option string) (block : Z) : Activity.t := {|
  Activity.type := WITHDRAWAL;
  Activity.amount := value;
  Activity.label := None;
  Activity.precommitmentHash := None;
  Activity.spentNullifier := Some spent;
  Activity.newCommitment := commitment;
  Activity.refundCommitment := refund;
  Activity.blockNumber := block;
  Activity.timestamp := 1000 + block;
  Activity.originTransactionHash := "0xbb";
  Activity.destinationTransactionHash := None;
  Activity.originChainId := 1;
  Activity.destinationChainId := None
|}.

(** Two partial withdrawals of the deposit: 400,000 then 600,000. *)
Definition withdrawal1 : Activity.t :=
  withdrawalOf nullifierHash0 (Some 400000) (Some "777") None 11.

Definition withdrawal2 : Activity.t :=
  withdrawalOf nullifierHash1 (Some 600000) (Some "778") (Some "999") 12.

(** A withdrawal that spends the deposit's nullifier and carries no
    [newCommitment]. *)
Definition bareWithdrawal : Activity.t :=
  withdrawalOf nullifierHash0 (Some 400000) None None 11.

(** A withdrawal of 5 that spends the deposit's nullifier. *)
Definition smallWithdrawal : Activity.t :=
  withdrawalOf nullifierHash0 (Some 5) (Some "777") None 11.

(** A fetcher over a list of pages; the cursor is the index of the next
    page. *)
Definition pageOf (pages : list (list Activity.t)) (i : nat)
  : result ActivityPage :=
  match nth_error pages i with
  | Some activities =>
      let more := Nat.ltb (S i) (List.length pages) in
      Ok {| items := activities;
            pageInfo := {| hasNextPage := more;
                           endCursor := if more
                                        then Some (JS.toString (Z.of_nat (S i)))
                                        else None |} |}
  | None => Throw (External "no such page")
  end.

Definition fetcher (pages : list (list Activity.t)) : ActivityFetcher :=
  fun _ _ cursor =>
    match cursor with
    | None => pageOf pages 0
    | Some c => i <- JS.BigInt c ;; pageOf pages (Z.to_nat i)
    end.

Definition noOptions : DiscoveryOptions := {| maxPages := None; pageSize := None |}.

(** What the scenarios compare: per note, its change index, amount,
    status, activation flag and label. *)
Definition summary (chains : list NoteChain)
  : list (list (Z * option string * NoteStatus * bool * string)) :=
  map (map (fun n => (changeIndex n, amount n, status n, isActivated n, label n)))
    chains.

Definition notesOf (run : option (result (DiscoveryResult * Checkpoints)))
  : list NoteChain :=
  match run with
  | Some (Ok (r, _)) => notes r
  | _ => []
  end.

(** Scenario 2: one deposit, two partial withdrawals, over two pages. *)
Definition twoWithdrawals : option (result (DiscoveryResult * Checkpoints)) :=
  discoverNotes 20 None (fetcher [[depositActivity; withdrawal1]; [withdrawal2]])
    Sample.pool key noOptions.

(** A pending deposit followed, in the same page, by a withdrawal that
    spends its nullifier. *)
Definition pendingThenSpent : option (result (DiscoveryResult * Checkpoints)) :=
  discoverNotes 20 None (fetcher [[pendingDeposit; smallWithdrawal]])
    Sample.pool key noOptions.

(** Scenario 3: a pending deposit alone on its page. *)
Definition pendingAlone : option (result (DiscoveryResult * Checkpoints)) :=
  discoverNotes 20 None (fetcher [[pendingDeposit]; []])
    Sample.pool key noOptions.

End SampleDiscovery.

Module SampleRuns.

#[local] Existing Instance Sample.primitives.

Import SampleDiscovery.

Definition emptyResult : DiscoveryResult * Checkpoints :=
  ({| notes := []; lastUsedIndex := -1; newNotesFound := 0;
      lastProcessedCursor := None |}, []).

Definition twoWithdrawalsResult :=
  Eval vm_compute in
    match twoWithdrawals with
    | Some (Ok r) => r
    | _ => emptyResult
    end.

(** The deposit note after the first withdrawal, and its change note. *)
Definition afterWithdrawal1 : NoteChain :=
  [setStatus spent SampleNotes.deposit_note;
   changeNoteOf SampleNotes.deposit_note 1 600000 withdrawal1].

End SampleRuns.

Module SampleProofs.

(** A prover that answers a fixed proof over the record's scalar
    signals, and a verifier that accepts it. *)
#[export] Instance groth16 : Groth16 := {|
  fullProve := fun inputs _ _ =>
    Answer {| proof := "proof";
              publicSignals :=
                match get "withdrawnValue" inputs with
                | Some (VString s) => [s]
                | _ => []
                end |};
  verify := fun _ _ proof => Answer (String.eqb proof "proof")
|}.

Definition files : CircuitFiles :=
  {| wasmFile := "wasm"; zkeyFile := "zkey"; vkeyData := "vkey" |}.

(** A generator built with both loaders, before any call. *)
Definition fresh : World :=
  ({| circuitFiles := None;
      crosschainCircuitFiles := None;
      circuitFileLoader := Some (Answer files);
      crosschainCircuitFileLoader := Some (Answer files) |}, []).

Definition loaded : World :=
  ({| circuitFiles := Some files;
      crosschainCircuitFiles := None;
      circuitFileLoader := Some (Answer files);
      crosschainCircuitFileLoader := Some (Answer files) |}, [Loaded false]).

Definition argsOf (commitment label : Z) (state asp : list Z)
  : WithdrawalProofArgs.t := {|
  WithdrawalProofArgs.existingCommitmentHash := commitment;
  WithdrawalProofArgs.existingValue := 1000000;
  WithdrawalProofArgs.existingNullifier := 11;
  WithdrawalProofArgs.existingSecret := 12;
  WithdrawalProofArgs.withdrawalValue := 400000;
  WithdrawalProofArgs.context := 13;
  WithdrawalProofArgs.label := label;
  WithdrawalProofArgs.newNullifier := 14;
  WithdrawalProofArgs.newSecret := 15;
  WithdrawalProofArgs.stateTreeCommitments := state;
  WithdrawalProofArgs.aspTreeLabels := asp
|}.

(** Scenario 5: the commitment at index 7 of 10, the label at index 2
    of 4. *)
Definition scenario : WithdrawalProofArgs.t :=
  argsOf 108 203 [101; 102; 103; 104; 105; 106; 107; 108; 109; 110]
    [201; 202; 203; 204].

(** Neither the commitment nor the label is in the supplied lists. *)
Definition bothAbsent : WithdrawalProofArgs.t := argsOf 2 4 [1] [3].

(** The label alone is missing. *)
Definition labelAbsent : WithdrawalProofArgs.t := argsOf 1 4 [1] [3].

Definition recordOf (args : WithdrawalProofArgs.t) : JSObject :=
  match circuitParams (P := Sample.primitives) args with
  | Ok params => prepareCircuitInputs params
  | Throw _ => []
  end.

End SampleProofs.

(* ================================================================== *)
(** ** Samples for the deposit service, the keys and the transformers  *)
(* ================================================================== *)

Module SampleCache.

#[local] Existing Instance Sample.primitives.

Import SampleDiscovery.

(** The two-page scan of scenario 2, stopped after one page. *)
Definition onePage : DiscoveryOptions := {| maxPages := Some 1; pageSize := None |}.

Definition capped : option (result (DiscoveryResult * Checkpoints)) :=
  discoverNotes 20 None (fetcher [[depositActivity; withdrawal1]; [withdrawal2]])
    Sample.pool key onePage.

Definition cappedResult :=
  Eval vm_compute in
    match capped with
    | Some (Ok r) => r
    | _ => SampleRuns.emptyResult
    end.

(** A cache that holds the pending deposit alone. *)
Definition pendingChain : NoteChain := [depositNoteOf pendingDeposit 0 Sample.pool].

Definition pendingCache : DiscoveryResult :=
  {| notes := [pendingChain]; lastUsedIndex := 0; newNotesFound := 1;
     lastProcessedCursor := None |}.

(** A later run over a page that holds a withdrawal spending the pending
    deposit's nullifier. *)
Definition resumed : option (result (DiscoveryResult * Checkpoints)) :=
  discoverNotes 20 (Some pendingCache) (fetcher [[smallWithdrawal]])
    Sample.pool key noOptions.

Definition resumedResult :=
  Eval vm_compute in
    match resumed with
    | Some (Ok r) => r
    | _ => SampleRuns.emptyResult
    end.

End SampleCache.

Module SampleDeposits.

(** A storage provider whose next deposit index is 3. *)
Definition storage : DepositService.IDepositStorageProvider :=
  {| DepositService.getNextDepositIndex := fun _ _ => Answer 3;
     DepositService.updateLastUsedDepositIndex := fun _ _ _ => Answer tt |}.

(** The commitment for deposit index 0, asked for by the caller. *)
Definition commitment0 :=
  Eval vm_compute in
    SampleNotes.value_of (DepositService.mkDepositCommitmentResult "" 0 "" 0 0)
      (DepositService.generateDepositCommitment (P := Sample.primitives) storage
         SampleNotes.key "0xowner" Sample.pool
         (Some (DepositService.mkDepositCommitmentOptions (Some 0) None))).

(** A scan that starts from nothing, over a page that holds the deposit. *)
Definition start : Scan :=
  {| scanNotes := nil;
     scanLastUsedIndex := -1;
     nextDepositIndex := 0;
     liveDeposits := nil;
     progress := mkDiscoveryProgress 0 0 0 0 None false |}.

Definition scanned : Scan :=
  Eval vm_compute in
    match scanDeposits (P := Sample.primitives) 5
            (SampleDiscovery.depositActivity :: nil) SampleNotes.key Sample.pool start
    with
    | Some (Ok s) => s
    | _ => start
    end.

(** The nullifier and the secret of the deposit index that follows. *)
Definition next_pair : Z * Z :=
  Eval vm_compute in
    (SampleNotes.value_of 0
       (deriveDepositNullifier (P := Sample.primitives)
          (KeyBigInt SampleNotes.key) Sample.pool 1),
     SampleNotes.value_of 0
       (deriveDepositSecret (P := Sample.primitives)
          (KeyBigInt SampleNotes.key) Sample.pool 1)).

End SampleDeposits.

Module SampleKeys.

(** Stand-ins for [bip39] and [ethers]: sixteen bytes of entropy make
    twelve words, a phrase of twelve words is valid, and the wallet's
    private key is a code of the phrase. *)
#[export] Instance libraries : KeyLibraries := {|
  bip39_entropyToMnemonic := fun entropy =>
    if Nat.eqb (List.length entropy) 16
    then Ok (JSArray.join " "
               (map (fun b => "w" ++ JS.toString b) (firstn 12 entropy)))
    else Throw (External "Invalid entropy");
  bip39_validateMnemonic := fun phrase =>
    Nat.eqb (List.length (JSArray.splitOn " " phrase)) 12;
  Wallet_fromPhrase := fun phrase =>
    Ok {| walletPublicKey := "0x04";
          walletPrivateKey := "0x" ++ JS.toString16 (Sample.text_code phrase);
          walletAddress := Sample.pool |}
|}.

Definition twelve : list string :=
  ["w1"; "w2"; "w3"; "w4"; "w5"; "w6"; "w7"; "w8"; "w9"; "w10"; "w11"; "w12"]%list.

Definition sixteen : list Z :=
  [0; 1; 2; 3; 4; 5; 6; 7; 8; 9; 10; 11; 12; 13; 14; 255]%list.

(** Credentials that hold the twelve words and no private key. *)
Definition credentials : AccountKey.AuthCredentials :=
  {| AccountKey.mnemonic := Some twelve; AccountKey.privateKey := None |}.

End SampleKeys.

Module SampleEntities.

Import Transformers.

(** A withdrawal activity as the indexer delivers it, in part. *)
Definition activity : Value :=
  Obj [("id", Str "0xbb-1");
       ("type", Str "WITHDRAWAL");
       ("amount", Big 400000);
       ("label", Null);
       ("spentNullifier", Str "12345678901234567890");
       ("isSponsored", Boolean true);
       ("blockNumber", Big 11);
       ("timestamp", Big 1011);
       ("originChainId", Big 421614);
       ("destinationChainId", Undefined)]%list.

(** A serialized activity whose block number is [NaN]. *)
Definition broken : list (string * Value) :=
  [("id", Str "0xbb-1");
   ("amount", Str "not a number");
   ("blockNumber", Num NotANumber)]%list.

(** What [JSON.parse] makes of a text with the key [__proto__]: an object
    with an own property of that name. *)
Definition polluted : list (string * Value) :=
  [("id", Str "0xbb-1");
   ("__proto__", Str "1");
   ("amount", Str "5")]%list.

End SampleEntities.

(* ################################################################## *)
(** * Part III: properties                                             *)
(* ################################################################## *)

(* ================================================================== *)
(** ** Reading and printing integers                                   *)
(* ================================================================== *)

Example toString_examples :
  JS.toString 0 = "0" /\ JS.toString 1207 = "1207" /\ JS.toString (-45) = "-45"
  /\ JS.toString16 255 = "ff" /\ JS.toString16 (-255) = "-ff".
Proof. repeat split. Qed.

Example BigInt_examples :
  JS.BigInt " 0012 " = Ok 12 /\ JS.BigInt "-7" = Ok (-7) /\ JS.BigInt "" = Ok 0
  /\ JS.BigInt "0xFf" = Ok 255 /\ JS.BigInt "0b101" = Ok 5
  /\ JS.BigInt "0x" = Throw SyntaxError /\ JS.BigInt "-0x5" = Throw SyntaxError
  /\ JS.BigInt "Pending Deposit #0" = Throw SyntaxError.
Proof. repeat split. Qed.

(* ------------------------------------------------------------------ *)
(** *** Facts about trimming                                            *)
(* ------------------------------------------------------------------ *)

Section StringFacts.

Lemma string_app_nil_r (s : string) : s ++ "" = s.
Proof. induction s as [|c r IH]; simpl; [reflexivity | now rewrite IH]. Qed.

Lemma string_app_assoc (a b c : string) : (a ++ b) ++ c = a ++ (b ++ c).
Proof. induction a as [|x r IH]; simpl; [reflexivity | now rewrite IH]. Qed.

Lemma rev_app (a b : string) : JS.rev (a ++ b) = JS.rev b ++ JS.rev a.
Proof.
  induction a as [|x r IH]; simpl.
  - now rewrite string_app_nil_r.
  - now rewrite IH, string_app_assoc.
Qed.

Lemma rev_involutive (s : string) : JS.rev (JS.rev s) = s.
Proof.
  induction s as [|c r IH]; simpl; [reflexivity|].
  now rewrite rev_app, IH.
Qed.

(** Every code unit of the string is white space. *)
Fixpoint all_white (s : string) : bool :=
  match s with
  | EmptyString => true
  | String c r => JS.is_white_space c && all_white r
  end.

(** The string is empty or starts with a code unit that is no white space. *)
Definition starts_clean (s : string) : bool :=
  match s with
  | EmptyString => true
  | String c _ => negb (JS.is_white_space c)
  end.

Lemma all_white_app (a b : string) :
  all_white (a ++ b) = all_white a && all_white b.
Proof.
  induction a as [|c r IH]; simpl; [reflexivity|].
  now rewrite IH, andb_assoc.
Qed.

Lemma all_white_rev (s : string) : all_white (JS.rev s) = all_white s.
Proof.
  induction s as [|c r IH]; simpl; [reflexivity|].
  rewrite all_white_app, IH. simpl. rewrite andb_true_r. apply andb_comm.
Qed.

Lemma trimStart_white (w s : string) :
  all_white w = true -> JS.trimStart (w ++ s) = JS.trimStart s.
Proof.
  induction w as [|c r IH]; simpl; [reflexivity|].
  intros H. apply andb_prop in H. destruct H as [Hc Hr].
  rewrite Hc. now apply IH.
Qed.

Lemma trimStart_clean (s : string) :
  starts_clean s = true -> JS.trimStart s = s.
Proof.
  destruct s as [|c r]; simpl; [reflexivity|].
  intros H. apply negb_true_iff in H. now rewrite H.
Qed.

Lemma trimStart_starts_clean (s : string) :
  starts_clean (JS.trimStart s) = true.
Proof.
  induction s as [|c r IH]; simpl; [reflexivity|].
  destruct (JS.is_white_space c) eqn:E; [exact IH|].
  simpl. now rewrite E.
Qed.

Lemma trimEnd_white (s w : string) :
  all_white w = true -> JS.trimEnd (s ++ w) = JS.trimEnd s.
Proof.
  intros H. unfold JS.trimEnd. rewrite rev_app.
  rewrite trimStart_white; [reflexivity|]. now rewrite all_white_rev.
Qed.

(** White space around a text does not survive [trim]. *)
Lemma trim_white (w1 s w2 : string) :
  all_white w1 = true -> all_white w2 = true ->
  JS.trim (w1 ++ s ++ w2) = JS.trim s.
Proof.
  intros H1 H2. unfold JS.trim.
  rewrite trimStart_white by exact H1.
  (* trimStart (s ++ w2): either s is all white, or its clean suffix stays *)
  induction s as [|c r IH]; simpl.
  - assert (E : JS.trimStart w2 = "").
    { clear -H2. induction w2 as [|c r IH]; simpl; [reflexivity|].
      simpl in H2. apply andb_prop in H2. destruct H2 as [Hc Hr].
      rewrite Hc. now apply IH. }
    now rewrite E.
  - destruct (JS.is_white_space c) eqn:E; [exact IH|].
    change (String c (r ++ w2)) with (String c r ++ w2).
    now apply trimEnd_white.
Qed.

Lemma trimEnd_rev_clean (s : string) :
  starts_clean (JS.rev s) = true -> JS.trimEnd s = s.
Proof.
  intros H. unfold JS.trimEnd. rewrite trimStart_clean by exact H.
  apply rev_involutive.
Qed.

(** No code unit of the string is white space. *)
Fixpoint no_white (s : string) : bool :=
  match s with
  | EmptyString => true
  | String c r => negb (JS.is_white_space c) && no_white r
  end.

Lemma no_white_app (a b : string) :
  no_white (a ++ b) = no_white a && no_white b.
Proof.
  induction a as [|c r IH]; simpl; [reflexivity|].
  now rewrite IH, andb_assoc.
Qed.

Lemma no_white_rev (s : string) : no_white (JS.rev s) = no_white s.
Proof.
  induction s as [|c r IH]; simpl; [reflexivity|].
  rewrite no_white_app, IH. simpl. rewrite andb_true_r. apply andb_comm.
Qed.

Lemma no_white_starts_clean (s : string) :
  no_white s = true -> starts_clean s = true.
Proof.
  destruct s as [|c r]; simpl; [reflexivity|].
  intros H. now apply andb_prop in H.
Qed.

Lemma trim_no_white (s : string) : no_white s = true -> JS.trim s = s.
Proof.
  intros H. unfold JS.trim.
  rewrite trimStart_clean by now apply no_white_starts_clean.
  apply trimEnd_rev_clean, no_white_starts_clean. now rewrite no_white_rev.
Qed.

End StringFacts.

(* ------------------------------------------------------------------ *)
(** *** Printing and reading integers                                   *)
(* ------------------------------------------------------------------ *)

Section NumeralFacts.

Lemma dec_digits_no_white (d : Decimal.uint) :
  no_white (DecimalString.NilEmpty.string_of_uint d) = true.
Proof. induction d; simpl; auto. Qed.

Lemma hex_digits_no_white (d : Hexadecimal.uint) :
  no_white (HexadecimalString.NilEmpty.string_of_uint d) = true.
Proof. induction d; simpl; auto. Qed.

Lemma hex_digits_lower (d : Hexadecimal.uint) :
  JS.lower_hex (HexadecimalString.NilEmpty.string_of_uint d)
  = HexadecimalString.NilEmpty.string_of_uint d.
Proof. induction d; simpl; congruence. Qed.

Lemma parse_decimal_digits_print (d : Decimal.uint) :
  d <> Decimal.Nil ->
  JS.parse_decimal_digits (DecimalString.NilEmpty.string_of_uint d)
  = Some (Z.of_uint d).
Proof.
  intros Hd. unfold JS.parse_decimal_digits.
  rewrite DecimalString.NilEmpty.usu.
  destruct d; simpl; congruence.
Qed.

Lemma parse_hex_digits_print (d : Hexadecimal.uint) :
  d <> Hexadecimal.Nil ->
  JS.parse_hex_digits (HexadecimalString.NilEmpty.string_of_uint d)
  = Some (Z.of_hex_uint d).
Proof.
  intros Hd. unfold JS.parse_hex_digits.
  rewrite hex_digits_lower, HexadecimalString.NilEmpty.usu.
  destruct d; simpl; congruence.
Qed.

(** A run of decimal digits is read as a decimal literal: its first two
    code units never spell a radix prefix or a sign. *)
Lemma literal_of_dec_digits (d : Decimal.uint) :
  d <> Decimal.Nil ->
  JS.StringIntegerLiteral (DecimalString.NilEmpty.string_of_uint d)
  = JS.parse_decimal_digits (DecimalString.NilEmpty.string_of_uint d).
Proof.
  intros Hd. destruct d as [|d|d|d|d|d|d|d|d|d|d]; try congruence;
    try reflexivity.
  destruct d; reflexivity.
Qed.

Lemma dec_print_nonnil (d : Decimal.uint) :
  d <> Decimal.Nil ->
  DecimalString.NilZero.string_of_uint d
  = DecimalString.NilEmpty.string_of_uint d.
Proof. destruct d; intros H; first [congruence | reflexivity]. Qed.

Lemma hex_print_nonnil (d : Hexadecimal.uint) :
  d <> Hexadecimal.Nil ->
  HexadecimalString.NilZero.string_of_uint d
  = HexadecimalString.NilEmpty.string_of_uint d.
Proof. destruct d; intros H; first [congruence | reflexivity]. Qed.

Lemma literal_toString (z : Z) : JS.StringIntegerLiteral (JS.toString z) = Some z.
Proof.
  unfold JS.toString. destruct z as [|p|p]; [reflexivity| |].
  - simpl Z.to_int. simpl DecimalString.NilZero.string_of_int.
    pose proof (DecimalPos.Unsigned.to_uint_nonnil p) as Hn.
    pose proof (dec_print_nonnil _ Hn) as E.
    rewrite E, literal_of_dec_digits, parse_decimal_digits_print by exact Hn.
    unfold Z.of_uint. now rewrite DecimalPos.Unsigned.of_to.
  - simpl Z.to_int. simpl DecimalString.NilZero.string_of_int.
    pose proof (DecimalPos.Unsigned.to_uint_nonnil p) as Hn.
    pose proof (dec_print_nonnil _ Hn) as E.
    rewrite E.
    change (JS.StringIntegerLiteral
              (String "-" (DecimalString.NilEmpty.string_of_uint (Pos.to_uint p))))
      with (option_map Z.opp
              (JS.parse_decimal_digits
                 (DecimalString.NilEmpty.string_of_uint (Pos.to_uint p)))).
    rewrite parse_decimal_digits_print by exact Hn.
    unfold Z.of_uint. now rewrite DecimalPos.Unsigned.of_to.
Qed.

Lemma toString_no_white (z : Z) : no_white (JS.toString z) = true.
Proof.
  unfold JS.toString. destruct z as [|p|p]; [reflexivity| |];
    simpl Z.to_int; simpl DecimalString.NilZero.string_of_int;
    pose proof (DecimalPos.Unsigned.to_uint_nonnil p) as Hn;
    rewrite (dec_print_nonnil _ Hn); simpl; apply dec_digits_no_white.
Qed.

(** Reading back what [toString] printed. *)
Lemma BigInt_toString (z : Z) : JS.BigInt (JS.toString z) = Ok z.
Proof.
  unfold JS.BigInt. rewrite trim_no_white by apply toString_no_white.
  now rewrite literal_toString.
Qed.

Lemma hex_print_nonneg (z : Z) :
  0 <= z ->
  JS.toString16 z
  = HexadecimalString.NilEmpty.string_of_uint (N.to_hex_uint (Z.abs_N z))
  /\ N.to_hex_uint (Z.abs_N z) <> Hexadecimal.Nil.
Proof.
  intros Hz. unfold JS.toString16.
  assert (E : (z <? 0) = false) by (apply Z.ltb_ge; exact Hz).
  rewrite E. simpl append.
  assert (Hn : N.to_hex_uint (Z.abs_N z) <> Hexadecimal.Nil).
  { destruct (Z.abs_N z) as [|p]; simpl; [discriminate|].
    apply HexadecimalPos.Unsigned.to_uint_nonnil. }
  split; [|exact Hn].
  now apply hex_print_nonnil.
Qed.

Lemma toString16_no_white (z : Z) : no_white (JS.toString16 z) = true.
Proof.
  unfold JS.toString16.
  assert (Hd : forall d, no_white (HexadecimalString.NilZero.string_of_uint d) = true).
  { intros d. destruct d; try reflexivity; apply (hex_digits_no_white (_ d)). }
  destruct (z <? 0); simpl; apply Hd.
Qed.

(** Reading back the [0x] spelling of a non-negative integer. *)
Lemma BigInt_hex (z : Z) : 0 <= z -> JS.BigInt ("0x" ++ JS.toString16 z) = Ok z.
Proof.
  intros Hz. destruct (hex_print_nonneg z Hz) as [E Hn]. rewrite E.
  unfold JS.BigInt. rewrite trim_no_white.
  - change (JS.StringIntegerLiteral
              ("0x" ++ HexadecimalString.NilEmpty.string_of_uint
                         (N.to_hex_uint (Z.abs_N z))))
      with (JS.parse_hex_digits
              (HexadecimalString.NilEmpty.string_of_uint
                 (N.to_hex_uint (Z.abs_N z)))).
    rewrite parse_hex_digits_print by exact Hn. simpl. f_equal.
    unfold Z.of_hex_uint.
    change (Pos.of_hex_uint (N.to_hex_uint (Z.abs_N z)))
      with (N.of_hex_uint (N.to_hex_uint (Z.abs_N z))).
    rewrite HexadecimalN.Unsigned.of_to. now rewrite N2Z.inj_abs_N, Z.abs_eq.
  - simpl. apply hex_digits_no_white.
Qed.

(** No hexadecimal literal is negative: both spellings of a negative
    integer with the [0x] prefix are refused. *)
Lemma BigInt_hex_negative (z : Z) :
  z < 0 ->
  JS.BigInt ("0x" ++ JS.toString16 z) = Throw SyntaxError
  /\ JS.BigInt ("-0x" ++ JS.toString16 (- z)) = Throw SyntaxError.
Proof.
  intros Hz. unfold JS.toString16.
  assert (E : (z <? 0) = true) by (apply Z.ltb_lt; exact Hz).
  assert (E' : (- z <? 0) = false) by (apply Z.ltb_ge; lia).
  rewrite E, E'. simpl append.
  remember (HexadecimalString.NilZero.string_of_uint (N.to_hex_uint (Z.abs_N z))) as h.
  remember (HexadecimalString.NilZero.string_of_uint (N.to_hex_uint (Z.abs_N (- z)))) as h'.
  assert (Hall : forall d, no_white (HexadecimalString.NilZero.string_of_uint d) = true).
  { intros d. destruct d; try reflexivity;
      apply (hex_digits_no_white (_ d)). }
  assert (Hh : no_white h = true) by (subst h; apply Hall).
  assert (Hh' : no_white h' = true) by (subst h'; apply Hall).
  split; unfold JS.BigInt; rewrite trim_no_white by (simpl; assumption).
  - change (JS.StringIntegerLiteral (String "0" (String "x" (String "-" h))))
      with (JS.parse_hex_digits (String "-" h)).
    unfold JS.parse_hex_digits. simpl.
    now destruct (HexadecimalString.NilEmpty.uint_of_string (JS.lower_hex h)).
  - change (JS.StringIntegerLiteral (String "-" (String "0" (String "x" h'))))
      with (option_map Z.opp (JS.parse_decimal_digits (String "0" (String "x" h')))).
    unfold JS.parse_decimal_digits. simpl.
    now destruct (DecimalString.NilEmpty.uint_of_string h').
Qed.

End NumeralFacts.

(* ================================================================== *)
(** ** Field reduction and key parsing                                 *)
(* ================================================================== *)

Lemma F_pos : 0 < F.
Proof. reflexivity. Qed.

(** The double truncating remainder is the mathematical one. *)
Lemma modF_mod (x : Z) : modF x = x mod F.
Proof.
  unfold modF, JS.rem. pose proof F_pos as HF.
  pose proof (Z.rem_bound_abs x F ltac:(lia)) as Hb.
  assert (Hr : Z.rem x F = x + (- (x ÷ F)) * F)
    by (rewrite Z.rem_eq by lia; ring).
  rewrite Z.rem_mod_nonneg by lia.
  replace (Z.rem x F + F) with (Z.rem x F + 1 * F) by lia.
  rewrite Z_mod_plus_full, Hr. apply Z_mod_plus_full.
Qed.

Lemma modF_range (x : Z) : 0 <= modF x < F.
Proof. rewrite modF_mod. apply Z.mod_pos_bound, F_pos. Qed.

Lemma modF_field (k : Z) : 0 <= k < F -> modF k = k.
Proof. intros H. rewrite modF_mod. now apply Z.mod_small. Qed.

(** Both string branches of [parseUserKey] hand the trimmed text to
    [BigInt]. *)
Lemma parseUserKey_string (u : string) :
  parseUserKey (KeyString u) = (x <- JS.BigInt (JS.trim u) ;; Ok (modF x)).
Proof.
  unfold parseUserKey, hexToBigInt.
  now destruct (JS.startsWith (JS.trim u) "0x").
Qed.

Lemma parseUserKey_field (k : Z) :
  0 <= k < F -> parseUserKey (KeyBigInt k) = Ok k.
Proof. intros H. simpl. now rewrite modF_field. Qed.

(** C9 (amended).  For every integer [x] the decimal string of [x] and
    the bigint [x] parse to the same key, [x mod p], which lies in
    [[0, p)]; for every non-negative [x] so does the [0x]-prefixed
    hexadecimal string of [x]; and white space around a string key is
    trimmed before parsing.  No [0x] spelling of a negative integer is
    accepted. *)
Theorem parseUserKey_canonical (x : Z) :
  parseUserKey (KeyString (JS.toString x)) = Ok (x mod F)
  /\ parseUserKey (KeyBigInt x) = Ok (x mod F)
  /\ (0 <= x -> parseUserKey (KeyString ("0x" ++ JS.toString16 x)) = Ok (x mod F))
  /\ (x < 0 ->
      parseUserKey (KeyString ("0x" ++ JS.toString16 x)) = Throw SyntaxError
      /\ parseUserKey (KeyString ("-0x" ++ JS.toString16 (- x))) = Throw SyntaxError)
  /\ 0 <= x mod F < F
  /\ (forall w1 w2 s : string,
        all_white w1 = true -> all_white w2 = true ->
        parseUserKey (KeyString (w1 ++ s ++ w2)) = parseUserKey (KeyString s)).
Proof.
  repeat split.
  - rewrite parseUserKey_string, trim_no_white by apply toString_no_white.
    rewrite BigInt_toString. simpl. now rewrite modF_mod.
  - simpl. now rewrite modF_mod.
  - intros Hx. rewrite parseUserKey_string.
    destruct (hex_print_nonneg x Hx) as [E _].
    rewrite trim_no_white.
    + rewrite BigInt_hex by exact Hx. simpl. now rewrite modF_mod.
    + rewrite E. simpl. apply hex_digits_no_white.
  - rewrite parseUserKey_string.
    rewrite trim_no_white by (simpl; apply toString16_no_white).
    now rewrite (proj1 (BigInt_hex_negative x H)).
  - rewrite parseUserKey_string.
    rewrite trim_no_white by (simpl; apply toString16_no_white).
    now rewrite (proj2 (BigInt_hex_negative x H)).
  - apply Z.mod_pos_bound, F_pos.
  - apply Z.mod_pos_bound, F_pos.
  - intros w1 w2 s H1 H2.
    rewrite !parseUserKey_string. now rewrite trim_white.
Qed.

(** C9 as stated fails on negative integers: [-1n] and ["-1"] parse to
    [p - 1], while both hexadecimal spellings of [-1] with the [0x]
    prefix are rejected with a [SyntaxError]. *)
Lemma parseUserKey_negative_hex :
  parseUserKey (KeyBigInt (-1)) = Ok (F - 1)
  /\ parseUserKey (KeyString (JS.toString (-1))) = Ok (F - 1)
  /\ JS.toString16 (-1) = "-1"
  /\ parseUserKey (KeyString ("0x" ++ JS.toString16 (-1))) = Throw SyntaxError
  /\ parseUserKey (KeyString "-0x1") = Throw SyntaxError.
Proof. repeat split. Qed.

(* ================================================================== *)
(** ** The derivations meet the specification's formula                *)
(* ================================================================== *)

Section DerivationSpec.

Context `{P : Primitives}.

Lemma fieldFromKeccak_spec (bytes : Hex) :
  fieldFromKeccak bytes = Spec.field_from_keccak bytes.
Proof.
  unfold fieldFromKeccak, Spec.field_from_keccak, Spec.uint256, hexToBigInt.
  destruct (JS.BigInt (keccak256 bytes)); simpl; [|reflexivity].
  unfold Spec.mod_p, Spec.p. now rewrite modF_mod.
Qed.

Lemma prf2_spec (k ctx dom : Z) : prf2 k ctx dom = Spec.prf k ctx dom.
Proof. unfold prf2, Spec.prf, Spec.mod_p, Spec.p. now rewrite !modF_mod. Qed.

(** The shape shared by the six derivations. *)
Lemma derive_shape (X : string) (userKey : UserKey) (k : Z)
    (pool : string) (di ci : Z) :
  parseUserKey userKey = Ok k ->
  (tag <- domainTag ("shinobi.cash:" ++ X) ;;
   dom <- domainField (domainTag ("shinobi.cash:" ++ X)) ;;
   k' <- parseUserKey userKey ;;
   ctx <- contextField pool di ci tag ;;
   Ok (prf2 k' ctx dom))
  = Spec.derive X k pool di ci.
Proof.
  intros Hk. unfold Spec.derive, Spec.tag, domainField, domainTag, contextField.
  destruct (encodePacked [abi_string ("shinobi.cash:" ++ X)]) as [utf8|e];
    simpl; [|reflexivity].
  rewrite <- fieldFromKeccak_spec.
  destruct (fieldFromKeccak (keccak256 utf8)) as [dom|e]; simpl; [|reflexivity].
  rewrite Hk. simpl.
  destruct (getAddress pool) as [addr|e]; simpl; [|reflexivity].
  destruct (encodePacked _) as [packed|e]; simpl; [|reflexivity].
  rewrite <- fieldFromKeccak_spec.
  destruct (fieldFromKeccak packed) as [ctx|e]; simpl; [|reflexivity].
  now rewrite prf2_spec.
Qed.

End DerivationSpec.

(** C1.  For an account key [k] (a field element), a pool address and a
    deposit index, [deriveDepositNullifier] is
    [mod_p (poseidon2 k (mod_p (poseidon2 ctx dom)))] with [ctx] the
    [field_from_keccak] of the packed (checksummed address, [di] as
    uint64, [0] as uint64, 32-byte tag) and [dom] the field reduction
    [field_from_keccak tag] of the same tag; the five other derivations
    obey the same equation with their own tag and the given change
    index. *)
Theorem derivations_are_prf `{P : Primitives} (k : Z) (pool : string) (di ci : Z) :
  0 <= k < F ->
  deriveDepositNullifier (KeyBigInt k) pool di
    = Spec.derive "DepositNullifierV1" k pool di 0
  /\ deriveDepositSecret (KeyBigInt k) pool di
    = Spec.derive "DepositSecretV1" k pool di 0
  /\ deriveChangeNullifier (KeyBigInt k) pool di ci
    = Spec.derive "ChangeNullifierV1" k pool di ci
  /\ deriveChangeSecret (KeyBigInt k) pool di ci
    = Spec.derive "ChangeSecretV1" k pool di ci
  /\ deriveRefundNullifier (KeyBigInt k) pool di ci
    = Spec.derive "RefundNullifierV1" k pool di ci
  /\ deriveRefundSecret (KeyBigInt k) pool di ci
    = Spec.derive "RefundSecretV1" k pool di ci.
Proof.
  intros Hk. pose proof (parseUserKey_field k Hk) as Hp.
  repeat split;
    match goal with
    | |- _ = Spec.derive ?X _ _ _ ?c =>
        exact (derive_shape X (KeyBigInt k) k pool di c Hp)
    end.
Qed.

(* ================================================================== *)
(** ** Commitments and withdrawal contexts                             *)
(* ================================================================== *)

Section Commitments.

Context `{P : Primitives}.

Import WithdrawalContextService.

(** The pair a note is spent with: deposit derivations at change index
    [0], change derivations at the note's own index otherwise. *)
Definition derives_note (k : Z) (note : Note) (nullifier secret : Z) : Prop :=
  (changeIndex note = 0 ->
     deriveDepositNullifier (KeyBigInt k) (poolAddress note) (depositIndex note)
       = Ok nullifier
     /\ deriveDepositSecret (KeyBigInt k) (poolAddress note) (depositIndex note)
       = Ok secret)
  /\ (changeIndex note <> 0 ->
     deriveChangeNullifier (KeyBigInt k) (poolAddress note) (depositIndex note)
         (changeIndex note) = Ok nullifier
     /\ deriveChangeSecret (KeyBigInt k) (poolAddress note) (depositIndex note)
         (changeIndex note) = Ok secret).

Lemma derives_note_branch (k : Z) (note : Note) (nullifier secret : Z) :
  derives_note k note nullifier secret ->
  (if changeIndex note =? 0 then
     n <- deriveDepositNullifier (KeyBigInt k) (poolAddress note) (depositIndex note) ;;
     s <- deriveDepositSecret (KeyBigInt k) (poolAddress note) (depositIndex note) ;;
     Ok (n, s)
   else
     n <- deriveChangeNullifier (KeyBigInt k) (poolAddress note) (depositIndex note)
            (changeIndex note) ;;
     s <- deriveChangeSecret (KeyBigInt k) (poolAddress note) (depositIndex note)
            (changeIndex note) ;;
     Ok (n, s))
  = Ok (nullifier, secret).
Proof.
  intros [H0 H1]. destruct (Z.eqb_spec (changeIndex note) 0) as [E|E].
  - destruct (H0 E) as [-> ->]. reflexivity.
  - destruct (H1 E) as [-> ->]. reflexivity.
Qed.

Lemma derivedNoteCommitment_value (k : Z) (note : Note) (a l nullifier secret : Z) :
  JS.BigInt_opt (amount note) = Ok a ->
  JS.BigInt (label note) = Ok l ->
  derives_note k note nullifier secret ->
  derivedNoteCommitment k note = Ok (poseidon3 a l (poseidon2 nullifier secret)).
Proof.
  intros Ha Hl Hd. unfold derivedNoteCommitment.
  rewrite (derives_note_branch _ _ _ _ Hd). simpl. now rewrite Ha, Hl.
Qed.

(** C2.  For a note whose amount and label are present (they read as the
    integers [a] and [l]), [derivedNoteCommitment] is
    [poseidon3 a l (poseidon2 nullifier secret)] for the deposit pair when
    [changeIndex = 0] and the change pair at the note's change index
    otherwise; [calculateWithdrawalContext] returns this value as
    [existingCommitment] and the same pair as [existingNullifier] and
    [existingSecret]. *)
Theorem commitment_composition (k : Z) (note : Note) (a l nullifier secret : Z)
    (withdrawalData : string * Hex) (poolScope : Z) :
  JS.BigInt_opt (amount note) = Ok a ->
  JS.BigInt (label note) = Ok l ->
  derives_note k note nullifier secret ->
  derivedNoteCommitment k note = Ok (poseidon3 a l (poseidon2 nullifier secret))
  /\ calculateWithdrawalContext note k withdrawalData poolScope
     = (context <- calculateContextHash withdrawalData poolScope ;;
        newNullifier <- deriveChangeNullifier (KeyBigInt k) (poolAddress note)
                          (depositIndex note) (changeIndex note + 1) ;;
        newSecret <- deriveChangeSecret (KeyBigInt k) (poolAddress note)
                       (depositIndex note) (changeIndex note + 1) ;;
        Ok {| context := context;
              newNullifier := newNullifier;
              newSecret := newSecret;
              existingNullifier := nullifier;
              existingSecret := secret;
              existingCommitment := poseidon3 a l (poseidon2 nullifier secret) |}).
Proof.
  intros Ha Hl Hd.
  pose proof (derivedNoteCommitment_value k note a l nullifier secret Ha Hl Hd) as Hc.
  split; [exact Hc|].
  unfold calculateWithdrawalContext. rewrite Hc.
  rewrite (derives_note_branch _ _ _ _ Hd).
  destruct (calculateContextHash withdrawalData poolScope); simpl; [|reflexivity].
  destruct (deriveChangeNullifier _ _ _ _); simpl; [|reflexivity].
  destruct (deriveChangeSecret _ _ _ _); reflexivity.
Qed.

(** Where [require] answers the module [poseidon-lite] (the CommonJS
    build), [calculateCrosschainWithdrawalContext] returns the refund
    derivations at change index [n.changeIndex + 1] and
    [refundCommitment = poseidon3 amount label (poseidon2 refundNullifier
    refundSecret)]; the base context holds the change derivations at the
    same coordinate. *)
Lemma refund_commitment_where_require_resolves `{M : ModuleSystem}
    (k : Z) (note : Note) (a l rn rs : Z)
    (withdrawalData : string * Hex) (poolScope : Z) (base : WithdrawalContext) :
  require "poseidon-lite"
    = Ok {| lite_poseidon2 := poseidon2; lite_poseidon3 := poseidon3 |} ->
  calculateWithdrawalContext note k withdrawalData poolScope = Ok base ->
  deriveRefundNullifier (KeyBigInt k) (poolAddress note) (depositIndex note)
    (changeIndex note + 1) = Ok rn ->
  deriveRefundSecret (KeyBigInt k) (poolAddress note) (depositIndex note)
    (changeIndex note + 1) = Ok rs ->
  JS.BigInt_opt (amount note) = Ok a ->
  JS.BigInt (label note) = Ok l ->
  calculateCrosschainWithdrawalContext note k withdrawalData poolScope
    = Ok {| baseContext := base;
            refundNullifier := rn;
            refundSecret := rs;
            refundCommitment := poseidon3 a l (poseidon2 rn rs) |}
  /\ deriveChangeNullifier (KeyBigInt k) (poolAddress note) (depositIndex note)
       (changeIndex note + 1) = Ok (newNullifier base)
  /\ deriveChangeSecret (KeyBigInt k) (poolAddress note) (depositIndex note)
       (changeIndex note + 1) = Ok (newSecret base).
Proof.
  intros Hreq Hb Hrn Hrs Ha Hl. repeat split.
  - unfold calculateCrosschainWithdrawalContext.
    now rewrite Hb, Hrn, Hrs, Hreq, Ha, Hl.
  - unfold calculateWithdrawalContext in Hb.
    repeat match type of Hb with
           | bind ?r _ = Ok _ =>
               let x := fresh "x" in let E := fresh "E" in
               destruct r as [x|] eqn:E; simpl in Hb; [|discriminate]
           end.
    now inversion Hb.
  - unfold calculateWithdrawalContext in Hb.
    repeat match type of Hb with
           | bind ?r _ = Ok _ =>
               let x := fresh "x" in let E := fresh "E" in
               destruct r as [x|] eqn:E; simpl in Hb; [|discriminate]
           end.
    now inversion Hb.
Qed.


End Commitments.

(* ================================================================== *)
(** ** The derivation theorems at concrete inputs                      *)
(* ================================================================== *)

Module SampleFacts.

Import Sample.

Lemma fold_sign_nonneg (z : Z) : 0 <= fold_sign z.
Proof. unfold fold_sign. destruct (Z.leb_spec 0 z); lia. Qed.

Lemma fold_sign_inj (x y : Z) : fold_sign x = fold_sign y -> x = y.
Proof.
  unfold fold_sign.
  destruct (Z.leb_spec 0 x), (Z.leb_spec 0 y); lia.
Qed.

Lemma cantor_nonneg (a b : Z) : 0 <= a -> 0 <= b -> 0 <= cantor a b.
Proof. unfold cantor. nia. Qed.

Lemma cantor_inj (a b c d : Z) :
  0 <= a -> 0 <= b -> 0 <= c -> 0 <= d ->
  cantor a b = cantor c d -> a = c /\ b = d.
Proof.
  unfold cantor. intros Ha Hb Hc Hd H.
  assert (Hs : a + b = c + d).
  { destruct (Z.lt_trichotomy (a + b) (c + d)) as [L|[E|L]]; [|exact E|]; nia. }
  split; nia.
Qed.

Lemma hash2_inj (a b c d : Z) : hash2 a b = hash2 c d -> a = c /\ b = d.
Proof.
  unfold hash2. intros H.
  apply cantor_inj in H; try apply fold_sign_nonneg.
  destruct H as [H1 H2]. split; now apply fold_sign_inj.
Qed.

Lemma hash3_inj (a b c x y z : Z) :
  hash3 a b c = hash3 x y z -> a = x /\ b = y /\ c = z.
Proof.
  unfold hash3. intros H. apply hash2_inj in H. destruct H as [H1 H2].
  apply hash2_inj in H2. tauto.
Qed.


End SampleFacts.

Example sample_derivations_answer :
  is_Ok (deriveDepositNullifier (P := Sample.primitives) (KeyBigInt 7) Sample.pool 0) = true
  /\ is_Ok (deriveChangeSecret (P := Sample.primitives) (KeyString " 0x1f ") Sample.pool 3 2) = true
  /\ is_Ok (deriveDepositNullifier (P := Sample.primitives) (KeyBigInt 7) "0x55" 0) = false
  /\ is_Ok (deriveChangeNullifier (P := Sample.primitives) (KeyBigInt 7) Sample.pool 0 (2 ^ 64)) = false.
Proof. vm_compute. repeat split. Qed.

Lemma sample_deposit_note_derives :
  derives_note (P := Sample.primitives) SampleNotes.key SampleNotes.deposit_note
    SampleNotes.nullifier SampleNotes.secret.
Proof.
  split; intros H.
  - split; vm_compute; reflexivity.
  - exfalso. apply H. reflexivity.
Defined.

Lemma parseUserKey_canonical_witness :
  0 <= 255
  /\ parseUserKey (KeyString ("0x" ++ JS.toString16 255)) = Ok (255 mod F)
  /\ parseUserKey (KeyString (" " ++ "255" ++ " ")) = parseUserKey (KeyString "255").
Proof.
  destruct (parseUserKey_canonical 255) as (_ & _ & Hhex & _ & _ & Hws).
  split; [lia|]. split.
  - apply Hhex. lia.
  - apply Hws; reflexivity.
Defined.

Lemma derivations_are_prf_witness :
  0 <= SampleNotes.key < F
  /\ deriveDepositNullifier (P := Sample.primitives) (KeyBigInt SampleNotes.key) Sample.pool 0
     = Spec.derive (P := Sample.primitives) "DepositNullifierV1"
         SampleNotes.key Sample.pool 0 0
  /\ deriveDepositNullifier (P := Sample.primitives) (KeyBigInt SampleNotes.key) Sample.pool 0
     = Ok SampleNotes.nullifier.
Proof.
  assert (H : 0 <= SampleNotes.key < F) by (unfold SampleNotes.key, F; lia).
  split; [exact H|]. split.
  - exact (proj1 (derivations_are_prf (P := Sample.primitives)
                    SampleNotes.key Sample.pool 0 1 H)).
  - vm_compute. reflexivity.
Defined.

Lemma commitment_composition_witness :
  derives_note (P := Sample.primitives) SampleNotes.key SampleNotes.deposit_note
    SampleNotes.nullifier SampleNotes.secret
  /\ derivedNoteCommitment (P := Sample.primitives) SampleNotes.key SampleNotes.deposit_note
     = Ok (Sample.hash3 1000000 12345
             (Sample.hash2 SampleNotes.nullifier SampleNotes.secret))
  /\ WithdrawalContextService.calculateWithdrawalContext (P := Sample.primitives)
       SampleNotes.deposit_note SampleNotes.key SampleNotes.withdrawalData 1
     = Ok SampleNotes.base
  /\ WithdrawalContextService.existingCommitment SampleNotes.base
     = Sample.hash3 1000000 12345
         (Sample.hash2 SampleNotes.nullifier SampleNotes.secret).
Proof.
  split; [exact sample_deposit_note_derives|].
  destruct (commitment_composition (P := Sample.primitives)
              SampleNotes.key SampleNotes.deposit_note 1000000 12345
              SampleNotes.nullifier SampleNotes.secret
              SampleNotes.withdrawalData 1
              eq_refl eq_refl sample_deposit_note_derives) as [Hc Hw].
  split; [exact Hc|]. split.
  - rewrite Hw. vm_compute. reflexivity.
  - vm_compute. reflexivity.
Defined.

(** In the CommonJS build the sample note gets its refund values. *)
Lemma sample_refund_commitment :
  WithdrawalContextService.calculateCrosschainWithdrawalContext
    (P := Sample.primitives) (M := SampleModules.commonjs)
    SampleNotes.deposit_note SampleNotes.key SampleNotes.withdrawalData 1
  = Ok (WithdrawalContextService.mkCrosschainWithdrawalContext
          SampleNotes.base
          (fst SampleNotes.refund_pair)
          (snd SampleNotes.refund_pair)
          (Sample.hash3 1000000 12345
             (Sample.hash2 (fst SampleNotes.refund_pair) (snd SampleNotes.refund_pair)))).
Proof.
  refine (proj1 (refund_commitment_where_require_resolves (P := Sample.primitives)
                   (M := SampleModules.commonjs)
                   SampleNotes.key SampleNotes.deposit_note 1000000 12345
                   (fst SampleNotes.refund_pair) (snd SampleNotes.refund_pair)
                   SampleNotes.withdrawalData 1 SampleNotes.base _ _ _ _ _ _));
    vm_compute; reflexivity.
Qed.


(* ================================================================== *)
(** ** Chain extension                                                 *)
(* ================================================================== *)

(** From here on [++] is list concatenation again. *)
Local Open Scope list_scope.

Section ListFacts.

Context {A : Type}.

Lemma lastOf_snoc (init : list A) (x : A) : lastOf (init ++ [x]) = Some x.
Proof.
  unfold lastOf. rewrite length_app. simpl.
  replace (List.length init + 1 - 1)%nat with (List.length init) by lia.
  rewrite nth_error_app2 by lia. now rewrite Nat.sub_diag.
Qed.

Lemma lastOf_Some (l : list A) (x : A) :
  lastOf l = Some x -> exists init, l = (init ++ [x])%list.
Proof.
  induction l as [|y r _] using rev_ind; [discriminate|].
  rewrite lastOf_snoc. intros [= ->]. now exists r.
Qed.

Lemma updateAt_snoc (f : A -> A) (init : list A) (x : A) :
  updateAt (List.length (init ++ [x]) - 1) f (init ++ [x]) = (init ++ [f x])%list.
Proof.
  rewrite length_app. simpl.
  replace (List.length init + 1 - 1)%nat with (List.length init) by lia.
  induction init as [|y r IH]; simpl; [reflexivity | now rewrite IH].
Qed.

Lemma updateAt_length (i : nat) (f : A -> A) (l : list A) :
  List.length (updateAt i f l) = List.length l.
Proof.
  revert i. induction l as [|x r IH]; intros [|i]; simpl; auto.
Qed.

Lemma updateAt_Forall (Q : A -> Prop) (i : nat) (f : A -> A) (l : list A) :
  (forall x, nth_error l i = Some x -> Q (f x)) ->
  Forall Q l -> Forall Q (updateAt i f l).
Proof.
  revert i. induction l as [|x r IH]; intros [|i] Hf H; simpl; auto;
    inversion H; subst; constructor; auto.
Qed.

Lemma nth_error_0_snoc (init : list A) (x : A) :
  nth_error (init ++ [x]) 0 = Some (hd x init).
Proof. now destruct init. Qed.

End ListFacts.

Lemma markLastSpent_snoc (init : NoteChain) (tail : Note) :
  markLastSpent (init ++ [tail]) = (init ++ [setStatus spent tail])%list.
Proof. apply updateAt_snoc. Qed.

Section ChainExtension.

Context `{P : Primitives}.

(** The nullifier of the chain's tail: the deposit nullifier when the
    tail's change index is [0], the change nullifier at the tail's change
    index otherwise; the deposit index is the chain head's. *)
Definition tailNullifier (accountKey : Z) (pool : string) (head tail : Note)
  : result Z :=
  if changeIndex tail =? 0
  then deriveDepositNullifier (KeyBigInt accountKey) pool (depositIndex head)
  else deriveChangeNullifier (KeyBigInt accountKey) pool (depositIndex head)
         (changeIndex tail).

Definition bump (d : Z) (r : NoteChain * Z) : NoteChain * Z := (fst r, snd r + d).

(** The count the loop starts from is only added to. *)
Lemma extendLoop_shift (d : Z) (fuel : nat) (acts : list Activity.t)
    (k : Z) (pool : string) (chain : NoteChain) (remaining ci n m : Z) :
  extendLoop fuel acts k pool chain remaining ci n (m + d)
  = omap_result (bump d) (extendLoop fuel acts k pool chain remaining ci n m).
Proof.
  revert chain remaining ci n m.
  induction fuel as [|fuel IH]; intros; cbn [extendLoop]; [reflexivity|].
  destruct (find _ acts) as [w|]; [|reflexivity].
  destruct (negb _ || negb _); [reflexivity|].
  destruct (nth_error (markLastSpent chain) 0) as [head|]; [|reflexivity].
  replace (m + d + 1) with (m + 1 + d) by lia.
  destruct (_ <=? 0); [reflexivity|].
  destruct (deriveChangeNullifier _ _ _ _); [|reflexivity].
  apply IH.
Qed.

(** [extendChainInPlace] on a chain whose tail carries an amount. *)
Lemma extendChainInPlace_unfold (fuel : nat) (init : NoteChain) (tail : Note)
    (acts : list Activity.t) (k : Z) (pool : string) (a : string) (remaining n : Z) :
  amount tail = Some a ->
  JS.BigInt a = Ok remaining ->
  tailNullifier k pool (hd tail init) tail = Ok n ->
  extendChainInPlace fuel (init ++ [tail]) acts k pool
  = extendLoop fuel acts k pool (init ++ [tail]) remaining
      (if changeIndex tail =? 0 then 1 else changeIndex tail + 1) n 0.
Proof.
  intros Ha Hr Hn. unfold extendChainInPlace.
  rewrite lastOf_snoc, Ha. cbn [fbind]. rewrite Hr.
  rewrite nth_error_0_snoc. cbn [fbind JS.of_option].
  unfold tailNullifier in Hn. now rewrite Hn.
Qed.

(** More fuel does not change an answer. *)
Lemma extendLoop_more_fuel (fuel extra : nat) (acts : list Activity.t)
    (k : Z) (pool : string) (chain : NoteChain) (remaining ci n m : Z)
    (r : result (NoteChain * Z)) :
  extendLoop fuel acts k pool chain remaining ci n m = Some r ->
  extendLoop (fuel + extra) acts k pool chain remaining ci n m = Some r.
Proof.
  revert chain remaining ci n m.
  induction fuel as [|fuel IH]; intros chain remaining ci n m; [discriminate|].
  cbn [extendLoop Nat.add].
  destruct (find _ acts) as [w|]; [|trivial].
  destruct (negb _ || negb _); [trivial|].
  destruct (nth_error (markLastSpent chain) 0) as [head|]; [|trivial].
  destruct (_ <=? 0); [trivial|].
  destruct (deriveChangeNullifier _ _ _ _); [|trivial].
  apply IH.
Qed.

Lemma extendChainInPlace_more_fuel (fuel extra : nat) (chain : NoteChain)
    (acts : list Activity.t) (k : Z) (pool : string) (r : result (NoteChain * Z)) :
  extendChainInPlace fuel chain acts k pool = Some r ->
  extendChainInPlace (fuel + extra) chain acts k pool = Some r.
Proof.
  unfold extendChainInPlace.
  destruct (lastOf chain) as [tail|]; [|trivial].
  destruct (amount tail); [|trivial]. cbn [fbind].
  destruct (JS.BigInt _); [|trivial].
  destruct (nth_error chain 0); [|trivial]. cbn [fbind JS.of_option].
  destruct (if changeIndex tail =? 0 then _ else _); [|trivial]. cbn [fbind].
  apply extendLoop_more_fuel.
Qed.

(** With withdrawals of non-negative amounts the loop ends: the remaining
    amount drops by at least one per round. *)
Definition nonneg_amount (activity : Activity.t) : Prop :=
  match Activity.amount activity with
  | Some v => 0 <= v
  | None => True
  end.

Lemma extendLoop_terminates (fuel : nat) (acts : list Activity.t)
    (k : Z) (pool : string) (chain : NoteChain) (remaining ci n m : Z) :
  Forall nonneg_amount acts ->
  Z.max remaining 0 < Z.of_nat fuel ->
  extendLoop fuel acts k pool chain remaining ci n m <> None.
Proof.
  intros Hacts. revert chain remaining ci n m.
  induction fuel as [|fuel IH]; intros chain remaining ci n m Hf; [lia|].
  cbn [extendLoop]. destruct (find _ acts) as [w|] eqn:Hfind; [|discriminate].
  destruct (negb _ || negb _) eqn:Hguard; [discriminate|].
  destruct (nth_error (markLastSpent chain) 0) as [head|]; [|discriminate].
  destruct (Z.leb_spec (remaining - bigint_or (Activity.amount w) 0) 0) as [Hle|Hgt];
    [discriminate|].
  destruct (deriveChangeNullifier _ _ _ _); [|discriminate].
  apply IH.
  apply find_some in Hfind. destruct Hfind as [Hin _].
  rewrite Forall_forall in Hacts. specialize (Hacts w Hin).
  unfold nonneg_amount in Hacts.
  apply orb_false_elim in Hguard. destruct Hguard as [_ Hamt].
  apply negb_false_iff in Hamt. unfold JS.truthy_bigint in Hamt.
  destruct (Activity.amount w) as [v|]; [|discriminate].
  apply negb_true_iff, Z.eqb_neq in Hamt.
  unfold bigint_or in *. destruct (Z.eqb_spec v 0); lia.
Qed.

End ChainExtension.

Section ChainExtensionClaims.

Context `{P : Primitives}.

Lemma snoc2 {A} (init : list A) (x y : A) : init ++ [x; y] = (init ++ [x]) ++ [y].
Proof. now rewrite <- app_assoc. Qed.

Lemma hd_snoc {A} (init : list A) (x y : A) : hd y (init ++ [x]) = hd x init.
Proof. now destruct init. Qed.

(** One matched withdrawal: what the first round of the loop does to a
    chain [init ++ [tail]]. *)
Lemma extendLoop_round (fuel : nat) (init : NoteChain) (tail : Note)
    (acts : list Activity.t) (k : Z) (pool : string) (remaining ci n m : Z)
    (w : Activity.t) (v : Z) :
  find (spends (JS.toString (poseidon1 n))) acts = Some w ->
  JS.truthy_string (Activity.newCommitment w) = true ->
  Activity.amount w = Some v -> v <> 0 ->
  let head := hd (setStatus spent tail) init in
  let extended :=
    init ++ [setStatus spent tail; changeNoteOf head ci (remaining - v) w] in
  extendLoop (S fuel) acts k pool (init ++ [tail]) remaining ci n m
  = if remaining - v <=? 0 then Some (Ok (extended, m + 1))
    else match deriveChangeNullifier (KeyBigInt k) pool (depositIndex head) ci with
         | Throw e => Some (Throw e)
         | Ok n' => extendLoop fuel acts k pool extended (remaining - v) (ci + 1) n' (m + 1)
         end.
Proof.
  intros Hfind Hc Ha Hv head extended. cbn [extendLoop].
  rewrite Hfind, Hc, Ha. cbn [JS.truthy_bigint negb orb].
  assert (Ev : (v =? 0) = false) by now apply Z.eqb_neq.
  rewrite Ev. cbn [negb].
  rewrite markLastSpent_snoc, nth_error_0_snoc.
  unfold bigint_or. rewrite Ev.
  subst extended head. rewrite snoc2. reflexivity.
Qed.

(** No withdrawal of the page spends the tail: nothing changes. *)
Lemma extendChainInPlace_no_match (fuel : nat) (init : NoteChain) (tail : Note)
    (acts : list Activity.t) (k : Z) (pool : string) (a : string) (remaining n : Z) :
  amount tail = Some a ->
  JS.BigInt a = Ok remaining ->
  tailNullifier k pool (hd tail init) tail = Ok n ->
  find (spends (JS.toString (poseidon1 n))) acts = None ->
  extendChainInPlace (S fuel) (init ++ [tail]) acts k pool
  = Some (Ok (init ++ [tail], 0)).
Proof.
  intros Ha Hr Hn Hfind.
  rewrite (extendChainInPlace_unfold _ _ _ _ _ _ _ _ _ Ha Hr Hn).
  cbn [extendLoop]. now rewrite Hfind.
Qed.

(** C4 (amended).  During chain extension on a page, let [w] be the first
    withdrawal activity of the page whose [spentNullifier] equals the
    tail's nullifier hash.  When there is none the chain is returned as
    it is.  When [w] carries a [newCommitment] and a non-zero amount [v],
    the tail is marked spent and a change note is appended with
    [changeIndex = tail.changeIndex + 1], [amount = tail.amount - v],
    status [unspent] iff that amount is positive, [isActivated = true], the
    label of the chain head and the withdrawal's [refundCommitment]; when
    the new amount is positive the extension goes on from the new tail
    within the same page, and it stops otherwise.  With non-negative
    withdrawal amounts the loop ends within [tail.amount + 1] rounds. *)
Theorem chain_extension (fuel : nat) (init : NoteChain) (tail : Note)
    (acts : list Activity.t) (k : Z) (pool : string) (a : string) (remaining n : Z) :
  amount tail = Some a ->
  JS.BigInt a = Ok remaining ->
  0 <= changeIndex tail ->
  tailNullifier k pool (hd tail init) tail = Ok n ->
  let nullifierHash := JS.toString (poseidon1 n) in
  (find (spends nullifierHash) acts = None ->
   extendChainInPlace (S fuel) (init ++ [tail]) acts k pool
   = Some (Ok (init ++ [tail], 0)))
  /\ (forall (w : Activity.t) (v : Z),
        find (spends nullifierHash) acts = Some w ->
        JS.truthy_string (Activity.newCommitment w) = true ->
        Activity.amount w = Some v -> v <> 0 ->
        let head := hd tail init in
        let changeNote := {|
          poolAddress := poolAddress head;
          depositIndex := depositIndex head;
          changeIndex := changeIndex tail + 1;
          noteType := change;
          amount := Some (JS.toString (remaining - v));
          originTransactionHash := Activity.originTransactionHash w;
          destinationTransactionHash :=
            string_or (Activity.destinationTransactionHash w)
              (Activity.originTransactionHash w);
          originChainId := JS.toString (Activity.originChainId w);
          destinationChainId :=
            JS.toString (bigint_or (Activity.destinationChainId w)
                           (Activity.originChainId w));
          blockNumber := JS.toString (Activity.blockNumber w);
          timestamp := JS.toString (Activity.timestamp w);
          status := if remaining - v >? 0 then unspent else spent;
          isActivated := true;
          label := label head;
          refundCommitment := Activity.refundCommitment w |} in
        let extended := init ++ [setStatus spent tail; changeNote] in
        extendChainInPlace (S fuel) (init ++ [tail]) acts k pool
        = if remaining - v >? 0
          then omap_result (bump 1) (extendChainInPlace fuel extended acts k pool)
          else Some (Ok (extended, 1)))
  /\ (Forall nonneg_amount acts ->
      extendChainInPlace (S (Z.to_nat remaining)) (init ++ [tail]) acts k pool
      <> None).
Proof.
  intros Ha Hr Hci Hn nullifierHash.
  assert (Eci : (if changeIndex tail =? 0 then 1 else changeIndex tail + 1)
                = changeIndex tail + 1)
    by (destruct (Z.eqb_spec (changeIndex tail) 0) as [E|E]; [now rewrite E | reflexivity]).
  split; [|split].
  - intros Hfind.
    exact (extendChainInPlace_no_match fuel init tail acts k pool a remaining n
             Ha Hr Hn Hfind).
  - intros w v Hfind Hc Hv Hv0 head changeNote extended.
    rewrite (extendChainInPlace_unfold _ _ _ _ _ _ _ _ _ Ha Hr Hn).
    rewrite (extendLoop_round fuel init tail acts k pool remaining _ n 0 w v
               Hfind Hc Hv Hv0).
    rewrite Eci.
    assert (Enote : changeNoteOf (hd (setStatus spent tail) init)
                      (changeIndex tail + 1) (remaining - v) w = changeNote)
      by (subst changeNote head; destruct init; reflexivity).
    rewrite Enote. fold extended.
    assert (Ehd : depositIndex (hd (setStatus spent tail) init) = depositIndex head)
      by (subst head; destruct init; reflexivity).
    rewrite Ehd.
    destruct (Z.leb_spec (remaining - v) 0) as [Hle|Hgt].
    + assert (E : (remaining - v >? 0) = false)
        by (rewrite Z.gtb_ltb; apply Z.ltb_ge; lia).
      now rewrite E.
    + assert (E : (remaining - v >? 0) = true)
        by (rewrite Z.gtb_ltb; apply Z.ltb_lt; lia).
      rewrite E.
      (* the extension restarted on the new chain reaches the same loop *)
      unfold extendChainInPlace at 1. subst extended. rewrite snoc2.
      rewrite lastOf_snoc.
      change (amount changeNote) with (Some (JS.toString (remaining - v))).
      cbn [fbind]. rewrite BigInt_toString.
      rewrite nth_error_0_snoc, hd_snoc. cbn [fbind JS.of_option].
      change (changeIndex changeNote) with (changeIndex tail + 1).
      assert (E1 : (changeIndex tail + 1 =? 0) = false) by (apply Z.eqb_neq; lia).
      rewrite E1. rewrite Ehd.
      destruct (deriveChangeNullifier (KeyBigInt k) pool (depositIndex head)
                  (changeIndex tail + 1)) as [n'|e]; [|reflexivity].
      cbn [fbind]. rewrite <- snoc2.
      exact (extendLoop_shift 1 fuel acts k pool _ _ _ n' 0).
  - intros Hacts.
    rewrite (extendChainInPlace_unfold _ _ _ _ _ _ _ _ _ Ha Hr Hn).
    apply extendLoop_terminates; [exact Hacts | lia].
Qed.

(** C10.  A change note is appended only when the first withdrawal
    activity of the page whose [spentNullifier] equals the tail's
    nullifier hash carries a [newCommitment] and a non-zero amount; when
    that withdrawal lacks either, [extendChainInPlace] stops in its first
    round, returns the chain unchanged (the tail keeps its status) and
    reports zero withdrawals matched. *)
Theorem extension_needs_commitment_and_amount (fuel : nat) (chain : NoteChain)
    (acts : list Activity.t) (k : Z) (pool : string) :
  (forall (chain' : NoteChain) (matched : Z),
     extendChainInPlace fuel chain acts k pool = Some (Ok (chain', matched)) ->
     chain' <> chain ->
     exists (tail head : Note) (n : Z) (w : Activity.t) (c : string) (v : Z),
       lastOf chain = Some tail
       /\ nth_error chain 0 = Some head
       /\ tailNullifier k pool head tail = Ok n
       /\ find (spends (JS.toString (poseidon1 n))) acts = Some w
       /\ Activity.newCommitment w = Some c
       /\ Activity.amount w = Some v
       /\ v <> 0)
  /\ (forall (tail head : Note) (a : string) (remaining n : Z) (w : Activity.t),
        lastOf chain = Some tail ->
        nth_error chain 0 = Some head ->
        amount tail = Some a ->
        JS.BigInt a = Ok remaining ->
        tailNullifier k pool head tail = Ok n ->
        find (spends (JS.toString (poseidon1 n))) acts = Some w ->
        Activity.newCommitment w = None \/ Activity.amount w = None
        \/ Activity.amount w = Some 0 ->
        extendChainInPlace (S fuel) chain acts k pool = Some (Ok (chain, 0))).
Proof.
  split.
  - intros chain' matched Hrun Hne. unfold extendChainInPlace in Hrun.
    destruct (lastOf chain) as [tail|] eqn:Hlast; [|discriminate].
    destruct (amount tail) as [a|] eqn:Ha;
      [|injection Hrun as <- _; now contradiction Hne].
    cbn [fbind] in Hrun.
    destruct (JS.BigInt a) as [remaining|]; [|discriminate].
    destruct (nth_error chain 0) as [head|] eqn:Hhead; [|discriminate].
    cbn [fbind JS.of_option] in Hrun.
    fold (tailNullifier k pool head tail) in Hrun.
    destruct (tailNullifier k pool head tail) as [n|] eqn:Hn; [|discriminate].
    cbn [fbind] in Hrun.
    destruct fuel as [|fuel]; [discriminate|]. cbn [extendLoop] in Hrun.
    destruct (find _ acts) as [w|] eqn:Hfind;
      [|injection Hrun as <- _; now contradiction Hne].
    destruct (Activity.newCommitment w) as [c|] eqn:Hc;
      [|injection Hrun as <- _; now contradiction Hne].
    destruct (Activity.amount w) as [v|] eqn:Hv.
    + destruct (Z.eqb_spec v 0) as [E|E].
      * subst v. cbn [JS.truthy_bigint Z.eqb negb orb] in Hrun.
        rewrite orb_true_r in Hrun. injection Hrun as <- _. now contradiction Hne.
      * now exists tail, head, n, w, c, v.
    + cbn [JS.truthy_bigint negb] in Hrun. rewrite orb_true_r in Hrun.
      injection Hrun as <- _. now contradiction Hne.
  - intros tail head a remaining n w Hlast Hhead Ha Hr Hn Hfind Hlack.
    unfold extendChainInPlace. rewrite Hlast, Ha. cbn [fbind]. rewrite Hr, Hhead.
    cbn [fbind JS.of_option]. fold (tailNullifier k pool head tail). rewrite Hn.
    cbn [fbind extendLoop]. rewrite Hfind.
    destruct Hlack as [H|[H|H]]; rewrite H; cbn [JS.truthy_string JS.truthy_bigint negb orb];
      try reflexivity; now rewrite ?orb_true_r.
Qed.

End ChainExtensionClaims.

(* ================================================================== *)
(** ** Chain indices stay contiguous                                   *)
(* ================================================================== *)

(** (I1) The change indices of a chain are [0, 1, 2, ...], starting at
    the head. *)
Definition contiguous (chain : NoteChain) : Prop :=
  chain <> [] /\ map changeIndex chain = map Z.of_nat (seq 0 (List.length chain)).

Lemma contiguous_snoc (chain : NoteChain) (x : Note) :
  map changeIndex chain = map Z.of_nat (seq 0 (List.length chain)) ->
  changeIndex x = Z.of_nat (List.length chain) ->
  contiguous (chain ++ [x]).
Proof.
  intros Hc Hx. split; [now destruct chain|].
  rewrite map_app, length_app, seq_app, map_app, Hc. simpl. now rewrite Hx.
Qed.

Lemma contiguous_tail (init : NoteChain) (tail : Note) :
  contiguous (init ++ [tail]) -> changeIndex tail = Z.of_nat (List.length init).
Proof.
  intros [_ H]. rewrite map_app, length_app, seq_app, map_app in H. simpl in H.
  now apply app_inj_tail in H.
Qed.

(** Contiguity, note by note: the note at position [i] has change index
    [i]; so the head has index [0] and the indices increase strictly. *)
Lemma contiguous_nth (chain : NoteChain) (i : nat) (n : Note) :
  contiguous chain -> nth_error chain i = Some n -> changeIndex n = Z.of_nat i.
Proof.
  intros [_ H] Hn.
  pose proof (map_nth_error changeIndex i chain Hn) as E.
  rewrite H in E.
  assert (Hi : (i < List.length chain)%nat)
    by (apply nth_error_Some; congruence).
  rewrite nth_error_map, nth_error_nth' with (d := O) in E
    by (rewrite length_seq; exact Hi).
  rewrite seq_nth in E by exact Hi. simpl in E. congruence.
Qed.

Lemma contiguous_increasing (chain : NoteChain) (i j : nat) (a b : Note) :
  contiguous chain ->
  nth_error chain i = Some a -> nth_error chain j = Some b ->
  (i < j)%nat -> changeIndex a < changeIndex b.
Proof.
  intros Hc Ha Hb Hij.
  rewrite (contiguous_nth chain i a Hc Ha), (contiguous_nth chain j b Hc Hb). lia.
Qed.

Lemma map_changeIndex_updateAt (s : NoteStatus) (i : nat) (chain : NoteChain) :
  map changeIndex (updateAt i (setStatus s) chain) = map changeIndex chain.
Proof.
  revert i. induction chain as [|x r IH]; intros [|i]; simpl; auto.
  now rewrite IH.
Qed.

Lemma contiguous_markLastSpent (chain : NoteChain) :
  contiguous chain -> contiguous (markLastSpent chain).
Proof.
  intros [Hne Hc]. unfold markLastSpent. split.
  - intros E. apply (f_equal (@List.length Note)) in E.
    rewrite updateAt_length in E. destruct chain; [congruence | discriminate].
  - now rewrite map_changeIndex_updateAt, updateAt_length.
Qed.

Section Contiguity.

Context `{P : Primitives}.

Lemma extendLoop_contiguous (fuel : nat) (acts : list Activity.t) (k : Z)
    (pool : string) (chain : NoteChain) (remaining ci n m : Z)
    (chain' : NoteChain) (m' : Z) :
  contiguous chain ->
  ci = Z.of_nat (List.length chain) ->
  extendLoop fuel acts k pool chain remaining ci n m = Some (Ok (chain', m')) ->
  contiguous chain'.
Proof.
  revert chain remaining ci n m.
  induction fuel as [|fuel IH]; intros chain remaining ci n m Hc Hci Hrun;
    [discriminate|].
  cbn [extendLoop] in Hrun.
  destruct (find _ acts) as [w|]; [|now injection Hrun as <- _].
  destruct (negb _ || negb _); [now injection Hrun as <- _|].
  destruct (nth_error (markLastSpent chain) 0) as [head|]; [|discriminate].
  pose proof (contiguous_markLastSpent chain Hc) as [_ Hm].
  assert (Hnext : contiguous
            (markLastSpent chain ++
             [changeNoteOf head ci (remaining - bigint_or (Activity.amount w) 0) w])).
  { apply contiguous_snoc; [exact Hm|].
    unfold markLastSpent. rewrite updateAt_length. exact Hci. }
  destruct (_ <=? 0); [now injection Hrun as <- _|].
  destruct (deriveChangeNullifier _ _ _ _) as [n'|]; [|discriminate].
  apply IH in Hrun; [exact Hrun | exact Hnext |].
  rewrite length_app. unfold markLastSpent. rewrite updateAt_length. simpl. lia.
Qed.

Lemma extendChainInPlace_contiguous (fuel : nat) (chain : NoteChain)
    (acts : list Activity.t) (k : Z) (pool : string) (chain' : NoteChain) (m : Z) :
  contiguous chain ->
  extendChainInPlace fuel chain acts k pool = Some (Ok (chain', m)) ->
  contiguous chain'.
Proof.
  intros Hc Hrun. unfold extendChainInPlace in Hrun.
  destruct (lastOf chain) as [tail|] eqn:Hlast; [|discriminate].
  destruct (lastOf_Some _ _ Hlast) as [init ->].
  destruct (amount tail); [|now injection Hrun as <- _].
  cbn [fbind] in Hrun.
  destruct (JS.BigInt _); [|discriminate].
  destruct (nth_error _ 0); [|discriminate]. cbn [fbind JS.of_option] in Hrun.
  destruct (if changeIndex tail =? 0 then _ else _) as [nullifier|]; [|discriminate].
  cbn [fbind] in Hrun.
  apply extendLoop_contiguous in Hrun; [exact Hrun | exact Hc |].
  pose proof (contiguous_tail _ _ Hc) as Ht.
  rewrite length_app. simpl.
  destruct (Z.eqb_spec (changeIndex tail) 0); lia.
Qed.

Lemma extendLiveDeposits_contiguous (fuel : nat) (snapshot : list LiveDeposit.t)
    (acts : list Activity.t) (k : Z) (pool : string)
    (chains : list NoteChain) (live : list LiveDeposit.t)
    (chains' : list NoteChain) (live' : list LiveDeposit.t) :
  Forall contiguous chains ->
  extendLiveDeposits fuel snapshot acts k pool chains live = Some (Ok (chains', live')) ->
  Forall contiguous chains'.
Proof.
  revert chains live.
  induction snapshot as [|d rest IH]; intros chains live Hc Hrun; simpl in Hrun.
  - now injection Hrun as <- _.
  - destruct (nth_error chains (LiveDeposit.chainIndex d)) as [chain|] eqn:Hchain;
      [|now apply IH in Hrun].
    destruct (extendChainInPlace fuel chain acts k pool) as [[[chain1 m]|]|] eqn:Hext;
      try discriminate.
    cbn [fbind fst snd] in Hrun.
    assert (Hc1 : contiguous chain1).
    { apply (extendChainInPlace_contiguous _ _ _ _ _ _ _ (proj1 (Forall_forall _ _) Hc
               chain (nth_error_In _ _ Hchain)) Hext). }
    assert (Hcs : Forall contiguous
                    (updateAt (LiveDeposit.chainIndex d) (fun _ => chain1) chains))
      by (apply updateAt_Forall; auto).
    destruct (m >? 0); [|now apply IH in Hrun].
    destruct (lastOf chain1); [|discriminate]. cbn [fbind JS.of_option] in Hrun.
    destruct (stillLive _); [|discriminate]. cbn [fbind] in Hrun.
    now apply IH in Hrun.
Qed.

Lemma depositNoteOf_contiguous (d : Activity.t) (i : Z) (pool : string) :
  contiguous [depositNoteOf d i pool].
Proof. split; [discriminate | reflexivity]. Qed.

Lemma buildChainForDepositInPage_contiguous (fuel : nat) (d : Activity.t) (i : Z)
    (after : list Activity.t) (k : Z) (pool : string) (chain : NoteChain) :
  buildChainForDepositInPage fuel d i after k pool = Some (Ok chain) ->
  contiguous chain.
Proof.
  unfold buildChainForDepositInPage. intros Hrun.
  destruct (extendChainInPlace _ _ _ _ _) as [[[c m]|]|] eqn:Hext; try discriminate.
  cbn [fbind fst] in Hrun. injection Hrun as <-.
  exact (extendChainInPlace_contiguous _ _ _ _ _ _ _
           (depositNoteOf_contiguous d i pool) Hext).
Qed.

Lemma scanDeposits_contiguous (fuel : nat) (acts : list Activity.t) (k : Z)
    (pool : string) (s s' : Scan) :
  Forall contiguous (scanNotes s) ->
  scanDeposits fuel acts k pool s = Some (Ok s') ->
  Forall contiguous (scanNotes s').
Proof.
  revert s. induction fuel as [|fuel IH]; intros s Hc Hrun; [discriminate|].
  cbn [scanDeposits] in Hrun.
  destruct (deriveDepositNullifier _ _ _); [|discriminate].
  destruct (deriveDepositSecret _ _ _); [|discriminate]. cbn [fbind] in Hrun.
  destruct (findIndex _ acts) as [pos|]; [|now injection Hrun as <-].
  destruct (nth_error acts pos) as [d|]; [|discriminate].
  cbn [fbind JS.of_option] in Hrun.
  destruct (buildChainForDepositInPage _ _ _ _ _ _) as [[chain|]|] eqn:Hb;
    try discriminate.
  cbn [fbind] in Hrun.
  destruct (lastOf chain); [|discriminate]. cbn [fbind JS.of_option] in Hrun.
  destruct (liveRemaining _); [|discriminate]. cbn [fbind] in Hrun.
  apply IH in Hrun; [exact Hrun|]. cbn [scanNotes].
  apply Forall_app. split; [exact Hc|].
  constructor; [|constructor].
  exact (buildChainForDepositInPage_contiguous _ _ _ _ _ _ _ Hb).
Qed.

Lemma processPage_contiguous (fuel : nat) (acts : list Activity.t) (k : Z)
    (pool : string) (s s' : Scan) :
  Forall contiguous (scanNotes s) ->
  processPage fuel acts k pool s = Some (Ok s') ->
  Forall contiguous (scanNotes s').
Proof.
  intros Hc Hrun. unfold processPage in Hrun.
  destruct (match liveDeposits s with [] => _ | _ => _ end)
    as [[[chains live]|]|] eqn:Hext; try discriminate.
  cbn [fbind fst snd] in Hrun.
  apply scanDeposits_contiguous in Hrun; [exact Hrun|]. cbn [scanNotes].
  destruct (liveDeposits s).
  - now injection Hext as <- _.
  - exact (extendLiveDeposits_contiguous _ _ _ _ _ _ _ _ _ Hc Hext).
Qed.

Definition checkpoints_contiguous (stored : Checkpoints) : Prop :=
  Forall (fun checkpoint => Forall contiguous (fst checkpoint)) stored.

Lemma pagesLoop_contiguous (fuel : nat) (fetch : ActivityFetcher)
    (options : DiscoveryOptions) (k : Z) (pool : string) (s : Scan)
    (cursor : option string) (pages : Z) (stored : Checkpoints)
    (r : DiscoveryResult) (stored' : Checkpoints) :
  Forall contiguous (scanNotes s) ->
  checkpoints_contiguous stored ->
  pagesLoop fuel fetch options k pool s cursor pages stored = Some (Ok (r, stored')) ->
  Forall contiguous (notes r) /\ checkpoints_contiguous stored'.
Proof.
  revert s cursor pages stored.
  induction fuel as [|fuel IH]; intros s cursor pages stored Hc Hs Hrun;
    [discriminate|].
  cbn [pagesLoop] in Hrun.
  destruct (underPageCap _ _); [|injection Hrun as <- <-; now split].
  destruct (fetch _ _ _) as [page|]; [|discriminate]. cbn [fbind] in Hrun.
  destruct (processPage _ _ _ _ _) as [[s1|]|] eqn:Hpage; try discriminate.
  cbn [fbind] in Hrun.
  apply processPage_contiguous in Hpage; [|exact Hc].
  assert (Hs1 : checkpoints_contiguous ((scanNotes s1, endCursor (pageInfo page)) :: stored))
    by (constructor; assumption).
  destruct (hasNextPage _).
  - exact (IH _ _ _ _ Hpage Hs1 Hrun).
  - injection Hrun as <- <-. now split.
Qed.

(** C5.  Started from no cache or from a cache whose chains have
    contiguous change indices, [discoverNotes] returns, after any number
    of pages, chains whose change indices are [0, 1, 2, ...] from the head
    on; the same holds for the chains written at every page's
    checkpoint. *)
Theorem discovery_keeps_chains_contiguous (fuel : nat)
    (cached : option DiscoveryResult) (fetch : ActivityFetcher) (pool : string)
    (k : Z) (options : DiscoveryOptions) (r : DiscoveryResult) (stored : Checkpoints) :
  (forall c, cached = Some c -> Forall contiguous (notes c)) ->
  discoverNotes fuel cached fetch pool k options = Some (Ok (r, stored)) ->
  Forall contiguous (notes r) /\ checkpoints_contiguous stored.
Proof.
  intros Hcache Hrun. unfold discoverNotes in Hrun.
  destruct (initialLiveDeposits _ _); [|discriminate]. cbn [fbind] in Hrun.
  apply pagesLoop_contiguous in Hrun; [exact Hrun | | constructor].
  cbn [scanNotes]. destruct cached as [c|]; [now apply Hcache | constructor].
Qed.

End Contiguity.

(* ================================================================== *)
(** ** Pending deposits                                                *)
(* ================================================================== *)

Section PendingDeposits.

Context `{P : Primitives}.

(** A deposit matched without amount and label starts a chain whose
    only note is pending; the chain stays that way, and out of
    [liveDeposits], when no later withdrawal of the page spends the
    deposit's nullifier. *)
Lemma pending_deposit_alone (fuel : nat) (d : Activity.t) (i : Z)
    (after : list Activity.t) (k : Z) (pool : string) (n : Z) :
  Activity.amount d = None ->
  Activity.label d = None ->
  deriveDepositNullifier (KeyBigInt k) pool i = Ok n ->
  find (spends (JS.toString (poseidon1 n))) after = None ->
  let note := depositNoteOf d i pool in
  buildChainForDepositInPage (S fuel) d i after k pool = Some (Ok [note])
  /\ isActivated note = false
  /\ amount note = Some "0"
  /\ label note = ("Pending Deposit #" ++ JS.toString i)%string
  /\ status note = unspent
  /\ liveRemaining note = Ok None.
Proof.
  intros Ha Hl Hn Hfind note.
  assert (Hamount : amount note = Some "0")
    by (subst note; unfold depositNoteOf; cbn [amount]; now rewrite Ha).
  assert (Hlive : liveRemaining note = Ok None).
  { unfold liveRemaining. rewrite Hamount. reflexivity. }
  repeat split; try assumption.
  - unfold buildChainForDepositInPage. fold note.
    change [note] with ([] ++ [note]).
    now rewrite (extendChainInPlace_no_match fuel [] note after k pool "0" 0 n
                   Hamount eq_refl Hn Hfind).
  - subst note. unfold depositNoteOf. cbn [isActivated]. now rewrite Hl.
  - subst note. unfold depositNoteOf. cbn [label]. now rewrite Hl.
Qed.

(** A later withdrawal of the page that spends the deposit's nullifier
    does extend the pending deposit, whatever the hash functions: the
    test of [extendChainInPlace] for a pending tail looks for a missing
    amount, and the deposit note carries ["0"]. *)
Lemma pending_deposit_spent (fuel : nat) (d : Activity.t) (i : Z)
    (after : list Activity.t) (k : Z) (pool : string) (n : Z)
    (w : Activity.t) (v : Z) :
  Activity.amount d = None ->
  Activity.label d = None ->
  deriveDepositNullifier (KeyBigInt k) pool i = Ok n ->
  find (spends (JS.toString (poseidon1 n))) after = Some w ->
  JS.truthy_string (Activity.newCommitment w) = true ->
  Activity.amount w = Some v -> 0 < v ->
  let note := depositNoteOf d i pool in
  buildChainForDepositInPage (S fuel) d i after k pool
  = Some (Ok [setStatus spent note; changeNoteOf note 1 (0 - v) w])
  /\ amount (changeNoteOf note 1 (0 - v) w) = Some (JS.toString (- v)).
Proof.
  intros Ha Hl Hn Hfind Hc Hv Hpos note.
  assert (Hamount : amount note = Some "0")
    by (subst note; unfold depositNoteOf; cbn [amount]; now rewrite Ha).
  split; [|reflexivity].
  unfold buildChainForDepositInPage. fold note.
  change [note] with ([] ++ [note]).
  rewrite (extendChainInPlace_unfold (S fuel) [] note after k pool "0" 0 n
             Hamount eq_refl Hn).
  assert (Hv0 : v <> 0) by lia.
  rewrite (extendLoop_round fuel [] note after k pool 0 _ n 0 w v Hfind Hc Hv Hv0).
  assert (E : (0 - v <=? 0) = true) by (apply Z.leb_le; lia).
  rewrite E. reflexivity.
Qed.

End PendingDeposits.

(* ================================================================== *)
(** ** Discovery at concrete inputs                                    *)
(* ================================================================== *)

Example two_partial_withdrawals :
  SampleDiscovery.summary (SampleDiscovery.notesOf SampleDiscovery.twoWithdrawals)
  = [[(0, Some "1000000", spent, true, "12345");
      (1, Some "600000", spent, true, "12345");
      (2, Some "0", spent, true, "12345")]].
Proof. vm_compute. reflexivity. Qed.

Example pending_deposit_scenario :
  SampleDiscovery.summary (SampleDiscovery.notesOf SampleDiscovery.pendingAlone)
  = [[(0, Some "0", unspent, false, "Pending Deposit #0")]].
Proof. vm_compute. reflexivity. Qed.

(** C4 as stated fails: the page holds a withdrawal whose
    [spentNullifier] is the nullifier hash of the chain's unspent tail,
    yet the tail is not marked spent and no change note is appended,
    because the withdrawal carries no [newCommitment]. *)
Lemma matched_withdrawal_without_commitment :
  tailNullifier (P := Sample.primitives) SampleNotes.key Sample.pool
    SampleNotes.deposit_note SampleNotes.deposit_note = Ok SampleNotes.nullifier
  /\ Activity.type SampleDiscovery.bareWithdrawal = WITHDRAWAL
  /\ Activity.spentNullifier SampleDiscovery.bareWithdrawal
     = Some (JS.toString (Sample.hash1 SampleNotes.nullifier))
  /\ status SampleNotes.deposit_note = unspent
  /\ extendChainInPlace (P := Sample.primitives) 5 [SampleNotes.deposit_note]
       [SampleDiscovery.bareWithdrawal] SampleNotes.key Sample.pool
     = Some (Ok ([SampleNotes.deposit_note], 0)).
Proof. vm_compute. repeat split. Qed.

Lemma chain_extension_witness :
  extendChainInPlace (P := Sample.primitives) 3 [SampleNotes.deposit_note]
    [SampleDiscovery.withdrawal1; SampleDiscovery.withdrawal2]
    SampleNotes.key Sample.pool
  = omap_result (bump 1)
      (extendChainInPlace (P := Sample.primitives) 2 SampleRuns.afterWithdrawal1
         [SampleDiscovery.withdrawal1; SampleDiscovery.withdrawal2]
         SampleNotes.key Sample.pool)
  /\ SampleDiscovery.summary [SampleRuns.afterWithdrawal1]
     = [[(0, Some "1000000", spent, true, "12345");
         (1, Some "600000", unspent, true, "12345")]].
Proof.
  split; [|vm_compute; reflexivity].
  assert (Hci : 0 <= changeIndex SampleNotes.deposit_note) by (vm_compute; discriminate).
  assert (Hn : tailNullifier (P := Sample.primitives) SampleNotes.key Sample.pool
                 (hd SampleNotes.deposit_note []) SampleNotes.deposit_note
               = Ok SampleNotes.nullifier) by (vm_compute; reflexivity).
  destruct (chain_extension (P := Sample.primitives) 2 [] SampleNotes.deposit_note
              [SampleDiscovery.withdrawal1; SampleDiscovery.withdrawal2]
              SampleNotes.key Sample.pool "1000000" 1000000 SampleNotes.nullifier
              eq_refl eq_refl Hci Hn) as (_ & Hstep & _).
  assert (Hfind : find (spends (JS.toString (poseidon1 (Primitives := Sample.primitives)
                                              SampleNotes.nullifier)))
                    [SampleDiscovery.withdrawal1; SampleDiscovery.withdrawal2]
                  = Some SampleDiscovery.withdrawal1) by (vm_compute; reflexivity).
  assert (Hv : 400000 <> 0) by discriminate.
  exact (Hstep SampleDiscovery.withdrawal1 400000 Hfind eq_refl eq_refl Hv).
Defined.

Lemma extension_needs_commitment_and_amount_witness :
  extendChainInPlace (P := Sample.primitives) 1 [SampleNotes.deposit_note]
    [SampleDiscovery.bareWithdrawal; SampleDiscovery.withdrawal1]
    SampleNotes.key Sample.pool
  = Some (Ok ([SampleNotes.deposit_note], 0))
  /\ Activity.newCommitment SampleDiscovery.bareWithdrawal = None.
Proof.
  split; [|reflexivity].
  assert (Hn : tailNullifier (P := Sample.primitives) SampleNotes.key Sample.pool
                 SampleNotes.deposit_note SampleNotes.deposit_note
               = Ok SampleNotes.nullifier) by (vm_compute; reflexivity).
  assert (Hfind : find (spends (JS.toString (poseidon1 (Primitives := Sample.primitives)
                                              SampleNotes.nullifier)))
                    [SampleDiscovery.bareWithdrawal; SampleDiscovery.withdrawal1]
                  = Some SampleDiscovery.bareWithdrawal) by (vm_compute; reflexivity).
  exact (proj2 (extension_needs_commitment_and_amount (P := Sample.primitives) 0
                  [SampleNotes.deposit_note]
                  [SampleDiscovery.bareWithdrawal; SampleDiscovery.withdrawal1]
                  SampleNotes.key Sample.pool)
           SampleNotes.deposit_note SampleNotes.deposit_note "1000000" 1000000
           SampleNotes.nullifier SampleDiscovery.bareWithdrawal
           eq_refl eq_refl eq_refl eq_refl Hn Hfind (or_introl eq_refl)).
Defined.

Lemma discovery_keeps_chains_contiguous_witness :
  SampleDiscovery.twoWithdrawals = Some (Ok SampleRuns.twoWithdrawalsResult)
  /\ Forall contiguous (notes (fst SampleRuns.twoWithdrawalsResult))
  /\ checkpoints_contiguous (snd SampleRuns.twoWithdrawalsResult)
  /\ map (map changeIndex) (notes (fst SampleRuns.twoWithdrawalsResult)) = [[0; 1; 2]]
  /\ List.length (snd SampleRuns.twoWithdrawalsResult) = 2%nat.
Proof.
  assert (Hrun : discoverNotes (P := Sample.primitives) 20 None
                   (SampleDiscovery.fetcher
                      [[SampleDiscovery.depositActivity; SampleDiscovery.withdrawal1];
                       [SampleDiscovery.withdrawal2]])
                   Sample.pool SampleDiscovery.key SampleDiscovery.noOptions
                 = Some (Ok (fst SampleRuns.twoWithdrawalsResult,
                             snd SampleRuns.twoWithdrawalsResult)))
    by (vm_compute; reflexivity).
  split; [vm_compute; reflexivity|].
  destruct (discovery_keeps_chains_contiguous (P := Sample.primitives) _ _ _ _ _ _ _ _
              (fun c (H : None = Some c) =>
                 False_ind _ (eq_ind None (fun o => match o with
                                                    | None => True
                                                    | Some _ => False
                                                    end) I _ H))
              Hrun) as [H1 H2].
  split; [exact H1|]. split; [exact H2|]. split; vm_compute; reflexivity.
Defined.

(** C6 at a page the indexer can deliver: the deposit matching deposit
    index 0 has neither amount nor label, and a later activity of the
    same page is a withdrawal of 5 spending the deposit's nullifier.
    Discovery does not return a single pending note: the pending
    deposit is marked spent and a change note of amount [-5] follows. *)
Theorem pending_deposit_extended_in_page :
  deposits SampleDiscovery.precommitment0 SampleDiscovery.pendingDeposit = true
  /\ Activity.amount SampleDiscovery.pendingDeposit = None
  /\ Activity.label SampleDiscovery.pendingDeposit = None
  /\ SampleDiscovery.summary (SampleDiscovery.notesOf SampleDiscovery.pendingThenSpent)
     = [[(0, Some "0", spent, false, "Pending Deposit #0");
         (1, Some "-5", spent, true, "Pending Deposit #0")]].
Proof. vm_compute. repeat split. Qed.

(* ================================================================== *)
(** ** The Lean tree and the errors of the proof generator             *)
(* ================================================================== *)

Example lean_imt_ten_leaves :
  let tree := fold_left (fun t x => LeanIMT.insert Z.add x t)
                [1; 2; 3; 4; 5; 6; 7; 8; 9; 10] LeanIMT.empty in
  LeanIMT.depth tree = 4%nat
  /\ LeanIMT.size tree = 10%nat
  /\ LeanIMT.nodes tree
     = [[1; 2; 3; 4; 5; 6; 7; 8; 9; 10]; [3; 7; 11; 15; 19]; [10; 26; 19]; [36; 19]; [55]]
  /\ LeanIMT.generateProof tree 7
     = Ok (LeanIMT.mkProof 55 8 (JS.Num 7) [7; 11; 10; 19])
  /\ LeanIMT.generateProof tree 8
     = Ok (LeanIMT.mkProof 55 9 (JS.Num 2) [10; 36])
  /\ LeanIMT.generateProof (LeanIMT.insert Z.add 5 LeanIMT.empty) 0
     = Ok (LeanIMT.mkProof 5 5 JS.NaN []).
Proof. vm_compute. repeat split. Qed.

Lemma indexOf_None (x : Z) (l : list Z) : indexOf x l = None <-> ~ In x l.
Proof.
  induction l as [|y r IH]; simpl; [tauto|].
  destruct (Z.eqb_spec y x) as [E|E].
  - split; [discriminate | intros H; exfalso; apply H; now left].
  - destruct (indexOf x r); simpl.
    + split; [discriminate|]. intros H. exfalso. apply H. right.
      destruct IH as [_ IH]. destruct (in_dec Z.eq_dec x r) as [Hin|Hin];
        [exact Hin | now specialize (IH Hin)].
    + split; [|reflexivity]. intros _ [H|H]; [congruence | now apply IH].
Qed.

Lemma indexOf_Some_lt (x : Z) (l : list Z) (i : nat) :
  indexOf x l = Some i -> (i < List.length l)%nat.
Proof.
  revert i. induction l as [|y r IH]; intros i; simpl; [discriminate|].
  destruct (y =? x); [intros [= <-]; lia|].
  destruct (indexOf x r) as [j|]; simpl; [|discriminate].
  intros [= <-]. specialize (IH j eq_refl). lia.
Qed.

Section GeneratorErrors.

Context `{P : Primitives} `{G : Groth16}.

(** The prover's tail never raises the two lookup errors. *)
Lemma proveAndVerify_other (files : CircuitFiles) (inputs : JSObject)
    (check : WithdrawalProofData -> World -> bool * World) (w : World) :
  fst (proveAndVerify files inputs check w) <> Throw commitmentNotFound
  /\ fst (proveAndVerify files inputs check w) <> Throw labelNotFound.
Proof.
  unfold proveAndVerify. destruct w as [g events].
  destruct (fullProve _ _ _) as [data|msg]; simpl.
  - destruct (check data _) as [[|] w']; simpl; split; discriminate.
  - split; discriminate.
Qed.

Definition absent (x : Z) (l : list Z) : Prop := ~ In x l.

(** When and how [circuitParams] fails. *)
Lemma circuitParams_errors (args : WithdrawalProofArgs.t) :
  (circuitParams args = Throw commitmentNotFound
   <-> absent (WithdrawalProofArgs.existingCommitmentHash args)
         (WithdrawalProofArgs.stateTreeCommitments args))
  /\ (circuitParams args = Throw labelNotFound
      <-> In (WithdrawalProofArgs.existingCommitmentHash args)
            (WithdrawalProofArgs.stateTreeCommitments args)
          /\ absent (WithdrawalProofArgs.label args)
               (WithdrawalProofArgs.aspTreeLabels args)).
Proof.
  unfold circuitParams, absent.
  pose proof (indexOf_None (WithdrawalProofArgs.existingCommitmentHash args)
                (WithdrawalProofArgs.stateTreeCommitments args)) as Hs.
  pose proof (indexOf_None (WithdrawalProofArgs.label args)
                (WithdrawalProofArgs.aspTreeLabels args)) as Ha.
  destruct (indexOf (WithdrawalProofArgs.existingCommitmentHash args) _) as [i|] eqn:Ei.
  - assert (Hin : In (WithdrawalProofArgs.existingCommitmentHash args)
                    (WithdrawalProofArgs.stateTreeCommitments args)).
    { destruct (in_dec Z.eq_dec (WithdrawalProofArgs.existingCommitmentHash args)
                  (WithdrawalProofArgs.stateTreeCommitments args)) as [H|H];
        [exact H|]. apply Hs in H. discriminate. }
    destruct (indexOf (WithdrawalProofArgs.label args) _) as [j|] eqn:Ej.
    + unfold LeanIMT.generateProof.
      destruct (Nat.ltb i _); simpl; [destruct (Nat.ltb j _); simpl|];
        (split; split; intros H;
         first [ discriminate H
               | exfalso; apply H; exact Hin
               | destruct H as [_ H]; apply Ha in H; discriminate H ]).
    + split; split.
      * discriminate.
      * intros H. now contradiction H.
      * intros _. split; [exact Hin | now apply Ha].
      * reflexivity.
  - split; split.
    + intros _. now apply Hs.
    + reflexivity.
    + discriminate.
    + intros [H _]. exfalso. now apply (proj1 Hs eq_refl).
Qed.

(** Both generators, after their circuit files loaded: the parameters
    are computed, then the prover's tail runs. *)
Lemma errors_after_loading (args : WithdrawalProofArgs.t) (files : CircuitFiles)
    (w1 : World) (inputs : CircuitParams.t -> JSObject)
    (check : WithdrawalProofData -> World -> bool * World) :
  let run := match circuitParams args with
             | Throw e => (Throw e, w1)
             | Ok params => proveAndVerify files (inputs params) check w1
             end in
  (fst run = Throw commitmentNotFound
   <-> absent (WithdrawalProofArgs.existingCommitmentHash args)
         (WithdrawalProofArgs.stateTreeCommitments args))
  /\ (fst run = Throw labelNotFound
      <-> In (WithdrawalProofArgs.existingCommitmentHash args)
            (WithdrawalProofArgs.stateTreeCommitments args)
          /\ absent (WithdrawalProofArgs.label args)
               (WithdrawalProofArgs.aspTreeLabels args))
  /\ (fst run = Throw commitmentNotFound \/ fst run = Throw labelNotFound ->
      snd run = w1).
Proof.
  cbv zeta. destruct (circuitParams_errors args) as [Hc Hl].
  destruct (circuitParams args) as [params|e].
  - pose proof (proveAndVerify_other files (inputs params) check w1) as [H1 H2].
    split; [|split].
    + split; intros H; [now contradiction H1 | apply Hc in H; discriminate].
    + split; intros H; [now contradiction H2 | apply Hl in H; discriminate].
    + intros [H|H]; [now contradiction H1 | now contradiction H2].
  - cbn [fst snd].
    assert (Hthrow : forall c : exn,
               @Throw WithdrawalProofData e = Throw c
               <-> @Throw CircuitParams.t e = Throw c)
      by (intros c; split; intros [= ->]; reflexivity).
    split; [|split].
    + rewrite Hthrow. exact Hc.
    + rewrite Hthrow. exact Hl.
    + reflexivity.
Qed.

(** C7 (amended).  Once the circuit files are loaded,
    [generateWithdrawalProof] raises the commitment-not-found error
    exactly when [existingCommitmentHash] does not occur in
    [stateTreeCommitments], and the label-not-found error exactly when the
    commitment occurs there and [label] does not occur in
    [aspTreeLabels]; in both cases it stops before the prover is called
    (the world is the one left by the loading).  The same holds for
    [generateCrosschainWithdrawalProof] and its own circuit files. *)
Theorem lookup_errors (args : WithdrawalProofArgs.t)
    (xargs : CrosschainWithdrawalProofArgs.t) (w w1 : World) (files : CircuitFiles) :
  (ensureCircuitFiles w = (Ok files, w1) ->
   let run := generateWithdrawalProof args w in
   (fst run = Throw commitmentNotFound
    <-> absent (WithdrawalProofArgs.existingCommitmentHash args)
          (WithdrawalProofArgs.stateTreeCommitments args))
   /\ (fst run = Throw labelNotFound
       <-> In (WithdrawalProofArgs.existingCommitmentHash args)
             (WithdrawalProofArgs.stateTreeCommitments args)
           /\ absent (WithdrawalProofArgs.label args)
                (WithdrawalProofArgs.aspTreeLabels args))
   /\ (fst run = Throw commitmentNotFound \/ fst run = Throw labelNotFound ->
       snd run = w1))
  /\ (ensureCrossChainWithdrawalCircuitFiles w = (Ok files, w1) ->
      let base := CrosschainWithdrawalProofArgs.base xargs in
      let run := generateCrosschainWithdrawalProof xargs w in
      (fst run = Throw commitmentNotFound
       <-> absent (WithdrawalProofArgs.existingCommitmentHash base)
             (WithdrawalProofArgs.stateTreeCommitments base))
      /\ (fst run = Throw labelNotFound
          <-> In (WithdrawalProofArgs.existingCommitmentHash base)
                (WithdrawalProofArgs.stateTreeCommitments base)
              /\ absent (WithdrawalProofArgs.label base)
                   (WithdrawalProofArgs.aspTreeLabels base))
      /\ (fst run = Throw commitmentNotFound \/ fst run = Throw labelNotFound ->
          snd run = w1)).
Proof.
  split; intros Hfiles.
  - unfold generateWithdrawalProof. rewrite Hfiles.
    exact (errors_after_loading args files w1 prepareCircuitInputs
             verifyWithdrawalProof).
  - unfold generateCrosschainWithdrawalProof. rewrite Hfiles.
    exact (errors_after_loading (CrosschainWithdrawalProofArgs.base xargs) files w1
             (fun params =>
                prepareCrossChainWithdrawalCircuitInputs params
                  (CrosschainWithdrawalProofArgs.refundNullifier xargs)
                  (CrosschainWithdrawalProofArgs.refundSecret xargs))
             verifyCrosschainWithdrawalProof).
Qed.

End GeneratorErrors.

(* ================================================================== *)
(** ** The circuit-input record                                        *)
(* ================================================================== *)

Definition is_digit (c : ascii) : bool :=
  let n := nat_of_ascii c in Nat.leb 48 n && Nat.leb n 57.

Fixpoint all_digits (s : string) : bool :=
  match s with
  | EmptyString => true
  | String c r => is_digit c && all_digits r
  end.

Definition digits (s : string) : bool :=
  match s with
  | EmptyString => false
  | _ => all_digits s
  end.

(** A decimal string: digits, after an optional minus sign. *)
Definition is_decimal_string (s : string) : bool :=
  match s with
  | String "-" r => digits r
  | _ => digits s
  end.

Definition decimal_value (v : JSValue) : bool :=
  match v with
  | VString s => is_decimal_string s
  | _ => false
  end.

(** An array of [n] decimal strings. *)
Definition decimal_array (n : nat) (v : JSValue) : bool :=
  match v with
  | VArray l => Nat.eqb (List.length l) n && forallb decimal_value l
  | _ => false
  end.

Lemma dec_digits_all_digits (d : Decimal.uint) :
  all_digits (DecimalString.NilEmpty.string_of_uint d) = true.
Proof. induction d; simpl; auto. Qed.

Lemma toString_decimal (z : Z) : is_decimal_string (JS.toString z) = true.
Proof.
  unfold JS.toString. destruct z as [|p|p]; [reflexivity| |];
    simpl Z.to_int; simpl DecimalString.NilZero.string_of_int;
    pose proof (DecimalPos.Unsigned.to_uint_nonnil p) as Hn;
    rewrite (dec_print_nonnil _ Hn);
    pose proof (dec_digits_all_digits (Pos.to_uint p)) as Hd.
  - destruct (Pos.to_uint p); try congruence; exact Hd.
  - unfold is_decimal_string.
    destruct (Pos.to_uint p); try congruence; exact Hd.
Qed.

Lemma padArray_short (arr : list Z) (n : nat) :
  (List.length arr <= n)%nat ->
  padArray arr n = arr ++ repeat 0 (n - List.length arr)
  /\ List.length (padArray arr n) = n.
Proof.
  intros H. unfold padArray.
  destruct (Nat.leb_spec n (List.length arr)) as [Hle|Hlt].
  - assert (E : (n - List.length arr = 0)%nat) by lia.
    rewrite E. simpl. rewrite app_nil_r. split; [reflexivity | lia].
  - split; [reflexivity|]. rewrite length_app, repeat_length. lia.
Qed.

Lemma siblingStrings_decimal (siblings : list Z) :
  (List.length siblings <= MAX_TREE_DEPTH)%nat ->
  decimal_array MAX_TREE_DEPTH (siblingStrings siblings) = true.
Proof.
  intros H. unfold siblingStrings, decimal_array.
  destruct (padArray_short siblings MAX_TREE_DEPTH H) as [_ Hlen].
  rewrite length_map, Hlen, Nat.eqb_refl. simpl.
  apply forallb_forall. intros v Hv. apply in_map_iff in Hv.
  destruct Hv as (z & <- & _). apply toString_decimal.
Qed.

Section CircuitInputs.

Context `{P : Primitives}.

(** Every level contributes at most one sibling. *)
Lemma proofFrom_length (levels : list (list Z)) (i : nat) :
  (List.length (fst (LeanIMT.proofFrom levels i)) <= List.length levels - 1)%nat.
Proof.
  revert i. induction levels as [|level rest IH]; intros i; [simpl; lia|].
  destruct rest as [|level' rest']; [simpl; lia|].
  change (LeanIMT.proofFrom (level :: level' :: rest') i)
    with (let above := LeanIMT.proofFrom (level' :: rest') (Nat.div2 i) in
          match nth_error level (if Nat.odd i then (i - 1)%nat else S i) with
          | Some sibling => (sibling :: fst above, Nat.odd i :: snd above)
          | None => above
          end).
  cbv zeta. specialize (IH (Nat.div2 i)).
  destruct (nth_error level _); simpl in *; lia.
Qed.

Lemma generateProof_siblings (tree : LeanIMT.t) (i : nat)
    (proof : LeanIMT.LeanIMTMerkleProof) :
  LeanIMT.generateProof tree i = Ok proof ->
  (List.length (LeanIMT.siblings proof) <= LeanIMT.depth tree)%nat.
Proof.
  unfold LeanIMT.generateProof. destruct (Nat.ltb i _); [|discriminate].
  intros [= <-]. simpl. apply proofFrom_length.
Qed.

(** The ten-leaf state tree of the scenario, target at index 7. *)
Lemma ten_leaves_proof (a0 a1 a2 a3 a4 a5 a6 a7 a8 a9 : Z) :
  let tree := buildTree [a0; a1; a2; a3; a4; a5; a6; a7; a8; a9] in
  LeanIMT.depth tree = 4%nat
  /\ exists root s0 s1 s2 s3,
       LeanIMT.generateProof tree 7
       = Ok (LeanIMT.mkProof root a7 (JS.Num 7) [s0; s1; s2; s3]).
Proof.
  split; [reflexivity|]. do 5 eexists. vm_compute. reflexivity.
Qed.

(** The four-label approved-set tree of the scenario, target at index 2. *)
Lemma four_labels_proof (b0 b1 b2 b3 : Z) :
  let tree := buildTree [b0; b1; b2; b3] in
  LeanIMT.depth tree = 2%nat
  /\ exists root s0 s1,
       LeanIMT.generateProof tree 2
       = Ok (LeanIMT.mkProof root b2 (JS.Num 2) [s0; s1]).
Proof.
  split; [reflexivity|]. do 3 eexists. vm_compute. reflexivity.
Qed.

End CircuitInputs.

Definition scalarSignals : list string :=
  ["withdrawnValue"; "stateRoot"; "ASPRoot"; "stateTreeDepth"; "ASPTreeDepth";
   "context"; "label"; "existingValue"; "existingNullifier"; "existingSecret";
   "newNullifier"; "newSecret"]%string.

Lemma scalar_signals_decimal (params : CircuitParams.t) (name : string) :
  In name scalarSignals ->
  exists v, get name (prepareCircuitInputs params) = Some v
            /\ decimal_value v = true.
Proof.
  intros H. repeat (destruct H as [<-|H];
                    [eexists; split; [reflexivity | apply toString_decimal]|]).
  destruct H.
Qed.

Lemma list_of_length_10 (l : list Z) :
  List.length l = 10%nat ->
  exists a0 a1 a2 a3 a4 a5 a6 a7 a8 a9, l = [a0; a1; a2; a3; a4; a5; a6; a7; a8; a9].
Proof.
  intros H. do 10 (destruct l as [|? l]; [discriminate|]).
  destruct l; [|discriminate]. now do 10 eexists.
Qed.

Lemma list_of_length_4 (l : list Z) :
  List.length l = 4%nat -> exists b0 b1 b2 b3, l = [b0; b1; b2; b3].
Proof.
  intros H. do 4 (destruct l as [|? l]; [discriminate|]).
  destruct l; [|discriminate]. now do 4 eexists.
Qed.

(** C8 (amended).  When the Merkle proofs have at most 32 siblings, the
    assembled record's [stateSiblings] and [ASPSiblings] hold exactly 32
    strings, the proof's siblings followed by zeros, and
    [stateTreeDepth] and [ASPTreeDepth] are the decimal strings of the
    depths of the trees built from the supplied leaves.  In the scenario
    with 10 state leaves (target at index 7) and 4 labels (target at index
    2) the record has [stateTreeDepth = "4"], [ASPTreeDepth = "2"], the
    numbers [stateIndex = 7] and [ASPIndex = 2], twelve scalar fields that
    are decimal strings and two arrays of 32 decimal strings. *)
Theorem circuit_inputs_shape `{P : Primitives} (args : WithdrawalProofArgs.t)
    (params : CircuitParams.t) :
  ((List.length (LeanIMT.siblings (CircuitParams.stateProof params)) <= 32)%nat ->
   (List.length (LeanIMT.siblings (CircuitParams.aspProof params)) <= 32)%nat ->
   let record := prepareCircuitInputs params in
   let padded (siblings : list Z) :=
     map (fun s => VString (JS.toString s))
       (siblings ++ repeat 0 (32 - List.length siblings)) in
   get "stateSiblings" record
     = Some (VArray (padded (LeanIMT.siblings (CircuitParams.stateProof params))))
   /\ List.length (padded (LeanIMT.siblings (CircuitParams.stateProof params))) = 32%nat
   /\ get "ASPSiblings" record
     = Some (VArray (padded (LeanIMT.siblings (CircuitParams.aspProof params))))
   /\ List.length (padded (LeanIMT.siblings (CircuitParams.aspProof params))) = 32%nat
   /\ get "stateTreeDepth" record
     = Some (VString (JS.toString (CircuitParams.stateTreeDepth params)))
   /\ get "ASPTreeDepth" record
     = Some (VString (JS.toString (CircuitParams.ASPTreeDepth params))))
  /\ (circuitParams args = Ok params ->
      CircuitParams.stateTreeDepth params
        = Z.of_nat (LeanIMT.depth
                      (buildTree (WithdrawalProofArgs.stateTreeCommitments args)))
      /\ CircuitParams.ASPTreeDepth params
        = Z.of_nat (LeanIMT.depth
                      (buildTree (WithdrawalProofArgs.aspTreeLabels args)))
      /\ (exists i, LeanIMT.generateProof
                      (buildTree (WithdrawalProofArgs.stateTreeCommitments args)) i
                    = Ok (CircuitParams.stateProof params))
      /\ (exists j, LeanIMT.generateProof
                      (buildTree (WithdrawalProofArgs.aspTreeLabels args)) j
                    = Ok (CircuitParams.aspProof params)))
  /\ (List.length (WithdrawalProofArgs.stateTreeCommitments args) = 10%nat ->
      indexOf (WithdrawalProofArgs.existingCommitmentHash args)
        (WithdrawalProofArgs.stateTreeCommitments args) = Some 7%nat ->
      List.length (WithdrawalProofArgs.aspTreeLabels args) = 4%nat ->
      indexOf (WithdrawalProofArgs.label args)
        (WithdrawalProofArgs.aspTreeLabels args) = Some 2%nat ->
      exists scenario : CircuitParams.t,
        circuitParams args = Ok scenario
        /\ let record := prepareCircuitInputs scenario in
           get "stateTreeDepth" record = Some (VString "4")
           /\ get "ASPTreeDepth" record = Some (VString "2")
           /\ get "stateIndex" record = Some (VNumber (JS.Num 7))
           /\ get "ASPIndex" record = Some (VNumber (JS.Num 2))
           /\ (forall name, In name scalarSignals ->
                 exists v, get name record = Some v /\ decimal_value v = true)
           /\ (exists v, get "stateSiblings" record = Some v
                         /\ decimal_array 32 v = true)
           /\ (exists v, get "ASPSiblings" record = Some v
                         /\ decimal_array 32 v = true)).
Proof.
  split; [|split].
  - intros Hs Ha. cbv zeta.
    destruct (padArray_short _ MAX_TREE_DEPTH Hs) as [Es Ls].
    destruct (padArray_short _ MAX_TREE_DEPTH Ha) as [Ea La].
    unfold MAX_TREE_DEPTH in *.
    repeat split.
    + change (get "stateSiblings" (prepareCircuitInputs params))
        with (Some (siblingStrings (LeanIMT.siblings (CircuitParams.stateProof params)))).
      unfold siblingStrings, MAX_TREE_DEPTH. now rewrite Es.
    + now rewrite length_map, <- Es.
    + change (get "ASPSiblings" (prepareCircuitInputs params))
        with (Some (siblingStrings (LeanIMT.siblings (CircuitParams.aspProof params)))).
      unfold siblingStrings, MAX_TREE_DEPTH. now rewrite Ea.
    + now rewrite length_map, <- Ea.
  - intros Hp. unfold circuitParams in Hp.
    destruct (indexOf (WithdrawalProofArgs.existingCommitmentHash args) _) as [i|];
      [|discriminate].
    destruct (indexOf (WithdrawalProofArgs.label args) _) as [j|]; [|discriminate].
    cbn [buildMerkleTrees fst snd] in Hp.
    destruct (LeanIMT.generateProof _ i) as [sp|] eqn:Esp; [|discriminate].
    destruct (LeanIMT.generateProof _ j) as [ap|] eqn:Eap; [|discriminate].
    cbn [bind] in Hp. injection Hp as <-. cbn.
    repeat split; eauto.
  - intros Hlen Hi Hlen' Hj.
    destruct (list_of_length_10 _ Hlen) as (a0 & a1 & a2 & a3 & a4 & a5 & a6 & a7 & a8 & a9 & El).
    destruct (list_of_length_4 _ Hlen') as (b0 & b1 & b2 & b3 & El').
    destruct (ten_leaves_proof a0 a1 a2 a3 a4 a5 a6 a7 a8 a9)
      as (Hd & root & s0 & s1 & s2 & s3 & Hproof).
    destruct (four_labels_proof b0 b1 b2 b3) as (Hd' & root' & t0 & t1 & Hproof').
    unfold circuitParams. rewrite Hi, Hj. cbn [buildMerkleTrees fst snd].
    rewrite El, El', Hproof, Hproof', Hd, Hd'. cbn [bind].
    eexists. split; [reflexivity|]. cbv zeta.
    split; [reflexivity|]. split; [reflexivity|].
    split; [reflexivity|]. split; [reflexivity|].
    split; [apply scalar_signals_decimal|].
    split; eexists; (split; [reflexivity|]);
      apply (siblingStrings_decimal _); simpl; unfold MAX_TREE_DEPTH; lia.
Qed.

(* ================================================================== *)
(** ** The proof generator at concrete inputs                          *)
(* ================================================================== *)

(** C7 as stated fails: the label does not occur in [aspTreeLabels], yet
    the error raised is not the label-not-found one, because the
    commitment is missing too and is looked up first. *)
Lemma label_error_masked :
  indexOf 4 [3] = None
  /\ fst (generateWithdrawalProof (P := Sample.primitives) (G := SampleProofs.groth16)
            SampleProofs.bothAbsent SampleProofs.fresh)
     = Throw commitmentNotFound
  /\ commitmentNotFound <> labelNotFound.
Proof. split; [reflexivity|]. split; [reflexivity | discriminate]. Qed.

Lemma lookup_errors_witness :
  ensureCircuitFiles SampleProofs.fresh = (Ok SampleProofs.files, SampleProofs.loaded)
  /\ generateWithdrawalProof (P := Sample.primitives) (G := SampleProofs.groth16)
       SampleProofs.labelAbsent SampleProofs.fresh
     = (Throw labelNotFound, SampleProofs.loaded)
  /\ fst (generateCrosschainWithdrawalProof (P := Sample.primitives)
            (G := SampleProofs.groth16)
            (CrosschainWithdrawalProofArgs.mk SampleProofs.bothAbsent 16 17)
            SampleProofs.fresh)
     = Throw commitmentNotFound.
Proof.
  assert (Hload : ensureCircuitFiles SampleProofs.fresh
                  = (Ok SampleProofs.files, SampleProofs.loaded)) by reflexivity.
  split; [exact Hload|].
  destruct (lookup_errors (P := Sample.primitives) (G := SampleProofs.groth16)
              SampleProofs.labelAbsent
              (CrosschainWithdrawalProofArgs.mk SampleProofs.bothAbsent 16 17)
              SampleProofs.fresh SampleProofs.loaded SampleProofs.files)
    as [Hsame _].
  destruct (Hsame Hload) as (_ & Hlabel & Hworld).
  assert (Hin : In 1 [1] /\ absent 4 [3]).
  { split; [now left|]. intros [H|[]]. discriminate H. }
  pose proof (proj2 Hlabel Hin) as Hrun.
  split.
  - rewrite (surjective_pairing (generateWithdrawalProof _ _)).
    rewrite (Hworld (or_intror Hrun)), Hrun. reflexivity.
  - destruct (lookup_errors (P := Sample.primitives) (G := SampleProofs.groth16)
                SampleProofs.labelAbsent
                (CrosschainWithdrawalProofArgs.mk SampleProofs.bothAbsent 16 17)
                SampleProofs.fresh
                ({| circuitFiles := None;
                    crosschainCircuitFiles := Some SampleProofs.files;
                    circuitFileLoader := Some (Answer SampleProofs.files);
                    crosschainCircuitFileLoader := Some (Answer SampleProofs.files) |},
                 [Loaded true])
                SampleProofs.files) as [_ Hcross].
    destruct (Hcross eq_refl) as (Hcommit & _ & _).
    apply Hcommit. intros [H|[]]. discriminate H.
Defined.

(** C8 as stated fails at the scenario: [stateIndex] and [ASPIndex] are
    numbers, not decimal strings. *)
Lemma index_fields_are_numbers :
  get "stateIndex" (SampleProofs.recordOf SampleProofs.scenario)
  = Some (VNumber (JS.Num 7))
  /\ get "ASPIndex" (SampleProofs.recordOf SampleProofs.scenario)
     = Some (VNumber (JS.Num 2))
  /\ decimal_value (VNumber (JS.Num 7)) = false
  /\ forallb (fun field => decimal_value (snd field))
       (SampleProofs.recordOf SampleProofs.scenario) = false.
Proof. vm_compute. repeat split. Qed.

Lemma circuit_inputs_shape_witness :
  exists params : CircuitParams.t,
    circuitParams (P := Sample.primitives) SampleProofs.scenario = Ok params
    /\ get "stateTreeDepth" (prepareCircuitInputs params) = Some (VString "4")
    /\ get "ASPTreeDepth" (prepareCircuitInputs params) = Some (VString "2")
    /\ get "stateIndex" (prepareCircuitInputs params) = Some (VNumber (JS.Num 7))
    /\ get "ASPIndex" (prepareCircuitInputs params) = Some (VNumber (JS.Num 2))
    /\ (exists v, get "stateSiblings" (prepareCircuitInputs params) = Some v
                  /\ decimal_array 32 v = true).
Proof.
  destruct (circuit_inputs_shape (P := Sample.primitives) SampleProofs.scenario
              (CircuitParams.mk 0 0 0 0 0 0 0 0
                 (LeanIMT.mkProof 0 0 JS.NaN []) (LeanIMT.mkProof 0 0 JS.NaN [])
                 0 0 JS.NaN JS.NaN)) as (_ & _ & Hscenario).
  destruct (Hscenario eq_refl eq_refl eq_refl eq_refl)
    as (params & Hp & H1 & H2 & H3 & H4 & _ & H5 & _).
  exists params. repeat split; assumption.
Defined.

(* ################################################################## *)
(** * Part IV: further properties                                      *)
(* ################################################################## *)

(* ================================================================== *)
(** ** The spelling of the key and the range of the derived values     *)
(* ================================================================== *)

(** The six derivations of [noteDerivation.ts] at one key, pool, deposit
    index and change index. *)
Definition derivations `{P : Primitives} (userKey : UserKey) (pool : string)
    (di ci : Z) : list (result Z) :=
  [ deriveDepositNullifier userKey pool di;
    deriveDepositSecret userKey pool di;
    deriveChangeNullifier userKey pool di ci;
    deriveChangeSecret userKey pool di ci;
    deriveRefundNullifier userKey pool di ci;
    deriveRefundSecret userKey pool di ci ].

Section KeySpelling.

Context `{P : Primitives}.

(** The derivations read the key through [parseUserKey] only. *)
Lemma derivations_parse (u v : UserKey) (pool : string) (di ci : Z) :
  parseUserKey u = parseUserKey v ->
  derivations u pool di ci = derivations v pool di ci.
Proof.
  intros H. unfold derivations, deriveDepositNullifier, deriveDepositSecret,
    deriveChangeNullifier, deriveChangeSecret, deriveRefundNullifier,
    deriveRefundSecret.
  now rewrite H.
Qed.

Lemma parseUserKey_shift (x m : Z) :
  parseUserKey (KeyBigInt (x + m * F)) = parseUserKey (KeyBigInt x).
Proof. simpl. now rewrite !modF_mod, Z_mod_plus_full. Qed.

Lemma parseUserKey_decimal (x : Z) (w1 w2 : string) :
  all_white w1 = true -> all_white w2 = true ->
  parseUserKey (KeyString (w1 ++ JS.toString x ++ w2)%string)
  = parseUserKey (KeyBigInt x).
Proof.
  intros H1 H2. rewrite parseUserKey_string, trim_white by assumption.
  rewrite trim_no_white by apply toString_no_white.
  now rewrite BigInt_toString.
Qed.

Lemma parseUserKey_hex (x : Z) :
  0 <= x ->
  parseUserKey (KeyString ("0x" ++ JS.toString16 x)%string)
  = parseUserKey (KeyBigInt x).
Proof.
  intros Hx. rewrite parseUserKey_string.
  rewrite trim_no_white by (simpl; apply toString16_no_white).
  now rewrite BigInt_hex.
Qed.

End KeySpelling.

(** X1.  The derivations read the user key through [parseUserKey] only, so
    the spelling of the key does not matter.  A bigint key [x] and the key
    [x + m * F], for any integer [m], give the same six derived values (the
    deposit, change and refund nullifiers and secrets) and the same note
    commitment.  The decimal text of [x] with white space before and after
    it gives the same six values as the bigint [x], and so does the text
    [0x] followed by the hexadecimal digits of [x] when [x] is not
    negative. *)
Theorem derivations_ignore_key_spelling `{P : Primitives} (x m : Z)
    (w1 w2 : string) (pool : string) (di ci : Z) (note : Note) :
  derivations (KeyBigInt (x + m * F)) pool di ci
    = derivations (KeyBigInt x) pool di ci
  /\ derivedNoteCommitment (x + m * F) note = derivedNoteCommitment x note
  /\ (all_white w1 = true -> all_white w2 = true ->
      derivations (KeyString (w1 ++ JS.toString x ++ w2)%string) pool di ci
      = derivations (KeyBigInt x) pool di ci)
  /\ (0 <= x ->
      derivations (KeyString ("0x" ++ JS.toString16 x)%string) pool di ci
      = derivations (KeyBigInt x) pool di ci).
Proof.
  pose proof (fun a d c => derivations_parse _ _ a d c (parseUserKey_shift x m)) as Hs.
  split; [apply Hs|]. split; [|split].
  - unfold derivedNoteCommitment.
    pose proof (Hs (poolAddress note) (depositIndex note) (changeIndex note)) as H.
    unfold derivations in H.
    injection H as H1 H2 H3 H4 _ _.
    now rewrite H1, H2, H3, H4.
  - intros H1 H2. apply derivations_parse. now apply parseUserKey_decimal.
  - intros Hx. apply derivations_parse. now apply parseUserKey_hex.
Qed.

Lemma derivations_ignore_key_spelling_witness :
  all_white " " = true /\ 0 <= 7
  /\ derivations (P := Sample.primitives) (KeyString " 7 ") Sample.pool 0 1
     = derivations (P := Sample.primitives) (KeyBigInt 7) Sample.pool 0 1
  /\ derivations (P := Sample.primitives) (KeyString "0x7") Sample.pool 0 1
     = derivations (P := Sample.primitives) (KeyBigInt 7) Sample.pool 0 1
  /\ derivations (P := Sample.primitives) (KeyBigInt (7 + 2 * F)) Sample.pool 0 1
     = derivations (P := Sample.primitives) (KeyBigInt 7) Sample.pool 0 1.
Proof.
  destruct (derivations_ignore_key_spelling (P := Sample.primitives) 7 2 " " " "
              Sample.pool 0 1 SampleNotes.deposit_note) as (Hshift & _ & Hdec & Hhex).
  split; [reflexivity|]. split; [lia|]. split; [|split].
  - exact (Hdec eq_refl eq_refl).
  - apply Hhex. lia.
  - exact Hshift.
Defined.

Section FieldRange.

Context `{P : Primitives}.

Lemma prf2_range (k ctx dom : Z) : 0 <= prf2 k ctx dom < F.
Proof. apply modF_range. Qed.

Lemma parseUserKey_range (u : UserKey) (k : Z) :
  parseUserKey u = Ok k -> 0 <= k < F.
Proof.
  destruct u as [s|x].
  - rewrite parseUserKey_string. destruct (JS.BigInt _); [|discriminate].
    intros [= <-]. apply modF_range.
  - intros [= <-]. apply modF_range.
Qed.

Lemma fieldFromKeccak_range (bytes : Hex) (v : Z) :
  fieldFromKeccak bytes = Ok v -> 0 <= v < F.
Proof.
  unfold fieldFromKeccak. destruct (hexToBigInt _); [|discriminate].
  intros [= <-]. apply modF_range.
Qed.

End FieldRange.

Ltac derive_range :=
  match goal with
  | H : bind ?r _ = Ok _ |- _ =>
      destruct r; cbn [bind] in H; [derive_range | discriminate H]
  | H : Ok _ = Ok _ |- _ => injection H as <-; apply prf2_range
  end.

(** X2.  Whatever one of the six derivation functions returns, for a key
    given as a string or as a bigint, is a field element: at least 0 and
    below the field order [F]. *)
Theorem derivations_are_field_elements `{P : Primitives} (userKey : UserKey)
    (pool : string) (di ci v : Z) :
  In (Ok v) (derivations userKey pool di ci) -> 0 <= v < F.
Proof.
  unfold derivations, deriveDepositNullifier, deriveDepositSecret,
    deriveChangeNullifier, deriveChangeSecret, deriveRefundNullifier,
    deriveRefundSecret.
  intros H. repeat (destruct H as [H|H]; [derive_range|]). destruct H.
Qed.

Lemma derivations_are_field_elements_witness :
  In (Ok SampleNotes.nullifier)
    (derivations (P := Sample.primitives) (KeyBigInt SampleNotes.key) Sample.pool 0 1)
  /\ 0 <= SampleNotes.nullifier < F.
Proof.
  assert (H : In (Ok SampleNotes.nullifier)
                (derivations (P := Sample.primitives) (KeyBigInt SampleNotes.key)
                   Sample.pool 0 1))
    by (left; vm_compute; reflexivity).
  split; [exact H|].
  exact (derivations_are_field_elements (P := Sample.primitives) _ _ _ _ _ H).
Defined.

(* ------------------------------------------------------------------ *)
(** *** More on trimming                                                *)

Lemma trimStart_snoc_clean (a : string) (c : ascii) :
  JS.is_white_space c = false ->
  JS.trimStart (a ++ String c "")%string = (JS.trimStart a ++ String c "")%string.
Proof.
  intros Hc. induction a as [|x r IH]; simpl.
  - now rewrite Hc.
  - destruct (JS.is_white_space x); [exact IH | reflexivity].
Qed.

(** [trimEnd] leaves a leading code unit that is no white space alone. *)
Lemma trimEnd_cons_clean (c : ascii) (r : string) :
  JS.is_white_space c = false ->
  JS.trimEnd (String c r) = String c (JS.trimEnd r).
Proof.
  intros Hc. unfold JS.trimEnd. simpl JS.rev.
  rewrite trimStart_snoc_clean by exact Hc.
  now rewrite rev_app.
Qed.

Lemma trim_cons_clean (c : ascii) (r : string) :
  JS.is_white_space c = false ->
  JS.trim (String c r) = String c (JS.trimEnd r).
Proof.
  intros Hc. unfold JS.trim. simpl. rewrite Hc. now apply trimEnd_cons_clean.
Qed.

Lemma parse_hex_digits_nonneg (s : string) (v : Z) :
  JS.parse_hex_digits s = Some v -> 0 <= v.
Proof.
  unfold JS.parse_hex_digits. destruct s; [discriminate|].
  destruct (HexadecimalString.NilEmpty.uint_of_string _) as [d|]; [|discriminate].
  intros [= <-]. unfold Z.of_hex_uint. apply N2Z.is_nonneg.
Qed.

(** A text that starts with [0x] reads, if at all, as a hexadecimal
    literal, which carries no sign. *)
Lemma BigInt_0x_nonneg (s : string) (v : Z) :
  JS.startsWith s "0x" = true -> JS.BigInt s = Ok v -> 0 <= v.
Proof.
  unfold JS.startsWith. intros Hp. apply String.prefix_correct in Hp.
  destruct s as [|c0 [|c1 r]]; try discriminate Hp.
  simpl in Hp. assert (E : c0 = "0"%char /\ c1 = "x"%char) by (destruct r; injection Hp; auto).
  destruct E as [-> ->]. clear Hp. unfold JS.BigInt.
  rewrite trim_cons_clean by reflexivity.
  rewrite trimEnd_cons_clean by reflexivity.
  change (JS.StringIntegerLiteral (String "0" (String "x" (JS.trimEnd r))))
    with (JS.parse_hex_digits (JS.trimEnd r)).
  destruct (JS.parse_hex_digits _) as [z|] eqn:E; [|discriminate].
  intros [= <-]. now apply parse_hex_digits_nonneg in E.
Qed.

Section ContextHash.

Context `{P : Primitives}.

Import WithdrawalContextService.

(** X3.  When [keccak256] answers a text that starts with [0x], as viem's
    does, [hashToBigInt] of the withdrawal context service, which reduces
    with the remainder [%], answers what [fieldFromKeccak] of the note
    derivation answers with its reduction that is never negative; and every
    context hash that [calculateContextHash] returns is at least 0 and
    below [SNARK_SCALAR_FIELD]. *)
Theorem context_hash_is_field_reduction :
  (forall bytes : Hex, JS.startsWith (keccak256 bytes) "0x" = true) ->
  (forall data : Hex, hashToBigInt data = fieldFromKeccak data)
  /\ (forall (withdrawalData : string * Hex) (poolScope v : Z),
        calculateContextHash withdrawalData poolScope = Ok v ->
        0 <= v < SNARK_SCALAR_FIELD).
Proof.
  intros H0x.
  assert (Hred : forall data, hashToBigInt data = fieldFromKeccak data).
  { intros data. unfold hashToBigInt, fieldFromKeccak, hexToBigInt.
    destruct (JS.BigInt (keccak256 data)) as [x|e] eqn:E; [|reflexivity].
    simpl. f_equal. apply (BigInt_0x_nonneg _ _ (H0x data)) in E.
    rewrite modF_mod. unfold JS.rem.
    change SNARK_SCALAR_FIELD with F.
    apply Z.rem_mod_nonneg; [exact E | reflexivity]. }
  split; [exact Hred|].
  intros wd scope v. unfold calculateContextHash.
  destruct (encodeAbiParameters _) as [encoded|]; [|discriminate].
  simpl. rewrite Hred. unfold fieldFromKeccak.
  destruct (hexToBigInt _); [|discriminate].
  intros [= <-]. apply modF_range.
Qed.

End ContextHash.

Lemma sample_digest_0x (bytes : Hex) :
  JS.startsWith (keccak256 (Primitives := Sample.primitives) bytes) "0x" = true.
Proof.
  apply String.prefix_correct. cbn.
  now destruct (JS.toString16 (Sample.text_code bytes)).
Qed.

Lemma context_hash_is_field_reduction_witness :
  WithdrawalContextService.hashToBigInt (P := Sample.primitives) "0x00"
  = fieldFromKeccak (P := Sample.primitives) "0x00"
  /\ WithdrawalContextService.calculateContextHash (P := Sample.primitives)
       SampleNotes.withdrawalData 1
     = Ok (WithdrawalContextService.context SampleNotes.base)
  /\ 0 <= WithdrawalContextService.context SampleNotes.base
       < WithdrawalContextService.SNARK_SCALAR_FIELD.
Proof.
  destruct (context_hash_is_field_reduction (P := Sample.primitives)
              sample_digest_0x) as [Hred Hrange].
  split; [apply Hred|].
  assert (E : WithdrawalContextService.calculateContextHash (P := Sample.primitives)
                SampleNotes.withdrawalData 1
              = Ok (WithdrawalContextService.context SampleNotes.base))
    by (vm_compute; reflexivity).
  split; [exact E|]. exact (Hrange _ _ _ E).
Defined.

(* ------------------------------------------------------------------ *)
(** *** A pending deposit cannot be spent                               *)

Lemma starts_clean_app (a b : string) :
  a <> ""%string -> starts_clean (a ++ b)%string = starts_clean a.
Proof. destruct a; [congruence | reflexivity]. Qed.

Lemma toString_nonempty (z : Z) : JS.toString z <> ""%string.
Proof.
  intros E. pose proof (literal_toString z) as H. rewrite E in H.
  injection H as <-. discriminate E.
Qed.

Lemma rev_nonempty (s : string) : s <> ""%string -> JS.rev s <> ""%string.
Proof.
  destruct s as [|c r]; [congruence|]. intros _. simpl.
  destruct (JS.rev r); discriminate.
Qed.

(** The label of a pending deposit is no integer literal. *)
Lemma BigInt_pending_label (i : Z) :
  JS.BigInt ("Pending Deposit #" ++ JS.toString i)%string = Throw SyntaxError.
Proof.
  unfold JS.BigInt.
  assert (E : JS.trim ("Pending Deposit #" ++ JS.toString i)%string
              = ("Pending Deposit #" ++ JS.toString i)%string).
  { unfold JS.trim. rewrite trimStart_clean by reflexivity.
    apply trimEnd_rev_clean. rewrite rev_app.
    rewrite starts_clean_app by apply rev_nonempty, toString_nonempty.
    apply no_white_starts_clean. rewrite no_white_rev. apply toString_no_white. }
  rewrite E. cbn.
  now destruct (DecimalString.NilEmpty.uint_of_string _).
Qed.

Section PendingNotes.

Context `{P : Primitives} `{M : WithdrawalContextService.ModuleSystem}.

Import WithdrawalContextService.

Lemma pending_label (d : Activity.t) (i : Z) (pool : string) :
  JS.truthy_string (Activity.label d) = false ->
  label (depositNoteOf d i pool) = ("Pending Deposit #" ++ JS.toString i)%string.
Proof.
  unfold depositNoteOf, string_or, JS.truthy_string. cbn [label].
  destruct (Activity.label d) as [s|]; [|reflexivity].
  destruct (String.eqb s ""); [reflexivity | discriminate].
Qed.

Lemma bind_not_Ok {A B} (r : result A) (k : A -> result B) :
  (forall a, r = Ok a -> is_Ok (k a) = false) -> is_Ok (bind r k) = false.
Proof. destruct r; simpl; auto. Qed.

Lemma derivedNoteCommitment_label (k : Z) (note : Note) :
  is_Ok (JS.BigInt (label note)) = false ->
  is_Ok (derivedNoteCommitment k note) = false.
Proof.
  intros Hl. unfold derivedNoteCommitment.
  apply bind_not_Ok. intros ns _.
  apply bind_not_Ok. intros a _.
  destruct (JS.BigInt (label note)); [discriminate | reflexivity].
Qed.

(** X4.  A deposit that discovery found before its activation, that is a
    deposit activity with no label or an empty one, gives a note whose
    label is the text [Pending Deposit #i], which is no number.  For that
    note neither [derivedNoteCommitment] nor [calculateWithdrawalContext]
    nor [calculateCrosschainWithdrawalContext] returns a value, whatever
    the key; and when the deposit nullifier and secret can be derived,
    [derivedNoteCommitment] throws a [SyntaxError]. *)
Theorem pending_deposit_cannot_be_spent (d : Activity.t) (i k : Z)
    (pool : string) (withdrawalData : string * Hex) (poolScope : Z) :
  JS.truthy_string (Activity.label d) = false ->
  let note := depositNoteOf d i pool in
  is_Ok (derivedNoteCommitment k note) = false
  /\ is_Ok (calculateWithdrawalContext note k withdrawalData poolScope) = false
  /\ is_Ok (calculateCrosschainWithdrawalContext note k withdrawalData poolScope)
     = false
  /\ (forall n s : Z,
        deriveDepositNullifier (KeyBigInt k) pool i = Ok n ->
        deriveDepositSecret (KeyBigInt k) pool i = Ok s ->
        derivedNoteCommitment k note = Throw SyntaxError).
Proof.
  intros Hl note.
  assert (Hlabel : JS.BigInt (label note) = Throw SyntaxError)
    by (subst note; rewrite (pending_label d i pool Hl); apply BigInt_pending_label).
  assert (Hc : is_Ok (derivedNoteCommitment k note) = false)
    by (apply derivedNoteCommitment_label; now rewrite Hlabel).
  assert (Hw : is_Ok (calculateWithdrawalContext note k withdrawalData poolScope)
               = false).
  { unfold calculateWithdrawalContext. apply bind_not_Ok. intros c _.
    destruct (derivedNoteCommitment k note); [discriminate | reflexivity]. }
  split; [exact Hc|]. split; [exact Hw|]. split.
  - unfold calculateCrosschainWithdrawalContext.
    destruct (calculateWithdrawalContext note k withdrawalData poolScope);
      [discriminate | reflexivity].
  - intros n s Hn Hs. unfold derivedNoteCommitment.
    subst note. cbn [depositNoteOf changeIndex poolAddress depositIndex Z.eqb].
    rewrite Hn, Hs. cbn [bind fst snd].
    fold (depositNoteOf d i pool). rewrite Hlabel.
    unfold depositNoteOf at 1. cbn [amount].
    destruct (JS.truthy_bigint _); cbn [JS.BigInt_opt];
      [rewrite BigInt_toString|]; reflexivity.
Qed.

End PendingNotes.

Lemma pending_deposit_cannot_be_spent_witness :
  JS.truthy_string (Activity.label SampleDiscovery.pendingDeposit) = false
  /\ derivedNoteCommitment (P := Sample.primitives) SampleNotes.key
       (depositNoteOf SampleDiscovery.pendingDeposit 0 Sample.pool)
     = Throw SyntaxError
  /\ is_Ok (WithdrawalContextService.calculateWithdrawalContext
              (P := Sample.primitives)
              (depositNoteOf SampleDiscovery.pendingDeposit 0 Sample.pool)
              SampleNotes.key SampleNotes.withdrawalData 1) = false.
Proof.
  destruct (pending_deposit_cannot_be_spent (P := Sample.primitives)
              (M := SampleModules.esm)
              SampleDiscovery.pendingDeposit 0 SampleNotes.key Sample.pool
              SampleNotes.withdrawalData 1 eq_refl) as (_ & Hw & _ & Hs).
  split; [reflexivity|]. split; [|exact Hw].
  apply (Hs SampleNotes.nullifier SampleNotes.secret); vm_compute; reflexivity.
Defined.

(* ------------------------------------------------------------------ *)
(** *** The withdrawal context and chain extension agree                *)

Section ContextAndDiscovery.

Context `{P : Primitives}.

Import WithdrawalContextService.

(** What a withdrawal context that was computed consists of. *)
Lemma calculateWithdrawalContext_parts (note : Note) (k : Z)
    (withdrawalData : string * Hex) (poolScope : Z) (ctx : WithdrawalContext) :
  calculateWithdrawalContext note k withdrawalData poolScope = Ok ctx ->
  derivedNoteCommitment k note = Ok (existingCommitment ctx)
  /\ deriveChangeNullifier (KeyBigInt k) (poolAddress note) (depositIndex note)
       (changeIndex note + 1) = Ok (newNullifier ctx)
  /\ deriveChangeSecret (KeyBigInt k) (poolAddress note) (depositIndex note)
       (changeIndex note + 1) = Ok (newSecret ctx)
  /\ tailNullifier k (poolAddress note) note note = Ok (existingNullifier ctx).
Proof.
  unfold calculateWithdrawalContext, tailNullifier. intros H.
  destruct (calculateContextHash _ _) as [c|]; [|discriminate]. cbn [bind] in H.
  destruct (derivedNoteCommitment k note) as [ec|]; [|discriminate].
  cbn [bind] in H.
  destruct (deriveChangeNullifier _ _ _ (changeIndex note + 1)) as [nn|];
    [|discriminate]. cbn [bind] in H.
  destruct (deriveChangeSecret _ _ _ (changeIndex note + 1)) as [ns|];
    [|discriminate]. cbn [bind] in H.
  destruct (changeIndex note =? 0).
  - destruct (deriveDepositNullifier _ _ _) as [n|]; [|discriminate].
    cbn [bind] in H. destruct (deriveDepositSecret _ _ _) as [s|]; [|discriminate].
    cbn [bind] in H. injection H as <-. now repeat split.
  - destruct (deriveChangeNullifier _ _ _ (changeIndex note)) as [n|];
      [|discriminate].
    cbn [bind] in H.
    destruct (deriveChangeSecret _ _ _ (changeIndex note)) as [s|]; [|discriminate].
    cbn [bind] in H. injection H as <-. now repeat split.
Qed.

Lemma derivedNoteCommitment_reads_label (k : Z) (note : Note) (c : Z) :
  derivedNoteCommitment k note = Ok c -> exists l, JS.BigInt (label note) = Ok l.
Proof.
  unfold derivedNoteCommitment. intros H.
  destruct (if changeIndex note =? 0 then _ else _); [|discriminate].
  cbn [bind] in H. destruct (JS.BigInt_opt _); [|discriminate]. cbn [bind] in H.
  destruct (JS.BigInt (label note)) as [l|]; [|discriminate]. now exists l.
Qed.

(** X5.  The withdrawal context and note discovery agree.  When
    [calculateWithdrawalContext] returns a context for a note of a chain
    (the note has the pool address, deposit index and label of the chain's
    head, and its change index is not negative), the context's
    [existingNullifier] is the nullifier whose hash chain extension looks
    for at that note; the context's [newNullifier] is the nullifier that
    chain extension looks for at the change note it appends next; and the
    commitment of that change note is the Poseidon hash of its remaining
    amount, the label and the precommitment of the context's [newNullifier]
    and [newSecret]. *)
Theorem context_nullifiers_drive_discovery (note head : Note) (k : Z)
    (withdrawalData : string * Hex) (poolScope : Z) (ctx : WithdrawalContext) :
  calculateWithdrawalContext note k withdrawalData poolScope = Ok ctx ->
  poolAddress head = poolAddress note ->
  depositIndex head = depositIndex note ->
  label head = label note ->
  0 <= changeIndex note ->
  tailNullifier k (poolAddress note) head note = Ok (existingNullifier ctx)
  /\ forall (remaining : Z) (w : Activity.t),
       let changeNote := changeNoteOf head (changeIndex note + 1) remaining w in
       tailNullifier k (poolAddress note) head changeNote = Ok (newNullifier ctx)
       /\ exists l : Z,
            JS.BigInt (label note) = Ok l
            /\ derivedNoteCommitment k changeNote
               = Ok (poseidon3 remaining l
                       (poseidon2 (newNullifier ctx) (newSecret ctx))).
Proof.
  intros Hctx Hpool Hdi Hlabel Hci.
  destruct (calculateWithdrawalContext_parts _ _ _ _ _ Hctx)
    as (Hc & Hnn & Hns & Hen).
  assert (E1 : (changeIndex note + 1 =? 0) = false) by (apply Z.eqb_neq; lia).
  split.
  - unfold tailNullifier in *. now rewrite Hdi.
  - intros remaining w changeNote. split.
    + unfold tailNullifier. subst changeNote. cbn [changeNoteOf changeIndex].
      now rewrite E1, Hdi.
    + destruct (derivedNoteCommitment_reads_label _ _ _ Hc) as [l Hl].
      exists l. split; [exact Hl|].
      unfold derivedNoteCommitment. subst changeNote.
      cbn [changeNoteOf changeIndex poolAddress depositIndex amount label].
      rewrite E1, Hpool, Hdi, Hnn, Hns. cbn [bind fst snd JS.BigInt_opt].
      now rewrite BigInt_toString, Hlabel, Hl.
Qed.

End ContextAndDiscovery.

Lemma context_nullifiers_drive_discovery_witness :
  tailNullifier (P := Sample.primitives) SampleNotes.key Sample.pool
    SampleNotes.deposit_note SampleNotes.deposit_note
  = Ok (WithdrawalContextService.existingNullifier SampleNotes.base)
  /\ tailNullifier (P := Sample.primitives) SampleNotes.key Sample.pool
       SampleNotes.deposit_note
       (changeNoteOf SampleNotes.deposit_note 1 600000 SampleDiscovery.withdrawal1)
     = Ok (WithdrawalContextService.newNullifier SampleNotes.base)
  /\ WithdrawalContextService.newNullifier SampleNotes.base
     = SampleDiscovery.changeNullifier1.
Proof.
  assert (Hci : 0 <= changeIndex SampleNotes.deposit_note)
    by (vm_compute; discriminate).
  assert (Hctx : WithdrawalContextService.calculateWithdrawalContext
                   (P := Sample.primitives) SampleNotes.deposit_note
                   SampleNotes.key SampleNotes.withdrawalData 1
                 = Ok SampleNotes.base) by (vm_compute; reflexivity).
  destruct (context_nullifiers_drive_discovery (P := Sample.primitives)
              SampleNotes.deposit_note SampleNotes.deposit_note SampleNotes.key
              SampleNotes.withdrawalData 1 SampleNotes.base
              Hctx eq_refl eq_refl eq_refl Hci) as [He Hnext].
  split; [exact He|]. split.
  - exact (proj1 (Hnext 600000 SampleDiscovery.withdrawal1)).
  - vm_compute. reflexivity.
Defined.

(* ================================================================== *)
(** ** What chain extension appends                                    *)
(* ================================================================== *)

(** A note appended by chain extension: an activated change note. *)
Definition appended_note (n : Note) : Prop :=
  noteType n = change /\ isActivated n = true.

(** [chain'] is [chain] with its tail marked spent and [added] appended,
    every appended note but the last being spent too. *)
Definition extended_by (chain chain' : NoteChain) (added : list Note) : Prop :=
  chain' = markLastSpent chain ++ added
  /\ added <> []
  /\ Forall appended_note added
  /\ Forall (fun n => status n = spent) (removelast added).

Lemma markLastSpent_nonempty (chain : NoteChain) :
  chain <> [] -> markLastSpent chain <> [].
Proof.
  intros H E. apply (f_equal (@List.length Note)) in E.
  unfold markLastSpent in E. rewrite updateAt_length in E.
  destruct chain; [congruence | discriminate].
Qed.

Lemma removelast_cons {A} (x : A) (l : list A) :
  l <> [] -> removelast (x :: l) = x :: removelast l.
Proof. destruct l; [congruence | reflexivity]. Qed.

Section Appending.

Context `{P : Primitives}.

Lemma extendLoop_appends (fuel : nat) (acts : list Activity.t) (k : Z)
    (pool : string) (chain : NoteChain) (remaining ci n m : Z)
    (chain' : NoteChain) (m' : Z) :
  chain <> [] ->
  extendLoop fuel acts k pool chain remaining ci n m = Some (Ok (chain', m')) ->
  (chain' = chain /\ m' = m)
  \/ exists added, extended_by chain chain' added
                   /\ m' = m + Z.of_nat (List.length added).
Proof.
  revert chain remaining ci n m.
  induction fuel as [|fuel IH]; intros chain remaining ci n m Hne Hrun;
    [discriminate|].
  cbn [extendLoop] in Hrun.
  destruct (find _ acts) as [w|]; [|injection Hrun as <- <-; now left].
  destruct (negb _ || negb _); [injection Hrun as <- <-; now left|].
  destruct (nth_error (markLastSpent chain) 0) as [head|]; [|discriminate].
  set (c := changeNoteOf head ci (remaining - bigint_or (Activity.amount w) 0) w)
    in Hrun.
  assert (Hc : appended_note c) by (split; reflexivity).
  right.
  destruct (_ <=? 0).
  - injection Hrun as <- <-. exists [c].
    split; [|simpl; lia]. repeat split; auto. discriminate.
  - destruct (deriveChangeNullifier _ _ _ _) as [n'|]; [|discriminate].
    apply IH in Hrun; [|now destruct (markLastSpent chain)].
    destruct Hrun as [[-> ->]|(added & (-> & Hadd & Hall & Hsp) & ->)].
    + exists [c]. split; [|simpl; lia]. repeat split; auto. discriminate.
    + exists (setStatus spent c :: added). split.
      * repeat split.
        -- rewrite markLastSpent_snoc, <- app_assoc. reflexivity.
        -- discriminate.
        -- constructor; [split; reflexivity | exact Hall].
        -- rewrite removelast_cons by exact Hadd. constructor; [reflexivity | exact Hsp].
      * simpl List.length. lia.
Qed.

End Appending.

(** X6.  The count [extendChainInPlace] returns is the number of notes it
    appended.  When the count is 0 the chain is returned as it was;
    otherwise the returned chain is the old chain with its last note marked
    spent, followed by as many notes as the count says, each of them an
    activated change note and each but the last one spent. *)
Theorem extension_count_is_notes_appended `{P : Primitives} (fuel : nat)
    (chain : NoteChain) (acts : list Activity.t) (k : Z) (pool : string)
    (chain' : NoteChain) (matched : Z) :
  extendChainInPlace fuel chain acts k pool = Some (Ok (chain', matched)) ->
  (matched = 0 /\ chain' = chain)
  \/ (exists added, extended_by chain chain' added
                    /\ matched = Z.of_nat (List.length added)).
Proof.
  unfold extendChainInPlace. intros Hrun.
  destruct (lastOf chain) as [tail|] eqn:Hlast; [|discriminate].
  assert (Hne : chain <> []) by (intros ->; discriminate).
  destruct (amount tail); [|injection Hrun as <- <-; now left].
  cbn [fbind] in Hrun. destruct (JS.BigInt _); [|discriminate].
  destruct (nth_error chain 0); [|discriminate]. cbn [fbind JS.of_option] in Hrun.
  destruct (if Note.changeIndex tail =? 0 then _ else _); [|discriminate].
  cbn [fbind] in Hrun.
  apply extendLoop_appends in Hrun; [|exact Hne].
  destruct Hrun as [[-> ->]|(added & H & ->)]; [now left|].
  right. now exists added.
Qed.

Lemma extension_count_is_notes_appended_witness :
  exists added,
    extended_by [SampleNotes.deposit_note]
      [setStatus spent SampleNotes.deposit_note;
       changeNoteOf SampleNotes.deposit_note 1 600000 SampleDiscovery.withdrawal1]
      added
    /\ List.length added = 1%nat.
Proof.
  destruct (extension_count_is_notes_appended (P := Sample.primitives) 3
              [SampleNotes.deposit_note] [SampleDiscovery.withdrawal1]
              SampleNotes.key Sample.pool
              [setStatus spent SampleNotes.deposit_note;
               changeNoteOf SampleNotes.deposit_note 1 600000
                 SampleDiscovery.withdrawal1] 1)
    as [[H _]|(added & H & Hlen)].
  - vm_compute. reflexivity.
  - discriminate H.
  - exists added. split; [exact H|]. lia.
Defined.

(* ================================================================== *)
(** ** Properties of chains that discovery keeps                       *)
(* ================================================================== *)

(** Every chain written at a checkpoint satisfies [Q]. *)
Definition checkpoints_all (Q : NoteChain -> Prop) (stored : Checkpoints) : Prop :=
  Forall (fun checkpoint => Forall Q (fst checkpoint)) stored.

Section ChainInvariant.

Context `{P : Primitives}.

(** A property of chains that holds of a fresh deposit note and survives
    one round of chain extension. *)
Variable Q : NoteChain -> Prop.

Hypothesis Q_deposit :
  forall (d : Activity.t) (i : Z) (pool : string), Q [depositNoteOf d i pool].

Hypothesis Q_round :
  forall (chain : NoteChain) (head : Note) (ci remaining : Z) (w : Activity.t),
    Q chain -> nth_error (markLastSpent chain) 0 = Some head ->
    Q (markLastSpent chain ++ [changeNoteOf head ci remaining w]).

Lemma extendLoop_keeps (fuel : nat) (acts : list Activity.t) (k : Z)
    (pool : string) (chain : NoteChain) (remaining ci n m : Z)
    (chain' : NoteChain) (m' : Z) :
  Q chain ->
  extendLoop fuel acts k pool chain remaining ci n m = Some (Ok (chain', m')) ->
  Q chain'.
Proof.
  revert chain remaining ci n m.
  induction fuel as [|fuel IH]; intros chain remaining ci n m Hq Hrun;
    [discriminate|].
  cbn [extendLoop] in Hrun.
  destruct (find _ acts) as [w|]; [|now injection Hrun as <- _].
  destruct (negb _ || negb _); [now injection Hrun as <- _|].
  destruct (nth_error (markLastSpent chain) 0) as [head|] eqn:Hhead; [|discriminate].
  pose proof (Q_round chain head ci
                (remaining - bigint_or (Activity.amount w) 0) w Hq Hhead) as Hnext.
  destruct (_ <=? 0); [now injection Hrun as <- _|].
  destruct (deriveChangeNullifier _ _ _ _) as [n'|]; [|discriminate].
  exact (IH _ _ _ _ _ Hnext Hrun).
Qed.

Lemma extendChainInPlace_keeps (fuel : nat) (chain : NoteChain)
    (acts : list Activity.t) (k : Z) (pool : string) (chain' : NoteChain) (m : Z) :
  Q chain ->
  extendChainInPlace fuel chain acts k pool = Some (Ok (chain', m)) ->
  Q chain'.
Proof.
  intros Hq Hrun. unfold extendChainInPlace in Hrun.
  destruct (lastOf chain) as [tail|]; [|discriminate].
  destruct (amount tail); [|now injection Hrun as <- _].
  cbn [fbind] in Hrun.
  destruct (JS.BigInt _); [|discriminate].
  destruct (nth_error _ 0); [|discriminate]. cbn [fbind JS.of_option] in Hrun.
  destruct (if Note.changeIndex tail =? 0 then _ else _); [|discriminate].
  cbn [fbind] in Hrun.
  exact (extendLoop_keeps _ _ _ _ _ _ _ _ _ _ _ Hq Hrun).
Qed.

Lemma extendLiveDeposits_keeps (fuel : nat) (snapshot : list LiveDeposit.t)
    (acts : list Activity.t) (k : Z) (pool : string)
    (chains : list NoteChain) (live : list LiveDeposit.t)
    (chains' : list NoteChain) (live' : list LiveDeposit.t) :
  Forall Q chains ->
  extendLiveDeposits fuel snapshot acts k pool chains live = Some (Ok (chains', live')) ->
  Forall Q chains'.
Proof.
  revert chains live.
  induction snapshot as [|d rest IH]; intros chains live Hq Hrun; simpl in Hrun.
  - now injection Hrun as <- _.
  - destruct (nth_error chains (LiveDeposit.chainIndex d)) as [chain|] eqn:Hchain;
      [|now apply IH in Hrun].
    destruct (extendChainInPlace fuel chain acts k pool) as [[[chain1 m]|]|] eqn:Hext;
      try discriminate.
    cbn [fbind fst snd] in Hrun.
    assert (Hq1 : Q chain1).
    { apply (extendChainInPlace_keeps _ _ _ _ _ _ _
               (proj1 (Forall_forall _ _) Hq chain (nth_error_In _ _ Hchain)) Hext). }
    assert (Hqs : Forall Q (updateAt (LiveDeposit.chainIndex d) (fun _ => chain1) chains))
      by (apply updateAt_Forall; auto).
    destruct (m >? 0); [|now apply IH in Hrun].
    destruct (lastOf chain1); [|discriminate]. cbn [fbind JS.of_option] in Hrun.
    destruct (stillLive _); [|discriminate]. cbn [fbind] in Hrun.
    now apply IH in Hrun.
Qed.

Lemma buildChainForDepositInPage_keeps (fuel : nat) (d : Activity.t) (i : Z)
    (after : list Activity.t) (k : Z) (pool : string) (chain : NoteChain) :
  buildChainForDepositInPage fuel d i after k pool = Some (Ok chain) -> Q chain.
Proof.
  unfold buildChainForDepositInPage. intros Hrun.
  destruct (extendChainInPlace _ _ _ _ _) as [[[c m]|]|] eqn:Hext; try discriminate.
  cbn [fbind fst] in Hrun. injection Hrun as <-.
  exact (extendChainInPlace_keeps _ _ _ _ _ _ _ (Q_deposit d i pool) Hext).
Qed.

Lemma scanDeposits_keeps (fuel : nat) (acts : list Activity.t) (k : Z)
    (pool : string) (s s' : Scan) :
  Forall Q (scanNotes s) ->
  scanDeposits fuel acts k pool s = Some (Ok s') ->
  Forall Q (scanNotes s').
Proof.
  revert s. induction fuel as [|fuel IH]; intros s Hq Hrun; [discriminate|].
  cbn [scanDeposits] in Hrun.
  destruct (deriveDepositNullifier _ _ _); [|discriminate].
  destruct (deriveDepositSecret _ _ _); [|discriminate]. cbn [fbind] in Hrun.
  destruct (findIndex _ acts) as [pos|]; [|now injection Hrun as <-].
  destruct (nth_error acts pos) as [d|]; [|discriminate].
  cbn [fbind JS.of_option] in Hrun.
  destruct (buildChainForDepositInPage _ _ _ _ _ _) as [[chain|]|] eqn:Hb;
    try discriminate.
  cbn [fbind] in Hrun.
  destruct (lastOf chain); [|discriminate]. cbn [fbind JS.of_option] in Hrun.
  destruct (liveRemaining _); [|discriminate]. cbn [fbind] in Hrun.
  apply IH in Hrun; [exact Hrun|]. cbn [scanNotes].
  apply Forall_app. split; [exact Hq|].
  constructor; [|constructor].
  exact (buildChainForDepositInPage_keeps _ _ _ _ _ _ _ Hb).
Qed.

Lemma processPage_keeps (fuel : nat) (acts : list Activity.t) (k : Z)
    (pool : string) (s s' : Scan) :
  Forall Q (scanNotes s) ->
  processPage fuel acts k pool s = Some (Ok s') ->
  Forall Q (scanNotes s').
Proof.
  intros Hq Hrun. unfold processPage in Hrun.
  destruct (match liveDeposits s with [] => _ | _ => _ end)
    as [[[chains live]|]|] eqn:Hext; try discriminate.
  cbn [fbind fst snd] in Hrun.
  apply scanDeposits_keeps in Hrun; [exact Hrun|]. cbn [scanNotes].
  destruct (liveDeposits s).
  - now injection Hext as <- _.
  - exact (extendLiveDeposits_keeps _ _ _ _ _ _ _ _ _ Hq Hext).
Qed.

Lemma pagesLoop_keeps (fuel : nat) (fetch : ActivityFetcher)
    (options : DiscoveryOptions) (k : Z) (pool : string) (s : Scan)
    (cursor : option string) (pages : Z) (stored : Checkpoints)
    (r : DiscoveryResult) (stored' : Checkpoints) :
  Forall Q (scanNotes s) ->
  checkpoints_all Q stored ->
  pagesLoop fuel fetch options k pool s cursor pages stored = Some (Ok (r, stored')) ->
  Forall Q (notes r) /\ checkpoints_all Q stored'.
Proof.
  revert s cursor pages stored.
  induction fuel as [|fuel IH]; intros s cursor pages stored Hq Hs Hrun;
    [discriminate|].
  cbn [pagesLoop] in Hrun.
  destruct (underPageCap _ _); [|injection Hrun as <- <-; now split].
  destruct (fetch _ _ _) as [page|]; [|discriminate]. cbn [fbind] in Hrun.
  destruct (processPage _ _ _ _ _) as [[s1|]|] eqn:Hpage; try discriminate.
  cbn [fbind] in Hrun.
  apply processPage_keeps in Hpage; [|exact Hq].
  assert (Hs1 : checkpoints_all Q ((scanNotes s1, endCursor (pageInfo page)) :: stored))
    by (constructor; assumption).
  destruct (hasNextPage _).
  - exact (IH _ _ _ _ Hpage Hs1 Hrun).
  - injection Hrun as <- <-. now split.
Qed.

Lemma discoverNotes_keeps (fuel : nat) (cached : option DiscoveryResult)
    (fetch : ActivityFetcher) (pool : string) (k : Z) (options : DiscoveryOptions)
    (r : DiscoveryResult) (stored : Checkpoints) :
  (forall c, cached = Some c -> Forall Q (notes c)) ->
  discoverNotes fuel cached fetch pool k options = Some (Ok (r, stored)) ->
  Forall Q (notes r) /\ checkpoints_all Q stored.
Proof.
  intros Hcache Hrun. unfold discoverNotes in Hrun.
  destruct (initialLiveDeposits _ _); [|discriminate]. cbn [fbind] in Hrun.
  apply pagesLoop_keeps in Hrun; [exact Hrun | | constructor].
  cbn [scanNotes]. destruct cached as [c|]; [now apply Hcache | constructor].
Qed.

End ChainInvariant.

(* ------------------------------------------------------------------ *)
(** *** Only the tail of a chain can be unspent                         *)

(** Every note of the chain before its tail is spent. *)
Definition spent_before_tail (chain : NoteChain) : Prop :=
  exists (init : NoteChain) (tail : Note),
    chain = init ++ [tail] /\ Forall (fun n => status n = spent) init.

Lemma spent_before_tail_round (chain : NoteChain) (c : Note) :
  spent_before_tail chain -> spent_before_tail (markLastSpent chain ++ [c]).
Proof.
  intros (init & tail & -> & Hs). rewrite markLastSpent_snoc.
  exists (init ++ [setStatus spent tail]), c. split; [reflexivity|].
  apply Forall_app. split; [exact Hs|]. now constructor.
Qed.

(** X7.  In every chain that [discoverNotes] returns, and in every chain it
    wrote at a checkpoint, all notes before the last one are spent: only
    the last note of a chain can be unspent.  This holds for a run without
    a cache, and for a run that starts from a cache whose chains are of
    that kind. *)
Theorem discovery_leaves_only_tails_unspent `{P : Primitives} (fuel : nat)
    (cached : option DiscoveryResult) (fetch : ActivityFetcher) (pool : string)
    (k : Z) (options : DiscoveryOptions) (r : DiscoveryResult) (stored : Checkpoints) :
  (forall c, cached = Some c -> Forall spent_before_tail (notes c)) ->
  discoverNotes fuel cached fetch pool k options = Some (Ok (r, stored)) ->
  Forall spent_before_tail (notes r) /\ checkpoints_all spent_before_tail stored.
Proof.
  apply discoverNotes_keeps.
  - intros d i a. exists [], (depositNoteOf d i a). now split.
  - intros chain head ci remaining w Hq _. now apply spent_before_tail_round.
Qed.

(** No cache, nothing to assume of it. *)
Lemma no_cache {A} (Q : A -> Prop) (c : A) : None = Some c -> Q c.
Proof. discriminate. Qed.

(** The run of scenario 2: a deposit and two withdrawals, over two pages. *)
Lemma sample_two_withdrawals_run :
  discoverNotes (P := Sample.primitives) 20 None
    (SampleDiscovery.fetcher
       [[SampleDiscovery.depositActivity; SampleDiscovery.withdrawal1];
        [SampleDiscovery.withdrawal2]])
    Sample.pool SampleDiscovery.key SampleDiscovery.noOptions
  = Some (Ok (fst SampleRuns.twoWithdrawalsResult, snd SampleRuns.twoWithdrawalsResult)).
Proof. vm_compute. reflexivity. Qed.

Lemma discovery_leaves_only_tails_unspent_witness :
  Forall spent_before_tail (notes (fst SampleRuns.twoWithdrawalsResult))
  /\ map (map status) (notes (fst SampleRuns.twoWithdrawalsResult))
     = [[spent; spent; spent]].
Proof.
  split; [|vm_compute; reflexivity].
  exact (proj1 (discovery_leaves_only_tails_unspent (P := Sample.primitives)
                  _ _ _ _ _ _ _ _ (no_cache _) sample_two_withdrawals_run)).
Defined.

(* ------------------------------------------------------------------ *)
(** *** The shape of a chain                                            *)

(** A deposit note at change index [0], then activated change notes; all
    of them carry the head's pool address, deposit index and label. *)
Definition deposit_then_changes (chain : NoteChain) : Prop :=
  exists (head : Note) (rest : list Note),
    chain = head :: rest
    /\ noteType head = deposit /\ changeIndex head = 0
    /\ Forall (fun n => noteType n = change /\ isActivated n = true
                        /\ poolAddress n = poolAddress head
                        /\ depositIndex n = depositIndex head
                        /\ label n = label head) rest.

Lemma markLastSpent_cons (head : Note) (rest : list Note) :
  markLastSpent (head :: rest)
  = match rest with
    | [] => [setStatus spent head]
    | _ => head :: markLastSpent rest
    end.
Proof.
  destruct rest as [|x r]; [reflexivity|].
  unfold markLastSpent. simpl List.length.
  replace (S (S (List.length r)) - 1)%nat with (S (List.length r)) by lia.
  cbn [updateAt]. do 2 f_equal. lia.
Qed.

Lemma deposit_then_changes_round (chain : NoteChain) (head : Note)
    (ci remaining : Z) (w : Activity.t) :
  deposit_then_changes chain ->
  nth_error (markLastSpent chain) 0 = Some head ->
  deposit_then_changes (markLastSpent chain ++ [changeNoteOf head ci remaining w]).
Proof.
  intros (h & rest & -> & Ht & Hci & Hrest) Hhead.
  rewrite markLastSpent_cons in *. destruct rest as [|x r].
  - injection Hhead as <-.
    exists (setStatus spent h), [changeNoteOf (setStatus spent h) ci remaining w].
    split; [reflexivity|]. split; [exact Ht|]. split; [exact Hci|].
    constructor; [|constructor]. repeat split.
  - injection Hhead as <-.
    exists h, (markLastSpent (x :: r) ++ [changeNoteOf h ci remaining w]).
    split; [reflexivity|]. split; [exact Ht|]. split; [exact Hci|].
    apply Forall_app. split.
    + unfold markLastSpent. apply updateAt_Forall; [|exact Hrest].
      intros n Hn. apply nth_error_In in Hn.
      rewrite Forall_forall in Hrest. exact (Hrest n Hn).
    + constructor; [|constructor]. repeat split.
Qed.

(** X8.  Every chain that [discoverNotes] returns or writes at a checkpoint
    is a deposit note at change index 0 followed by activated change notes
    that carry the pool address, the deposit index and the label of the
    deposit note, when the chains of the cache it starts from, if there is
    one, are of that kind. *)
Theorem discovered_chains_are_deposit_then_changes `{P : Primitives} (fuel : nat)
    (cached : option DiscoveryResult) (fetch : ActivityFetcher) (pool : string)
    (k : Z) (options : DiscoveryOptions) (r : DiscoveryResult) (stored : Checkpoints) :
  (forall c, cached = Some c -> Forall deposit_then_changes (notes c)) ->
  discoverNotes fuel cached fetch pool k options = Some (Ok (r, stored)) ->
  Forall deposit_then_changes (notes r)
  /\ checkpoints_all deposit_then_changes stored.
Proof.
  apply discoverNotes_keeps.
  - intros d i a. exists (depositNoteOf d i a), []. repeat split; constructor.
  - intros chain head ci remaining w. apply deposit_then_changes_round.
Qed.

Lemma discovered_chains_are_deposit_then_changes_witness :
  Forall deposit_then_changes (notes (fst SampleRuns.twoWithdrawalsResult))
  /\ map (map noteType) (notes (fst SampleRuns.twoWithdrawalsResult))
     = [[deposit; change; change]].
Proof.
  split; [|vm_compute; reflexivity].
  exact (proj1 (discovered_chains_are_deposit_then_changes (P := Sample.primitives)
                  _ _ _ _ _ _ _ _ (no_cache _) sample_two_withdrawals_run)).
Defined.

(* ================================================================== *)
(** ** Deposit indices and the counters of a run                       *)
(* ================================================================== *)

(** The deposit index of a chain: that of its head. *)
Definition headIndex (chain : NoteChain) : option Z :=
  option_map depositIndex (nth_error chain 0).

Lemma headIndex_markLastSpent (chain : NoteChain) :
  headIndex (markLastSpent chain) = headIndex chain.
Proof.
  destruct chain as [|h rest]; [reflexivity|].
  rewrite markLastSpent_cons. now destruct rest.
Qed.

Lemma headIndex_app (chain added : NoteChain) :
  chain <> [] -> headIndex (chain ++ added) = headIndex chain.
Proof. destruct chain; [congruence | reflexivity]. Qed.

Lemma map_updateAt_same {A B} (f : A -> B) (i : nat) (x y : A) (l : list A) :
  nth_error l i = Some x -> f y = f x ->
  map f (updateAt i (fun _ => y) l) = map f l.
Proof.
  revert i. induction l as [|a r IH]; intros [|i] Hx Hf; simpl in *;
    try discriminate.
  - injection Hx as ->. now rewrite Hf.
  - now rewrite (IH i Hx Hf).
Qed.

(** The [count] deposit indices after [last]. *)
Definition indicesAfter (last : Z) (count : Z) : list (option Z) :=
  map (fun j => Some (last + 1 + Z.of_nat j)) (seq 0 (Z.to_nat count)).

(** The counters of a scan agree with the chains it holds: [matched]
    chains were added to the [len0] cached ones, for the deposit indices
    that follow [last0] in order, and the next candidate follows the last
    index used. *)
Definition accounted (last0 : Z) (len0 : nat) (s : Scan) : Prop :=
  let matched := depositsMatched (progress s) in
  0 <= matched
  /\ scanLastUsedIndex s = last0 + matched
  /\ nextDepositIndex s = scanLastUsedIndex s + 1
  /\ List.length (scanNotes s) = (len0 + Z.to_nat matched)%nat
  /\ skipn len0 (map headIndex (scanNotes s)) = indicesAfter last0 matched.

Section Accounting.

Context `{P : Primitives}.

Lemma extendChainInPlace_headIndex (fuel : nat) (chain : NoteChain)
    (acts : list Activity.t) (k : Z) (pool : string) (chain' : NoteChain) (m : Z) :
  extendChainInPlace fuel chain acts k pool = Some (Ok (chain', m)) ->
  headIndex chain' = headIndex chain.
Proof.
  unfold extendChainInPlace. intros Hrun.
  destruct (lastOf chain) as [tail|] eqn:Hlast; [|discriminate].
  assert (Hne : chain <> []) by (intros ->; discriminate).
  destruct (amount tail); [|now injection Hrun as <- _].
  cbn [fbind] in Hrun. destruct (JS.BigInt _); [|discriminate].
  destruct (nth_error chain 0); [|discriminate]. cbn [fbind JS.of_option] in Hrun.
  destruct (if Note.changeIndex tail =? 0 then _ else _); [|discriminate].
  cbn [fbind] in Hrun.
  apply extendLoop_appends in Hrun; [|exact Hne].
  destruct Hrun as [[-> _]|(added & (-> & _) & _)]; [reflexivity|].
  rewrite headIndex_app by now apply markLastSpent_nonempty.
  apply headIndex_markLastSpent.
Qed.

Lemma extendLiveDeposits_heads (fuel : nat) (snapshot : list LiveDeposit.t)
    (acts : list Activity.t) (k : Z) (pool : string)
    (chains : list NoteChain) (live : list LiveDeposit.t)
    (chains' : list NoteChain) (live' : list LiveDeposit.t) :
  extendLiveDeposits fuel snapshot acts k pool chains live = Some (Ok (chains', live')) ->
  map headIndex chains' = map headIndex chains.
Proof.
  revert chains live.
  induction snapshot as [|d rest IH]; intros chains live Hrun; simpl in Hrun.
  - now injection Hrun as <- _.
  - destruct (nth_error chains (LiveDeposit.chainIndex d)) as [chain|] eqn:Hchain;
      [|now apply IH in Hrun].
    destruct (extendChainInPlace fuel chain acts k pool) as [[[chain1 m]|]|] eqn:Hext;
      try discriminate.
    cbn [fbind fst snd] in Hrun.
    pose proof (map_updateAt_same headIndex _ chain chain1 chains Hchain
                  (extendChainInPlace_headIndex _ _ _ _ _ _ _ Hext)) as Hmap.
    destruct (m >? 0).
    + destruct (lastOf chain1); [|discriminate]. cbn [fbind JS.of_option] in Hrun.
      destruct (stillLive _); [|discriminate]. cbn [fbind] in Hrun.
      apply IH in Hrun. congruence.
    + apply IH in Hrun. congruence.
Qed.

Lemma indicesAfter_succ (last count : Z) :
  0 <= count ->
  indicesAfter last (count + 1) = indicesAfter last count ++ [Some (last + count + 1)].
Proof.
  intros H. unfold indicesAfter.
  replace (Z.to_nat (count + 1)) with (S (Z.to_nat count)) by lia.
  rewrite seq_S, map_app. simpl. do 3 f_equal. lia.
Qed.

Lemma scanDeposits_accounted (last0 : Z) (len0 : nat) (fuel : nat)
    (acts : list Activity.t) (k : Z) (pool : string) (s s' : Scan) :
  accounted last0 len0 s ->
  scanDeposits fuel acts k pool s = Some (Ok s') ->
  accounted last0 len0 s'.
Proof.
  revert s. induction fuel as [|fuel IH]; intros s Hacc Hrun; [discriminate|].
  cbn [scanDeposits] in Hrun.
  destruct (deriveDepositNullifier _ _ _); [|discriminate].
  destruct (deriveDepositSecret _ _ _); [|discriminate]. cbn [fbind] in Hrun.
  destruct (findIndex _ acts) as [pos|]; [|injection Hrun as <-; exact Hacc].
  destruct (nth_error acts pos) as [d|]; [|discriminate].
  cbn [fbind JS.of_option] in Hrun.
  destruct (buildChainForDepositInPage _ _ _ _ _ _) as [[chain|]|] eqn:Hb;
    try discriminate.
  cbn [fbind] in Hrun.
  destruct (lastOf chain); [|discriminate]. cbn [fbind JS.of_option] in Hrun.
  destruct (liveRemaining _); [|discriminate]. cbn [fbind] in Hrun.
  apply IH in Hrun; [exact Hrun|]. clear IH Hrun.
  destruct Hacc as (Hm & Hlast & Hnext & Hlen & Hheads).
  assert (Hhead : headIndex chain = Some (nextDepositIndex s)).
  { unfold buildChainForDepositInPage in Hb.
    destruct (extendChainInPlace _ _ _ _ _) as [[[c m]|]|] eqn:Hext; try discriminate.
    cbn [fbind fst] in Hb. injection Hb as <-.
    now rewrite (extendChainInPlace_headIndex _ _ _ _ _ _ _ Hext). }
  unfold accounted. cbn [progress scanNotes scanLastUsedIndex nextDepositIndex
                         matchDeposit checkDeposit depositsMatched].
  repeat split.
  - lia.
  - lia.
  - lia.
  - rewrite length_app, Hlen. simpl. lia.
  - rewrite map_app, skipn_app, Hheads, length_map, Hlen.
    replace (len0 - (len0 + Z.to_nat (depositsMatched (progress s))))%nat
      with O by lia.
    rewrite indicesAfter_succ by exact Hm. simpl. rewrite Hhead.
    do 3 f_equal. lia.
Qed.

Lemma processPage_accounted (last0 : Z) (len0 : nat) (fuel : nat)
    (acts : list Activity.t) (k : Z) (pool : string) (s s' : Scan) :
  accounted last0 len0 s ->
  processPage fuel acts k pool s = Some (Ok s') ->
  accounted last0 len0 s'.
Proof.
  intros Hacc Hrun. unfold processPage in Hrun.
  destruct (match liveDeposits s with [] => _ | _ => _ end)
    as [[[chains live]|]|] eqn:Hext; try discriminate.
  cbn [fbind fst snd] in Hrun.
  apply (scanDeposits_accounted last0 len0) in Hrun; [exact Hrun|].
  assert (Hmap : map headIndex chains = map headIndex (scanNotes s)).
  { destruct (liveDeposits s).
    - now injection Hext as <- _.
    - exact (extendLiveDeposits_heads _ _ _ _ _ _ _ _ _ Hext). }
  destruct Hacc as (Hm & Hlast & Hnext & Hlen & Hheads).
  unfold accounted. cbn [progress scanNotes scanLastUsedIndex nextDepositIndex].
  repeat split; try assumption.
  - rewrite <- Hlen, <- (length_map headIndex chains), Hmap. apply length_map.
  - now rewrite Hmap.
Qed.

Lemma pagesLoop_accounted (last0 : Z) (len0 : nat) (fuel : nat)
    (fetch : ActivityFetcher) (options : DiscoveryOptions) (k : Z) (pool : string)
    (s : Scan) (cursor : option string) (pages : Z) (stored : Checkpoints)
    (r : DiscoveryResult) (stored' : Checkpoints) :
  accounted last0 len0 s ->
  pagesLoop fuel fetch options k pool s cursor pages stored = Some (Ok (r, stored')) ->
  exists (s' : Scan) (cursor' : option string),
    accounted last0 len0 s' /\ r = resultOf s' cursor'.
Proof.
  revert s cursor pages stored.
  induction fuel as [|fuel IH]; intros s cursor pages stored Hacc Hrun;
    [discriminate|].
  cbn [pagesLoop] in Hrun.
  destruct (underPageCap _ _); [|injection Hrun as <- _; now exists s, cursor].
  destruct (fetch _ _ _) as [page|]; [|discriminate]. cbn [fbind] in Hrun.
  destruct (processPage _ _ _ _ _) as [[s1|]|] eqn:Hpage; try discriminate.
  cbn [fbind] in Hrun.
  apply (processPage_accounted last0 len0) in Hpage; [|exact Hacc].
  destruct (hasNextPage _).
  - exact (IH _ _ _ _ Hpage Hrun).
  - injection Hrun as <- _. now exists s1, (endCursor (pageInfo page)).
Qed.

End Accounting.

(** X9.  Discovery uses deposit indices without a gap.  With [last0] the
    last used index of the cache, or -1 without a cache: [newNotesFound] of
    the result is not negative, [lastUsedIndex] is [last0 + newNotesFound],
    the result holds the cached chains and [newNotesFound] more, and the
    [j]-th new chain starts with a note whose deposit index is
    [last0 + 1 + j]. *)
Theorem deposit_indices_are_consecutive `{P : Primitives} (fuel : nat)
    (cached : option DiscoveryResult) (fetch : ActivityFetcher) (pool : string)
    (k : Z) (options : DiscoveryOptions) (r : DiscoveryResult) (stored : Checkpoints) :
  discoverNotes fuel cached fetch pool k options = Some (Ok (r, stored)) ->
  let last0 := match cached with Some c => lastUsedIndex c | None => -1 end in
  let notes0 := match cached with Some c => notes c | None => [] end in
  0 <= newNotesFound r
  /\ lastUsedIndex r = last0 + newNotesFound r
  /\ List.length (notes r) = (List.length notes0 + Z.to_nat (newNotesFound r))%nat
  /\ forall j : nat,
       (j < Z.to_nat (newNotesFound r))%nat ->
       exists (chain : NoteChain) (head : Note),
         nth_error (notes r) (List.length notes0 + j) = Some chain
         /\ nth_error chain 0 = Some head
         /\ depositIndex head = last0 + 1 + Z.of_nat j.
Proof.
  intros Hrun last0 notes0. unfold discoverNotes in Hrun.
  destruct (initialLiveDeposits _ _) as [live|]; [|discriminate].
  cbn [fbind] in Hrun. fold last0 notes0 in Hrun.
  apply (pagesLoop_accounted last0 (List.length notes0)) in Hrun.
  - destruct Hrun as (s & cursor & (Hm & Hlast & _ & Hlen & Hheads) & ->).
    cbn [resultOf newNotesFound lastUsedIndex notes].
    repeat split; try assumption.
    intros j Hj.
    assert (E : nth_error (skipn (List.length notes0) (map headIndex (scanNotes s))) j
                = Some (Some (last0 + 1 + Z.of_nat j))).
    { rewrite Hheads. unfold indicesAfter.
      rewrite nth_error_map, nth_error_nth' with (d := O)
        by (rewrite length_seq; exact Hj).
      now rewrite seq_nth. }
    rewrite nth_error_skipn, nth_error_map in E.
    destruct (nth_error (scanNotes s) (List.length notes0 + j)) as [chain|];
      [|discriminate].
    simpl in E. injection E as E. unfold headIndex in E.
    destruct (nth_error chain 0) as [head|] eqn:Hhead; [|discriminate].
    injection E as E. now exists chain, head.
  - unfold accounted.
    cbn [progress scanNotes scanLastUsedIndex nextDepositIndex depositsMatched].
    repeat split; try lia.
    rewrite skipn_map, skipn_all. reflexivity.
Qed.

Lemma deposit_indices_are_consecutive_witness :
  newNotesFound (fst SampleRuns.twoWithdrawalsResult) = 1
  /\ lastUsedIndex (fst SampleRuns.twoWithdrawalsResult)
     = -1 + newNotesFound (fst SampleRuns.twoWithdrawalsResult)
  /\ List.length (notes (fst SampleRuns.twoWithdrawalsResult)) = 1%nat.
Proof.
  destruct (deposit_indices_are_consecutive (P := Sample.primitives)
              _ _ _ _ _ _ _ _ sample_two_withdrawals_run) as (_ & Hlast & Hlen & _).
  split; [vm_compute; reflexivity|]. split; [exact Hlast|].
  rewrite Hlen. vm_compute. reflexivity.
Defined.

(* ================================================================== *)
(** ** Pages, the page cap and the checkpoints                         *)
(* ================================================================== *)

Section Pages.

Context `{P : Primitives}.

Lemma pagesLoop_cap (m : Z) (fuel : nat) (fetch : ActivityFetcher)
    (options : DiscoveryOptions) (k : Z) (pool : string) (s : Scan)
    (cursor : option string) (pages : Z) (stored : Checkpoints)
    (r : DiscoveryResult) (stored' : Checkpoints) :
  maxPages options = Some m -> m <> 0 ->
  Z.of_nat (List.length stored) = pages -> pages <= Z.max m 0 ->
  pagesLoop fuel fetch options k pool s cursor pages stored = Some (Ok (r, stored')) ->
  Z.of_nat (List.length stored') <= Z.max m 0.
Proof.
  intros Hm Hm0. revert s cursor pages stored.
  induction fuel as [|fuel IH]; intros s cursor pages stored Hlen Hle Hrun;
    [discriminate|].
  cbn [pagesLoop] in Hrun. rewrite Hm in Hrun. cbn [underPageCap] in Hrun.
  assert (E0 : (m =? 0) = false) by now apply Z.eqb_neq.
  rewrite E0 in Hrun. cbn [orb] in Hrun.
  destruct (Z.ltb_spec pages m) as [Hlt|Hge];
    [|injection Hrun as _ <-; lia].
  destruct (fetch _ _ _) as [page|]; [|discriminate]. cbn [fbind] in Hrun.
  destruct (processPage _ _ _ _ _) as [[s1|]|]; try discriminate.
  cbn [fbind] in Hrun.
  destruct (hasNextPage _).
  - apply IH in Hrun; [exact Hrun | simpl List.length; lia | lia].
  - injection Hrun as _ <-. simpl List.length. lia.
Qed.

Lemma pagesLoop_no_cap (fuel : nat) (fetch : ActivityFetcher)
    (size : option Z) (k : Z) (pool : string) (s : Scan)
    (cursor : option string) (pages : Z) (stored : Checkpoints) :
  pagesLoop fuel fetch {| maxPages := Some 0; pageSize := size |} k pool
    s cursor pages stored
  = pagesLoop fuel fetch {| maxPages := None; pageSize := size |} k pool
      s cursor pages stored.
Proof.
  revert s cursor pages stored.
  induction fuel as [|fuel IH]; intros s cursor pages stored; [reflexivity|].
  cbn [pagesLoop maxPages pageSize underPageCap Z.eqb orb].
  destruct (fetch _ _ _) as [page|]; [|reflexivity]. cbn [fbind].
  destruct (processPage _ _ _ _ _) as [[s1|]|]; try reflexivity.
  cbn [fbind]. destruct (hasNextPage _); [apply IH | reflexivity].
Qed.

Lemma pagesLoop_last (fuel : nat) (fetch : ActivityFetcher)
    (options : DiscoveryOptions) (k : Z) (pool : string) (s : Scan)
    (cursor : option string) (pages : Z) (stored : Checkpoints)
    (r : DiscoveryResult) (stored' : Checkpoints) :
  pagesLoop fuel fetch options k pool s cursor pages stored = Some (Ok (r, stored')) ->
  (stored' = stored /\ r = resultOf s cursor)
  \/ exists rest, stored' = (notes r, lastProcessedCursor r) :: rest.
Proof.
  revert s cursor pages stored.
  induction fuel as [|fuel IH]; intros s cursor pages stored Hrun; [discriminate|].
  cbn [pagesLoop] in Hrun.
  destruct (underPageCap _ _); [|injection Hrun as <- <-; now left].
  destruct (fetch _ _ _) as [page|]; [|discriminate]. cbn [fbind] in Hrun.
  destruct (processPage _ _ _ _ _) as [[s1|]|]; try discriminate.
  cbn [fbind] in Hrun. right.
  destruct (hasNextPage _).
  - apply IH in Hrun. destruct Hrun as [[-> ->]|Hrest]; [|exact Hrest].
    now exists stored.
  - injection Hrun as <- <-. now exists stored.
Qed.

End Pages.

(** X10.  With a page cap [maxPages = m] other than 0, a run of
    [discoverNotes] that returns has written at most [m] checkpoints, and
    none when [m] is negative. *)
Theorem discovery_respects_page_cap `{P : Primitives} (fuel : nat)
    (cached : option DiscoveryResult) (fetch : ActivityFetcher) (pool : string)
    (k : Z) (options : DiscoveryOptions) (m : Z)
    (r : DiscoveryResult) (stored : Checkpoints) :
  maxPages options = Some m -> m <> 0 ->
  discoverNotes fuel cached fetch pool k options = Some (Ok (r, stored)) ->
  Z.of_nat (List.length stored) <= Z.max m 0.
Proof.
  intros Hm Hm0 Hrun. unfold discoverNotes in Hrun.
  destruct (initialLiveDeposits _ _); [|discriminate]. cbn [fbind] in Hrun.
  apply (pagesLoop_cap m) in Hrun; try assumption; [reflexivity | lia].
Qed.

Lemma discovery_respects_page_cap_witness :
  SampleCache.capped = Some (Ok SampleCache.cappedResult)
  /\ Z.of_nat (List.length (snd SampleCache.cappedResult)) <= 1
  /\ map (map changeIndex) (notes (fst SampleCache.cappedResult)) = [[0; 1]].
Proof.
  assert (Hrun : discoverNotes (P := Sample.primitives) 20 None
                   (SampleDiscovery.fetcher
                      [[SampleDiscovery.depositActivity; SampleDiscovery.withdrawal1];
                       [SampleDiscovery.withdrawal2]])
                   Sample.pool SampleDiscovery.key SampleCache.onePage
                 = Some (Ok (fst SampleCache.cappedResult, snd SampleCache.cappedResult)))
    by (vm_compute; reflexivity).
  assert (Hm : 1 <> 0) by discriminate.
  split; [vm_compute; reflexivity|]. split; [|vm_compute; reflexivity].
  exact (discovery_respects_page_cap (P := Sample.primitives)
           _ _ _ _ _ SampleCache.onePage 1 _ _ eq_refl Hm Hrun).
Defined.

(** X11.  A page cap of 0 is no cap: [maxPages: 0] gives the run that leaving
    [maxPages] out gives, page for page, because the cap is tested for
    truthiness. *)
Theorem zero_page_cap_is_no_cap `{P : Primitives} (fuel : nat)
    (cached : option DiscoveryResult) (fetch : ActivityFetcher) (pool : string)
    (k : Z) (size : option Z) :
  discoverNotes fuel cached fetch pool k {| maxPages := Some 0; pageSize := size |}
  = discoverNotes fuel cached fetch pool k {| maxPages := None; pageSize := size |}.
Proof.
  unfold discoverNotes.
  destruct (initialLiveDeposits _ _); [|reflexivity]. cbn [fbind].
  apply pagesLoop_no_cap.
Qed.

(** X12.  What [discoverNotes] returns is what it stored last.  When a
    checkpoint was written, the chains and the cursor of the last
    checkpoint are the [notes] and the [lastProcessedCursor] of the result;
    when none was written, the result holds the notes and the last used
    index of the cache (nothing and -1 without a cache) and reports no new
    note. *)
Theorem result_is_last_checkpoint `{P : Primitives} (fuel : nat)
    (cached : option DiscoveryResult) (fetch : ActivityFetcher) (pool : string)
    (k : Z) (options : DiscoveryOptions) (r : DiscoveryResult) (stored : Checkpoints) :
  discoverNotes fuel cached fetch pool k options = Some (Ok (r, stored)) ->
  match stored with
  | [] =>
      notes r = match cached with Some c => notes c | None => [] end
      /\ lastUsedIndex r = match cached with Some c => lastUsedIndex c | None => -1 end
      /\ newNotesFound r = 0
  | (chains, cursor) :: _ => chains = notes r /\ cursor = lastProcessedCursor r
  end.
Proof.
  intros Hrun. unfold discoverNotes in Hrun.
  destruct (initialLiveDeposits _ _); [|discriminate]. cbn [fbind] in Hrun.
  apply pagesLoop_last in Hrun.
  destruct Hrun as [[-> ->]|[rest ->]]; [|now split].
  now repeat split.
Qed.

Lemma result_is_last_checkpoint_witness :
  exists rest,
    snd SampleRuns.twoWithdrawalsResult
    = (notes (fst SampleRuns.twoWithdrawalsResult),
       lastProcessedCursor (fst SampleRuns.twoWithdrawalsResult)) :: rest.
Proof.
  pose proof (result_is_last_checkpoint (P := Sample.primitives)
                _ _ _ _ _ _ _ _ sample_two_withdrawals_run) as H.
  destruct (snd SampleRuns.twoWithdrawalsResult) as [|[chains cursor] rest].
  - exfalso. destruct H as (_ & _ & H). vm_compute in H. discriminate H.
  - destruct H as [-> ->]. now exists rest.
Defined.

(* ================================================================== *)
(** ** Chains that are not live are left alone                         *)
(* ================================================================== *)

(** No live deposit points at chain [i]. *)
Definition not_live (i : nat) (live : list LiveDeposit.t) : Prop :=
  Forall (fun d => LiveDeposit.chainIndex d <> i) live.

Lemma nth_error_updateAt_other {A} (i j : nat) (f : A -> A) (l : list A) :
  i <> j -> nth_error (updateAt j f l) i = nth_error l i.
Proof.
  revert i j. induction l as [|x r IH]; intros [|i] [|j] H; simpl; auto;
    try congruence.
Qed.

Section Settled.

Context `{P : Primitives}.

(** The entries [initialLiveDeposits] makes: one per chain whose tail is
    admitted, at that chain's position. *)
Lemma initialLiveDeposits_entries (start : nat) (chains : list NoteChain)
    (live : list LiveDeposit.t) :
  initialLiveDeposits start chains = Ok live ->
  Forall (fun d =>
            exists (chain : NoteChain) (tail : Note) (a : Z),
              (start <= LiveDeposit.chainIndex d)%nat
              /\ nth_error chains (LiveDeposit.chainIndex d - start) = Some chain
              /\ lastOf chain = Some tail
              /\ liveRemaining tail = Ok (Some a)) live.
Proof.
  revert start live.
  induction chains as [|c rest IH]; intros start live Hinit.
  - injection Hinit as <-. constructor.
  - cbn [initialLiveDeposits] in Hinit.
    destruct (lastOf c) as [t|] eqn:Ht; [|discriminate].
    cbn [bind JS.of_option] in Hinit.
    destruct (liveRemaining t) as [lr|] eqn:Hlr; [|discriminate].
    cbn [bind] in Hinit.
    assert (Hrest : forall more, initialLiveDeposits (S start) rest = Ok more ->
              Forall (fun d =>
                exists (chain : NoteChain) (tail : Note) (a : Z),
                  (start <= LiveDeposit.chainIndex d)%nat
                  /\ nth_error (c :: rest) (LiveDeposit.chainIndex d - start) = Some chain
                  /\ lastOf chain = Some tail
                  /\ liveRemaining tail = Ok (Some a)) more).
    { intros more Hmore. apply IH in Hmore.
      eapply Forall_impl; [|exact Hmore].
      intros d (chain & tail & a & Hle & Hnth & Hlast & Hrem).
      exists chain, tail, a. split; [lia|]. split; [|now split].
      replace (LiveDeposit.chainIndex d - start)%nat
        with (S (LiveDeposit.chainIndex d - S start)) by lia.
      exact Hnth. }
    destruct lr as [a|].
    + destruct (nth_error c 0) as [first|]; [|discriminate].
      cbn [bind JS.of_option] in Hinit.
      destruct (initialLiveDeposits (S start) rest) as [more|]; [|discriminate].
      cbn [bind] in Hinit. injection Hinit as <-. simpl app.
      constructor; [|now apply Hrest].
      exists c, t, a. cbn [LiveDeposit.chainIndex].
      rewrite Nat.sub_diag. now repeat split.
    + cbn [bind] in Hinit.
      destruct (initialLiveDeposits (S start) rest) as [more|]; [|discriminate].
      cbn [bind] in Hinit. injection Hinit as <-. now apply Hrest.
Qed.

(** What a scan holds for a chain that is not live: the chain itself at
    position [i], and no live deposit for that position. *)
Definition left_alone (i : nat) (chain : NoteChain) (s : Scan) : Prop :=
  nth_error (scanNotes s) i = Some chain /\ not_live i (liveDeposits s).

Lemma extendLiveDeposits_left_alone (i : nat) (chain : NoteChain) (fuel : nat)
    (snapshot : list LiveDeposit.t) (acts : list Activity.t) (k : Z) (pool : string)
    (chains : list NoteChain) (live : list LiveDeposit.t)
    (chains' : list NoteChain) (live' : list LiveDeposit.t) :
  not_live i snapshot ->
  nth_error chains i = Some chain -> not_live i live ->
  extendLiveDeposits fuel snapshot acts k pool chains live = Some (Ok (chains', live')) ->
  nth_error chains' i = Some chain /\ not_live i live'.
Proof.
  revert chains live.
  induction snapshot as [|d rest IH]; intros chains live Hsnap Hnth Hlive Hrun;
    simpl in Hrun.
  - injection Hrun as <- <-. now split.
  - inversion Hsnap as [|? ? Hd Hrest]; subst.
    destruct (nth_error chains (LiveDeposit.chainIndex d)) as [c|];
      [|exact (IH _ _ Hrest Hnth Hlive Hrun)].
    destruct (extendChainInPlace fuel c acts k pool) as [[[c1 m]|]|];
      try discriminate.
    cbn [fbind fst snd] in Hrun.
    assert (Hnth1 : nth_error (updateAt (LiveDeposit.chainIndex d) (fun _ => c1) chains) i
                    = Some chain)
      by (rewrite nth_error_updateAt_other by congruence; exact Hnth).
    destruct (m >? 0); [|exact (IH _ _ Hrest Hnth1 Hlive Hrun)].
    destruct (lastOf c1); [|discriminate]. cbn [fbind JS.of_option] in Hrun.
    destruct (stillLive _) as [[a|]|]; [| |discriminate]; cbn [fbind] in Hrun;
      apply (IH _ _ Hrest Hnth1) in Hrun; try exact Hrun.
    + unfold not_live in *. rewrite Forall_forall in *.
      intros x Hx. apply in_map_iff in Hx. destruct Hx as (y & <- & Hy).
      specialize (Hlive y Hy). now destruct (sameLive y d).
    + unfold not_live in *. rewrite Forall_forall in *.
      intros x Hx. apply filter_In in Hx. now apply Hlive.
Qed.

Lemma scanDeposits_left_alone (i : nat) (chain : NoteChain) (fuel : nat)
    (acts : list Activity.t) (k : Z) (pool : string) (s s' : Scan) :
  left_alone i chain s ->
  scanDeposits fuel acts k pool s = Some (Ok s') ->
  left_alone i chain s'.
Proof.
  revert s. induction fuel as [|fuel IH]; intros s Hs Hrun; [discriminate|].
  cbn [scanDeposits] in Hrun.
  destruct (deriveDepositNullifier _ _ _); [|discriminate].
  destruct (deriveDepositSecret _ _ _); [|discriminate]. cbn [fbind] in Hrun.
  destruct (findIndex _ acts) as [pos|]; [|injection Hrun as <-; exact Hs].
  destruct (nth_error acts pos) as [d|]; [|discriminate].
  cbn [fbind JS.of_option] in Hrun.
  destruct (buildChainForDepositInPage _ _ _ _ _ _) as [[c|]|]; try discriminate.
  cbn [fbind] in Hrun.
  destruct (lastOf c); [|discriminate]. cbn [fbind JS.of_option] in Hrun.
  destruct (liveRemaining _) as [lr|]; [|discriminate]. cbn [fbind] in Hrun.
  apply IH in Hrun; [exact Hrun|]. clear IH Hrun.
  destruct Hs as [Hnth Hlive].
  assert (Hi : (i < List.length (scanNotes s))%nat)
    by (apply nth_error_Some; congruence).
  split; cbn [scanNotes liveDeposits].
  - rewrite nth_error_app1 by exact Hi. exact Hnth.
  - destruct lr as [admitted|]; [|exact Hlive].
    apply Forall_app. split; [exact Hlive|].
    constructor; [|constructor]. cbn [LiveDeposit.chainIndex].
    rewrite length_app. simpl. lia.
Qed.

Lemma processPage_left_alone (i : nat) (chain : NoteChain) (fuel : nat)
    (acts : list Activity.t) (k : Z) (pool : string) (s s' : Scan) :
  left_alone i chain s ->
  processPage fuel acts k pool s = Some (Ok s') ->
  left_alone i chain s'.
Proof.
  intros [Hnth Hlive] Hrun. unfold processPage in Hrun.
  destruct (match liveDeposits s with [] => _ | _ => _ end)
    as [[[chains live]|]|] eqn:Hext; try discriminate.
  cbn [fbind fst snd] in Hrun.
  apply (scanDeposits_left_alone i chain) in Hrun; [exact Hrun|].
  unfold left_alone. cbn [scanNotes liveDeposits].
  destruct (liveDeposits s) eqn:El.
  - injection Hext as <- <-. now split.
  - exact (extendLiveDeposits_left_alone i chain _ _ _ _ _ _ _ _ _
             Hlive Hnth Hlive Hext).
Qed.

Lemma pagesLoop_left_alone (i : nat) (chain : NoteChain) (fuel : nat)
    (fetch : ActivityFetcher) (options : DiscoveryOptions) (k : Z) (pool : string)
    (s : Scan) (cursor : option string) (pages : Z) (stored : Checkpoints)
    (r : DiscoveryResult) (stored' : Checkpoints) :
  left_alone i chain s ->
  pagesLoop fuel fetch options k pool s cursor pages stored = Some (Ok (r, stored')) ->
  nth_error (notes r) i = Some chain.
Proof.
  revert s cursor pages stored.
  induction fuel as [|fuel IH]; intros s cursor pages stored Hs Hrun;
    [discriminate|].
  cbn [pagesLoop] in Hrun.
  destruct (underPageCap _ _); [|injection Hrun as <- _; exact (proj1 Hs)].
  destruct (fetch _ _ _) as [page|]; [|discriminate]. cbn [fbind] in Hrun.
  destruct (processPage _ _ _ _ _) as [[s1|]|] eqn:Hpage; try discriminate.
  cbn [fbind] in Hrun.
  apply (processPage_left_alone i chain) in Hpage; [|exact Hs].
  destruct (hasNextPage _).
  - exact (IH _ _ _ _ Hpage Hrun).
  - injection Hrun as <- _. exact (proj1 Hpage).
Qed.

End Settled.

(** X13.  A cached chain that is not live is never touched again: when the
    last note of the cached chain at position [i] is not admitted
    to the live deposits (it is spent, or has no amount or an amount that is
    not positive, or is not activated), the result of [discoverNotes] holds
    the same chain at the same position, whatever the pages contain. *)
Theorem chains_that_are_not_live_are_left_alone `{P : Primitives} (fuel : nat)
    (cache : DiscoveryResult) (fetch : ActivityFetcher) (pool : string)
    (k : Z) (options : DiscoveryOptions) (i : nat) (chain : NoteChain) (tail : Note)
    (r : DiscoveryResult) (stored : Checkpoints) :
  nth_error (notes cache) i = Some chain ->
  lastOf chain = Some tail ->
  liveRemaining tail = Ok None ->
  discoverNotes fuel (Some cache) fetch pool k options = Some (Ok (r, stored)) ->
  nth_error (notes r) i = Some chain.
Proof.
  intros Hnth Hlast Hrem Hrun. unfold discoverNotes in Hrun.
  destruct (initialLiveDeposits 0 (notes cache)) as [live|] eqn:Hinit;
    [|discriminate].
  cbn [fbind] in Hrun.
  apply (pagesLoop_left_alone i chain) in Hrun; [exact Hrun|].
  split; [exact Hnth|]. cbn [liveDeposits].
  apply initialLiveDeposits_entries in Hinit.
  unfold not_live. eapply Forall_impl; [|exact Hinit].
  intros d (c & t & a & _ & Hc & Ht & Ha) E.
  rewrite Nat.sub_0_r, E, Hnth in Hc. injection Hc as <-.
  rewrite Hlast in Ht. injection Ht as <-. rewrite Hrem in Ha. discriminate.
Qed.

Lemma chains_that_are_not_live_are_left_alone_witness :
  SampleCache.resumed = Some (Ok SampleCache.resumedResult)
  /\ liveRemaining (depositNoteOf SampleDiscovery.pendingDeposit 0 Sample.pool)
     = Ok None
  /\ In SampleDiscovery.smallWithdrawal [SampleDiscovery.smallWithdrawal]
  /\ nth_error (notes (fst SampleCache.resumedResult)) 0
     = Some SampleCache.pendingChain.
Proof.
  assert (Hrun : discoverNotes (P := Sample.primitives) 20
                   (Some SampleCache.pendingCache)
                   (SampleDiscovery.fetcher [[SampleDiscovery.smallWithdrawal]])
                   Sample.pool SampleDiscovery.key SampleDiscovery.noOptions
                 = Some (Ok (fst SampleCache.resumedResult,
                             snd SampleCache.resumedResult)))
    by (vm_compute; reflexivity).
  split; [vm_compute; reflexivity|]. split; [reflexivity|].
  split; [now left|].
  exact (chains_that_are_not_live_are_left_alone (P := Sample.primitives)
           _ SampleCache.pendingCache _ _ _ _ 0%nat SampleCache.pendingChain
           (depositNoteOf SampleDiscovery.pendingDeposit 0 Sample.pool) _ _
           eq_refl eq_refl eq_refl Hrun).
Defined.

(* ================================================================== *)
(** ** The proof generator: verification and the circuit files         *)
(* ================================================================== *)

(** How often the loader of the same-chain ([false]) or cross-chain
    ([true]) circuit files was called. *)
Fixpoint loads (crosschain : bool) (events : list Event) : nat :=
  match events with
  | [] => O
  | Loaded b :: rest =>
      if Bool.eqb b crosschain then S (loads crosschain rest)
      else loads crosschain rest
  | _ :: rest => loads crosschain rest
  end.

Section GeneratorFiles.

Context `{P : Primitives} `{G : Groth16}.

Lemma ensureCircuitFiles_loaded (g : Generator) (events : list Event)
    (files : CircuitFiles) :
  circuitFiles g = Some files ->
  ensureCircuitFiles (g, events) = (Ok files, (g, events)).
Proof. intros H. unfold ensureCircuitFiles. now rewrite H. Qed.

Lemma ensureCrossChainWithdrawalCircuitFiles_loaded (g : Generator)
    (events : list Event) (files : CircuitFiles) :
  crosschainCircuitFiles g = Some files ->
  ensureCrossChainWithdrawalCircuitFiles (g, events) = (Ok files, (g, events)).
Proof. intros H. unfold ensureCrossChainWithdrawalCircuitFiles. now rewrite H. Qed.

(** What [ensureCircuitFiles] does to the generator and to the loaders'
    call counts. *)
Lemma ensureCircuitFiles_effect (w : World) :
  let r := ensureCircuitFiles w in
  (forall files, fst r = Ok files -> circuitFiles (fst (snd r)) = Some files)
  /\ crosschainCircuitFiles (fst (snd r)) = crosschainCircuitFiles (fst w)
  /\ loads true (snd (snd r)) = loads true (snd w)
  /\ (loads false (snd (snd r)) <= loads false (snd w) + 1)%nat
  /\ (forall files, circuitFiles (fst w) = Some files -> r = (Ok files, w)).
Proof.
  destruct w as [g events]. unfold ensureCircuitFiles.
  destruct (circuitFiles g) as [files|] eqn:Ef.
  - cbn [fst snd]. rewrite Ef.
    repeat split; auto; try lia; now intros f [= <-].
  - destruct (circuitFileLoader g) as [[files|msg]|]; cbn;
      rewrite ?Ef; repeat split; auto; try lia; try discriminate.
    now intros f [= <-].
Qed.

Lemma ensureCrossChainWithdrawalCircuitFiles_effect (w : World) :
  let r := ensureCrossChainWithdrawalCircuitFiles w in
  (forall files, fst r = Ok files -> crosschainCircuitFiles (fst (snd r)) = Some files)
  /\ circuitFiles (fst (snd r)) = circuitFiles (fst w)
  /\ loads false (snd (snd r)) = loads false (snd w)
  /\ (loads true (snd (snd r)) <= loads true (snd w) + 1)%nat
  /\ (forall files, crosschainCircuitFiles (fst w) = Some files -> r = (Ok files, w)).
Proof.
  destruct w as [g events]. unfold ensureCrossChainWithdrawalCircuitFiles.
  destruct (crosschainCircuitFiles g) as [files|] eqn:Ef.
  - cbn [fst snd]. rewrite Ef.
    repeat split; auto; try lia; now intros f [= <-].
  - destruct (crosschainCircuitFileLoader g) as [[files|msg]|]; cbn;
      rewrite ?Ef; repeat split; auto; try lia; try discriminate.
    now intros f [= <-].
Qed.

(** The prover's tail on a generator whose files are cached: the
    generator is left as it is, no loader is called, and an answer was
    accepted by the verifier. *)
Lemma proveAndVerify_cached (ensure : World -> result CircuitFiles * World)
    (g : Generator) (files : CircuitFiles) (inputs : JSObject)
    (events : list Event) :
  (forall e, ensure (g, e) = (Ok files, (g, e))) ->
  let run := proveAndVerify files inputs (verifyWith ensure) (g, events) in
  fst (snd run) = g
  /\ (forall b, loads b (snd (snd run)) = loads b events)
  /\ (forall data, fst run = Ok data ->
        fullProve inputs (wasmFile files) (zkeyFile files) = Answer data
        /\ verify (vkeyData files) (publicSignals data) (proof data) = Answer true
        /\ snd (snd run) = Checked (publicSignals data) :: Proved inputs :: events).
Proof.
  intros Hensure. unfold proveAndVerify.
  destruct (fullProve inputs _ _) as [data|msg]; cbn [await].
  - unfold verifyWith. rewrite Hensure.
    destruct (verify _ _ _) as [[|]|msg] eqn:Ev; cbn [await fst snd];
      (split; [reflexivity | split; [intros b; reflexivity|]]);
      intros d Hd; try discriminate Hd.
    injection Hd as <-. now repeat split.
  - cbn [fst snd]. split; [reflexivity | split; [intros b; reflexivity|]].
    discriminate.
Qed.

End GeneratorFiles.

(** X14.  A proof that [generateWithdrawalProof] or
    [generateCrosschainWithdrawalProof] returns has been verified.  When the
    call returns proof data, the circuit files are cached in the generator,
    the prover answered that data for the circuit inputs built from the
    arguments, the verifier accepted its public signals and proof against
    the verification key of the cached files, and proving and checking are
    the last two events of the call, in that order. *)
Theorem returned_proof_was_verified `{P : Primitives} `{G : Groth16}
    (args : WithdrawalProofArgs.t) (xargs : CrosschainWithdrawalProofArgs.t)
    (w w' : World) (data : WithdrawalProofData) :
  (generateWithdrawalProof args w = (Ok data, w') ->
   exists (files : CircuitFiles) (params : CircuitParams.t) (earlier : list Event),
     circuitFiles (fst w') = Some files
     /\ circuitParams args = Ok params
     /\ fullProve (prepareCircuitInputs params) (wasmFile files) (zkeyFile files)
        = Answer data
     /\ verify (vkeyData files) (publicSignals data) (proof data) = Answer true
     /\ snd w' = Checked (publicSignals data)
                 :: Proved (prepareCircuitInputs params) :: earlier)
  /\ (generateCrosschainWithdrawalProof xargs w = (Ok data, w') ->
      exists (files : CircuitFiles) (params : CircuitParams.t) (earlier : list Event),
        let inputs :=
          prepareCrossChainWithdrawalCircuitInputs params
            (CrosschainWithdrawalProofArgs.refundNullifier xargs)
            (CrosschainWithdrawalProofArgs.refundSecret xargs) in
        crosschainCircuitFiles (fst w') = Some files
        /\ circuitParams (CrosschainWithdrawalProofArgs.base xargs) = Ok params
        /\ fullProve inputs (wasmFile files) (zkeyFile files) = Answer data
        /\ verify (vkeyData files) (publicSignals data) (proof data) = Answer true
        /\ snd w' = Checked (publicSignals data) :: Proved inputs :: earlier).
Proof.
  split; intros Hrun.
  - unfold generateWithdrawalProof in Hrun.
    pose proof (ensureCircuitFiles_effect w) as (Hfiles & _).
    destruct (ensureCircuitFiles w) as [[files|e] [g1 e1]]; [|discriminate].
    cbn [fst snd] in Hfiles. specialize (Hfiles files eq_refl).
    destruct (circuitParams args) as [params|e]; [|discriminate].
    pose proof (proveAndVerify_cached ensureCircuitFiles g1 files
                  (prepareCircuitInputs params) e1
                  (fun e => ensureCircuitFiles_loaded g1 e files Hfiles))
      as (Hg & _ & Hok).
    fold verifyWithdrawalProof in Hg, Hok. rewrite Hrun in Hg, Hok.
    cbn [fst snd] in Hg, Hok.
    destruct (Hok data eq_refl) as (Hp & Hv & He).
    exists files, params, e1. rewrite Hg. now repeat split.
  - unfold generateCrosschainWithdrawalProof in Hrun.
    pose proof (ensureCrossChainWithdrawalCircuitFiles_effect w) as (Hfiles & _).
    destruct (ensureCrossChainWithdrawalCircuitFiles w) as [[files|e] [g1 e1]];
      [|discriminate].
    cbn [fst snd] in Hfiles. specialize (Hfiles files eq_refl).
    destruct (circuitParams _) as [params|e]; [|discriminate].
    pose proof (proveAndVerify_cached ensureCrossChainWithdrawalCircuitFiles g1 files
                  (prepareCrossChainWithdrawalCircuitInputs params
                     (CrosschainWithdrawalProofArgs.refundNullifier xargs)
                     (CrosschainWithdrawalProofArgs.refundSecret xargs)) e1
                  (fun e => ensureCrossChainWithdrawalCircuitFiles_loaded g1 e files
                              Hfiles))
      as (Hg & _ & Hok).
    fold verifyCrosschainWithdrawalProof in Hg, Hok. rewrite Hrun in Hg, Hok.
    cbn [fst snd] in Hg, Hok.
    destruct (Hok data eq_refl) as (Hp & Hv & He).
    exists files, params, e1. cbv zeta. rewrite Hg. now repeat split.
Qed.

Lemma returned_proof_was_verified_witness :
  exists (data : WithdrawalProofData) (w' : World),
    generateWithdrawalProof (P := Sample.primitives) (G := SampleProofs.groth16)
      SampleProofs.scenario SampleProofs.fresh = (Ok data, w')
    /\ circuitFiles (fst w') = Some SampleProofs.files
    /\ verify (Groth16 := SampleProofs.groth16) (vkeyData SampleProofs.files)
         (publicSignals data) (proof data)
       = Answer true.
Proof.
  pose proof (fun w' data =>
    proj1 (returned_proof_was_verified (P := Sample.primitives)
             (G := SampleProofs.groth16) SampleProofs.scenario
             (CrosschainWithdrawalProofArgs.mk SampleProofs.scenario 16 17)
             SampleProofs.fresh w' data)) as H.
  destruct (generateWithdrawalProof (P := Sample.primitives)
              (G := SampleProofs.groth16) SampleProofs.scenario SampleProofs.fresh)
    as [[data|e] w'] eqn:Hrun; [|vm_compute in Hrun; discriminate Hrun].
  destruct (H w' data eq_refl) as (files & params & earlier & Hf & _ & _ & Hv & _).
  assert (Ef : files = SampleProofs.files).
  { vm_compute in Hrun. injection Hrun as _ <-. cbn in Hf. now injection Hf. }
  subst files. exists data, w'. now repeat split.
Defined.

(** X15.  The circuit files are loaded at most once per kind.  A call of
    [generateWithdrawalProof] calls the same-chain loader at most once and
    the cross-chain loader never, and leaves the cross-chain files as they
    were; when the same-chain files are cached already, they stay and no
    loader is called.  The same holds for
    [generateCrosschainWithdrawalProof] with the two kinds exchanged. *)
Theorem circuit_files_are_loaded_once `{P : Primitives} `{G : Groth16}
    (args : WithdrawalProofArgs.t) (xargs : CrosschainWithdrawalProofArgs.t)
    (w : World) :
  (let w' := snd (generateWithdrawalProof args w) in
   (loads false (snd w') <= loads false (snd w) + 1)%nat
   /\ loads true (snd w') = loads true (snd w)
   /\ crosschainCircuitFiles (fst w') = crosschainCircuitFiles (fst w)
   /\ forall files, circuitFiles (fst w) = Some files ->
        circuitFiles (fst w') = Some files
        /\ loads false (snd w') = loads false (snd w))
  /\ (let w' := snd (generateCrosschainWithdrawalProof xargs w) in
      (loads true (snd w') <= loads true (snd w) + 1)%nat
      /\ loads false (snd w') = loads false (snd w)
      /\ circuitFiles (fst w') = circuitFiles (fst w)
      /\ forall files, crosschainCircuitFiles (fst w) = Some files ->
           crosschainCircuitFiles (fst w') = Some files
           /\ loads true (snd w') = loads true (snd w)).
Proof.
  split; cbv zeta.
  - unfold generateWithdrawalProof.
    pose proof (ensureCircuitFiles_effect w) as (Hfiles & Hx & Ht & Hf & Hcached).
    destruct (ensureCircuitFiles w) as [[files|e] [g1 e1]] eqn:Ens;
      cbn [fst snd] in *.
    + specialize (Hfiles files eq_refl).
      assert (Hkeep : forall f, circuitFiles (fst w) = Some f ->
                        circuitFiles g1 = Some f /\ loads false e1 = loads false (snd w)).
      { intros f Hcf. specialize (Hcached f Hcf).
        injection Hcached as <- <-. now split. }
      destruct (circuitParams args) as [params|e].
      * pose proof (proveAndVerify_cached ensureCircuitFiles g1 files
                      (prepareCircuitInputs params) e1
                      (fun e => ensureCircuitFiles_loaded g1 e files Hfiles))
          as (Hg & Hl & _).
        fold verifyWithdrawalProof in Hg, Hl. rewrite Hg, !Hl.
        split; [exact Hf | split; [exact Ht | split; [exact Hx | exact Hkeep]]].
      * cbn [fst snd]. split; [exact Hf | split; [exact Ht | split; [exact Hx | exact Hkeep]]].
    + repeat split; try assumption;
        specialize (Hcached _ H); discriminate Hcached.
  - unfold generateCrosschainWithdrawalProof.
    pose proof (ensureCrossChainWithdrawalCircuitFiles_effect w)
      as (Hfiles & Hx & Ht & Hf & Hcached).
    destruct (ensureCrossChainWithdrawalCircuitFiles w) as [[files|e] [g1 e1]] eqn:Ens;
      cbn [fst snd] in *.
    + specialize (Hfiles files eq_refl).
      assert (Hkeep : forall f, crosschainCircuitFiles (fst w) = Some f ->
                        crosschainCircuitFiles g1 = Some f
                        /\ loads true e1 = loads true (snd w)).
      { intros f Hcf. specialize (Hcached f Hcf).
        injection Hcached as <- <-. now split. }
      destruct (circuitParams _) as [params|e].
      * pose proof (proveAndVerify_cached ensureCrossChainWithdrawalCircuitFiles
                      g1 files
                      (prepareCrossChainWithdrawalCircuitInputs params
                         (CrosschainWithdrawalProofArgs.refundNullifier xargs)
                         (CrosschainWithdrawalProofArgs.refundSecret xargs)) e1
                      (fun e => ensureCrossChainWithdrawalCircuitFiles_loaded
                                  g1 e files Hfiles))
          as (Hg & Hl & _).
        fold verifyCrosschainWithdrawalProof in Hg, Hl. rewrite Hg, !Hl.
        split; [exact Hf | split; [exact Ht | split; [exact Hx | exact Hkeep]]].
      * cbn [fst snd]. split; [exact Hf | split; [exact Ht | split; [exact Hx | exact Hkeep]]].
    + repeat split; try assumption;
        specialize (Hcached _ H); discriminate Hcached.
Qed.

Lemma circuit_files_are_loaded_once_witness :
  circuitFiles (fst SampleProofs.loaded) = Some SampleProofs.files
  /\ loads false
       (snd (snd (generateWithdrawalProof (P := Sample.primitives)
                    (G := SampleProofs.groth16) SampleProofs.scenario
                    SampleProofs.loaded)))
     = 1%nat
  /\ circuitFiles
       (fst (snd (generateWithdrawalProof (P := Sample.primitives)
                    (G := SampleProofs.groth16) SampleProofs.scenario
                    SampleProofs.loaded)))
     = Some SampleProofs.files.
Proof.
  destruct (circuit_files_are_loaded_once (P := Sample.primitives)
              (G := SampleProofs.groth16) SampleProofs.scenario
              (CrosschainWithdrawalProofArgs.mk SampleProofs.scenario 16 17)
              SampleProofs.loaded) as [(_ & _ & _ & Hkeep) _].
  destruct (Hkeep SampleProofs.files eq_refl) as [Hfiles Hloads].
  split; [reflexivity|]. split; [|exact Hfiles].
  rewrite Hloads. reflexivity.
Defined.

(* ================================================================== *)
(** ** Padding                                                         *)
(* ================================================================== *)

(** X16.  [padArray] pads with zeros and never truncates: the result is as
    long as the longer of the array and the requested length, it starts
    with the array, everything after the array is 0, and padding twice is
    padding once.  So the sibling list written into the circuit inputs has
    [MAX_TREE_DEPTH] entries, or more when the Merkle proof has more
    siblings. *)
Theorem padArray_pads_and_never_truncates (arr : list Z) (n : nat) :
  List.length (padArray arr n) = Nat.max (List.length arr) n
  /\ firstn (List.length arr) (padArray arr n) = arr
  /\ skipn (List.length arr) (padArray arr n) = repeat 0 (n - List.length arr)
  /\ padArray (padArray arr n) n = padArray arr n
  /\ exists strings,
       siblingStrings arr = VArray strings
       /\ List.length strings = Nat.max (List.length arr) MAX_TREE_DEPTH.
Proof.
  assert (Hlen : forall a m, List.length (padArray a m) = Nat.max (List.length a) m).
  { intros a m. unfold padArray.
    destruct (Nat.leb_spec m (List.length a)) as [Hle|Hlt]; [lia|].
    rewrite length_app, repeat_length. lia. }
  split; [apply Hlen|]. unfold padArray at 1 2.
  destruct (Nat.leb_spec n (List.length arr)) as [Hle|Hlt].
  - replace (n - List.length arr)%nat with O by lia.
    split; [apply firstn_all|]. split; [apply skipn_all|]. split.
    + unfold padArray.
      destruct (Nat.leb_spec n (List.length arr)) as [_|H]; [|lia].
      destruct (Nat.leb_spec n (List.length arr)) as [_|H]; [reflexivity | lia].
    + eexists. split; [reflexivity|]. rewrite length_map. apply Hlen.
  - split; [|split; [|split]].
    + rewrite firstn_app, Nat.sub_diag, firstn_all. simpl. apply app_nil_r.
    + rewrite skipn_app, Nat.sub_diag, skipn_all. reflexivity.
    + unfold padArray at 1.
      destruct (Nat.leb_spec n (List.length (padArray arr n))) as [_|H];
        [reflexivity|].
      rewrite Hlen in H. lia.
    + eexists. split; [reflexivity|]. rewrite length_map. apply Hlen.
Qed.

(* ================================================================== *)
(** ** The scan finds a deposit made with a generated commitment       *)
(* ================================================================== *)

(** What [find] does not find in a list it does not find in a tail of it. *)
Lemma find_skipn_None {A} (f : A -> bool) (n : nat) (l : list A) :
  find f l = None -> find f (skipn n l) = None.
Proof.
  intros H. destruct (find f (skipn n l)) as [x|] eqn:E; [|reflexivity].
  apply find_some in E. destruct E as [Hin Hf].
  rewrite (find_none _ _ H x) in Hf; [discriminate|].
  rewrite <- (firstn_skipn n l). apply in_or_app. now right.
Qed.

(** The amount of a deposit note reads as an integer. *)
Lemma depositNoteOf_amount (d : Activity.t) (i : Z) (pool : string) :
  exists (a : string) (v : Z),
    amount (depositNoteOf d i pool) = Some a
    /\ JS.BigInt a = Ok v /\ a <> ""%string.
Proof.
  unfold depositNoteOf. cbn [amount].
  destruct (JS.truthy_bigint (Activity.amount d)).
  - exists (JS.toString (bigint_or (Activity.amount d) 0)),
      (bigint_or (Activity.amount d) 0).
    split; [reflexivity|]. split; [apply BigInt_toString | apply toString_nonempty].
  - exists "0"%string, 0. repeat split. discriminate.
Qed.

Section DepositRoundTrip.

Context `{P : Primitives}.

Import DepositService.

Lemma generateDepositCommitment_parts (storage : IDepositStorageProvider)
    (k : Z) (publicKey pool : string) (options : option DepositCommitmentOptions)
    (r : DepositCommitmentResult) :
  generateDepositCommitment storage k publicKey pool options = Ok r ->
  deriveDepositNullifier (KeyBigInt k) pool (depositIndex r) = Ok (nullifier r)
  /\ deriveDepositSecret (KeyBigInt k) pool (depositIndex r) = Ok (secret r)
  /\ precommitment r
     = ("0x" ++ JS.toString16 (poseidon2 (nullifier r) (secret r)))%string
  /\ poolAddress r = pool
  /\ match match options with Some o => optionsDepositIndex o | None => None end with
     | Some i => depositIndex r = i
     | None => getNextDepositIndex storage publicKey pool = Answer (depositIndex r)
     end.
Proof.
  unfold generateDepositCommitment. intros H.
  destruct (match match options with Some o => _ | None => _ end with
            | Some i => Ok i
            | None => _
            end) as [i|] eqn:Ei; [|discriminate].
  cbn [bind] in H.
  destruct (deriveDepositNullifier _ _ _) as [n|] eqn:En; [|discriminate].
  cbn [bind] in H.
  destruct (deriveDepositSecret _ _ _) as [s|] eqn:Es; [|discriminate].
  cbn [bind] in H. injection H as <-. cbn.
  repeat split; try assumption.
  destruct (match options with Some o => _ | None => _ end) as [j|].
  - now injection Ei as ->.
  - destruct (getNextDepositIndex _ _ _); [now injection Ei as -> | discriminate].
Qed.

Lemma findIndex_finds {A} (f : A -> bool) (l : list A) (x : A) :
  In x l -> f x = true ->
  exists i y, findIndex f l = Some i /\ nth_error l i = Some y /\ f y = true.
Proof.
  induction l as [|a r IH]; intros Hin Hf; [destruct Hin|].
  simpl. destruct (f a) eqn:Ea.
  - now exists O, a.
  - destruct Hin as [->|Hin]; [congruence|].
    destruct (IH Hin Hf) as (i & y & -> & Hy & Hfy). now exists (S i), y.
Qed.

(** A deposit that no withdrawal of the page spends starts a chain of
    one note. *)
Lemma buildChainForDepositInPage_unspent (fuel : nat) (d : Activity.t) (i : Z)
    (after : list Activity.t) (k : Z) (pool : string) (n : Z) :
  deriveDepositNullifier (KeyBigInt k) pool i = Ok n ->
  find (spends (JS.toString (poseidon1 n))) after = None ->
  buildChainForDepositInPage (S fuel) d i after k pool
  = Some (Ok [depositNoteOf d i pool]).
Proof.
  intros Hn Hfind. unfold buildChainForDepositInPage.
  destruct (depositNoteOf_amount d i pool) as (a & v & Ha & Hv & _).
  rewrite (extendChainInPlace_no_match fuel [] (depositNoteOf d i pool) after k pool
             a v n Ha Hv); [reflexivity| |exact Hfind].
  unfold tailNullifier. cbn. exact Hn.
Qed.

Lemma liveRemaining_depositNoteOf (d : Activity.t) (i : Z) (pool : string) :
  exists live, liveRemaining (depositNoteOf d i pool) = Ok live.
Proof.
  destruct (depositNoteOf_amount d i pool) as (a & v & Ha & Hv & Hne).
  unfold liveRemaining. rewrite Ha. cbn [JS.truthy_string JS.BigInt_opt].
  destruct (status_eqb _ _ && _); [|now eexists].
  rewrite Hv. cbn [bind]. now eexists.
Qed.

(** X17.  A deposit made with the commitment that [generateDepositCommitment]
    returns is found by discovery.  The returned [precommitment] is the
    [0x] hexadecimal text of the Poseidon hash of the returned nullifier
    and secret (given that the hash is not negative); the deposit index is
    the one asked for in the options when there is one, and the one the
    storage provider answered otherwise.  And when the scan of a page
    stands at that deposit index, the page holds a deposit activity whose
    [precommitmentHash] is the decimal text of the same hash, no
    withdrawal of the page spends the deposit's nullifier, and the
    nullifier and secret of the index that follows derive to a commitment
    that no deposit of the page carries, then the scan returns, with any
    fuel from 2 on: it has added one chain, the deposit note of a
    matching deposit activity at that deposit index, and stands at the
    index that follows. *)
Theorem generated_deposit_is_discovered (storage : IDepositStorageProvider)
    (k : Z) (publicKey pool : string) (options : option DepositCommitmentOptions)
    (r : DepositCommitmentResult) :
  generateDepositCommitment storage k publicKey pool options = Ok r ->
  0 <= poseidon2 (nullifier r) (secret r) ->
  JS.BigInt (precommitment r) = Ok (poseidon2 (nullifier r) (secret r))
  /\ match match options with Some o => optionsDepositIndex o | None => None end with
     | Some i => depositIndex r = i
     | None => getNextDepositIndex storage publicKey pool = Answer (depositIndex r)
     end
  /\ forall (acts : list Activity.t) (a : Activity.t) (s : Scan) (n' s' : Z),
       In a acts ->
       Activity.type a = DEPOSIT \/ Activity.type a = CROSSCHAIN_DEPOSIT ->
       Activity.precommitmentHash a
         = Some (JS.toString (poseidon2 (nullifier r) (secret r))) ->
       nextDepositIndex s = depositIndex r ->
       find (spends (JS.toString (poseidon1 (nullifier r)))) acts = None ->
       deriveDepositNullifier (KeyBigInt k) pool (depositIndex r + 1) = Ok n' ->
       deriveDepositSecret (KeyBigInt k) pool (depositIndex r + 1) = Ok s' ->
       findIndex (deposits (JS.toString (poseidon2 n' s'))) acts = None ->
       forall fuel : nat,
         (2 <= fuel)%nat ->
         exists (d : Activity.t) (scanned : Scan),
           scanDeposits fuel acts k pool s = Some (Ok scanned)
           /\ In d acts
           /\ deposits (JS.toString (poseidon2 (nullifier r) (secret r))) d = true
           /\ scanNotes scanned
              = scanNotes s ++ [[depositNoteOf d (depositIndex r) pool]]
           /\ nextDepositIndex scanned = depositIndex r + 1
           /\ scanLastUsedIndex scanned
              = Z.max (scanLastUsedIndex s) (depositIndex r).
Proof.
  intros Hgen Hpos.
  destruct (generateDepositCommitment_parts _ _ _ _ _ _ Hgen)
    as (Hn & Hs & Hpre & _ & Hindex).
  split; [rewrite Hpre; now apply BigInt_hex|]. split; [exact Hindex|].
  intros acts a s n' s' Hin Htype Hhash Hnext Hunspent Hn' Hs' Hnone fuel Hfuel.
  destruct fuel as [|[|fuel]]; try lia.
  assert (Hmatch : deposits (JS.toString (poseidon2 (nullifier r) (secret r))) a = true).
  { unfold deposits, string_opt_is. rewrite Hhash.
    destruct Htype as [-> | ->]; apply String.eqb_refl. }
  destruct (findIndex_finds _ _ _ Hin Hmatch) as (pos & d & Hpos' & Hd & Hfd).
  destruct (liveRemaining_depositNoteOf d (depositIndex r) pool) as [live Hlive].
  exists d. eexists. split; [|split; [|split; [|split; [|split]]]].
  - cbn [scanDeposits]. rewrite Hnext, Hn, Hs. cbn [fbind].
    rewrite Hpos', Hd. cbn [fbind JS.of_option].
    rewrite (buildChainForDepositInPage_unspent _ _ _ _ _ _ _ Hn
               (find_skipn_None _ _ _ Hunspent)).
    cbn [fbind lastOf List.length Nat.sub nth_error JS.of_option].
    rewrite Hlive. cbn [fbind nextDepositIndex].
    rewrite Hn', Hs'. cbn [fbind]. rewrite Hnone. reflexivity.
  - eapply nth_error_In, Hd.
  - exact Hfd.
  - reflexivity.
  - reflexivity.
  - reflexivity.
Qed.

End DepositRoundTrip.

Lemma generated_deposit_is_discovered_witness :
  DepositService.generateDepositCommitment (P := Sample.primitives)
    SampleDeposits.storage SampleNotes.key "0xowner" Sample.pool
    (Some (DepositService.mkDepositCommitmentOptions (Some 0) None))
  = Ok SampleDeposits.commitment0
  /\ DepositService.depositIndex SampleDeposits.commitment0 = 0
  /\ JS.BigInt (DepositService.precommitment SampleDeposits.commitment0)
     = JS.BigInt SampleDiscovery.precommitment0
  /\ scanDeposits (P := Sample.primitives) 2 [SampleDiscovery.depositActivity]
       SampleNotes.key Sample.pool SampleDeposits.start
     = Some (Ok SampleDeposits.scanned)
  /\ scanNotes SampleDeposits.scanned
     = [[depositNoteOf SampleDiscovery.depositActivity 0 Sample.pool]]
  /\ nextDepositIndex SampleDeposits.scanned = 1.
Proof.
  assert (Hgen : DepositService.generateDepositCommitment (P := Sample.primitives)
                   SampleDeposits.storage SampleNotes.key "0xowner" Sample.pool
                   (Some (DepositService.mkDepositCommitmentOptions (Some 0) None))
                 = Ok SampleDeposits.commitment0)
    by (vm_compute; reflexivity).
  assert (Hpos : 0 <= poseidon2 (Primitives := Sample.primitives)
                        (DepositService.nullifier SampleDeposits.commitment0)
                        (DepositService.secret SampleDeposits.commitment0))
    by (vm_compute; discriminate).
  destruct (generated_deposit_is_discovered (P := Sample.primitives)
              _ _ _ _ _ _ Hgen Hpos) as (Hpre & Hindex & Hscan).
  split; [exact Hgen|]. split; [exact Hindex|].
  split; [rewrite Hpre; vm_compute; reflexivity|].
  assert (Hfuel : (2 <= 2)%nat) by lia.
  assert (Hin : In SampleDiscovery.depositActivity [SampleDiscovery.depositActivity])
    by now left.
  destruct (Hscan [SampleDiscovery.depositActivity] SampleDiscovery.depositActivity
              SampleDeposits.start (fst SampleDeposits.next_pair)
              (snd SampleDeposits.next_pair) Hin (or_introl eq_refl) eq_refl
              eq_refl eq_refl eq_refl eq_refl eq_refl 2%nat Hfuel)
    as (d & scanned & Hrun & _ & _ & _ & Hnext & _).
  assert (E : scanned = SampleDeposits.scanned).
  { assert (Hs : scanDeposits (P := Sample.primitives) 2
                   [SampleDiscovery.depositActivity] SampleNotes.key Sample.pool
                   SampleDeposits.start
                 = Some (Ok SampleDeposits.scanned)) by (vm_compute; reflexivity).
    rewrite Hs in Hrun. now injection Hrun. }
  subst scanned. split; [exact Hrun|]. split; [vm_compute; reflexivity|].
  exact Hnext.
Defined.

(* ================================================================== *)
(** ** Mnemonic phrases                                                *)
(* ================================================================== *)

(** A word: at least one code unit, none of them white space. *)
Definition word (w : string) : Prop := w <> ""%string /\ no_white w = true.

(** The string is empty or ends with a code unit that is no white space. *)
Definition ends_clean (s : string) : bool := starts_clean (JS.rev s).

Section Splitting.

Import JSArray.

Lemma splitWhiteFrom_nonempty (b : bool) (s : string) : splitWhiteFrom b s <> [].
Proof.
  revert b. induction s as [|c r IH]; intros b; simpl; [discriminate|].
  destruct (JS.is_white_space c).
  - destruct b; [apply IH | discriminate].
  - destruct (splitWhiteFrom false r); discriminate.
Qed.

(** Reading a word: it goes to the front of the first piece. *)
Lemma splitWhiteFrom_word (b : bool) (w r : string) :
  w <> ""%string -> no_white w = true ->
  splitWhiteFrom b (w ++ r)%string
  = match splitWhiteFrom false r with
    | piece :: pieces => (w ++ piece)%string :: pieces
    | [] => [w]
    end.
Proof.
  revert b. induction w as [|c w IH]; intros b Hne Hw; [congruence|].
  simpl in Hw. apply andb_prop in Hw. destruct Hw as [Hc Hw].
  apply negb_true_iff in Hc. simpl. rewrite Hc.
  destruct w as [|c' w'].
  - simpl. pose proof (splitWhiteFrom_nonempty false r).
    now destruct (splitWhiteFrom false r).
  - rewrite (IH false) by (discriminate || exact Hw).
    pose proof (splitWhiteFrom_nonempty false r).
    now destruct (splitWhiteFrom false r).
Qed.

Lemma splitWhite_join (words : list string) :
  words <> [] -> Forall word words ->
  splitWhite (join " " words) = words.
Proof.
  unfold splitWhite, join.
  induction words as [|w rest IH]; intros Hne Hall; [congruence|].
  inversion Hall as [|? ? [Hw1 Hw2] Hrest]; subst.
  destruct rest as [|w' rest'].
  - simpl. rewrite <- (string_app_nil_r w) at 1.
    rewrite splitWhiteFrom_word by assumption. simpl.
    now rewrite string_app_nil_r.
  - change (String.concat " " (w :: w' :: rest'))
      with (w ++ String " " (String.concat " " (w' :: rest')))%string.
    rewrite splitWhiteFrom_word by assumption.
    cbn [splitWhiteFrom]. change (JS.is_white_space " ") with true. cbv iota.
    assert (E : splitWhiteFrom true (String.concat " " (w' :: rest'))
                = splitWhiteFrom false (String.concat " " (w' :: rest'))).
    { inversion Hrest as [|? ? [Hw1' Hw2'] _]; subst.
      destruct w' as [|c w'']; [congruence|].
      simpl in Hw2'. apply andb_prop in Hw2'. destruct Hw2' as [Hc _].
      apply negb_true_iff in Hc.
      destruct rest'; simpl; now rewrite Hc. }
    rewrite E, IH by (discriminate || exact Hrest).
    now rewrite string_app_nil_r.
Qed.

End Splitting.

Section Trimmed.

Import JSArray.

Lemma ends_clean_cons (c : ascii) (r : string) :
  r <> ""%string -> ends_clean (String c r) = ends_clean r.
Proof.
  intros Hr. unfold ends_clean. simpl.
  now apply starts_clean_app, rev_nonempty.
Qed.

Lemma ends_clean_app (a b : string) :
  b <> ""%string -> ends_clean (a ++ b)%string = ends_clean b.
Proof.
  intros Hb. unfold ends_clean. rewrite rev_app.
  now apply starts_clean_app, rev_nonempty.
Qed.

Lemma all_white_not_ends_clean (r : string) :
  all_white r = true -> r <> ""%string -> ends_clean r = false.
Proof.
  intros Hw Hr. unfold ends_clean.
  pose proof (rev_nonempty r Hr) as Hn. rewrite <- all_white_rev in Hw.
  destruct (JS.rev r) as [|c x]; [congruence|].
  simpl in *. apply andb_prop in Hw. destruct Hw as [-> _]. reflexivity.
Qed.

Lemma trimEnd_starts_clean (s : string) :
  starts_clean s = true -> starts_clean (JS.trimEnd s) = true.
Proof.
  destruct s as [|c r]; [reflexivity|]. simpl. intros Hc.
  apply negb_true_iff in Hc. rewrite trimEnd_cons_clean by exact Hc.
  simpl. now rewrite Hc.
Qed.

(** What [trim] answers starts and ends with no white space. *)
Lemma trim_clean (s : string) :
  starts_clean (JS.trim s) = true /\ ends_clean (JS.trim s) = true.
Proof.
  unfold JS.trim. split.
  - apply trimEnd_starts_clean, trimStart_starts_clean.
  - unfold ends_clean, JS.trimEnd. rewrite rev_involutive.
    apply trimStart_starts_clean.
Qed.

Lemma trim_of_clean (s : string) :
  starts_clean s = true -> ends_clean s = true -> JS.trim s = s.
Proof.
  intros H1 H2. unfold JS.trim. rewrite trimStart_clean by exact H1.
  now apply trimEnd_rev_clean.
Qed.

(** The pieces of a text that ends with no white space: all of them but
    the first are words, and so is the first unless the split started at
    white space. *)
Lemma splitWhiteFrom_pieces (b : bool) (s : string) :
  Forall (fun p => no_white p = true) (splitWhiteFrom b s)
  /\ (all_white s = false -> ends_clean s = true ->
      Forall (fun p => p <> ""%string) (tl (splitWhiteFrom b s))
      /\ (b = true \/ starts_clean s = true ->
          hd ""%string (splitWhiteFrom b s) <> ""%string)).
Proof.
  revert b. induction s as [|c r IH]; intros b.
  - split; [repeat constructor | discriminate].
  - cbn [splitWhiteFrom all_white starts_clean].
    destruct (JS.is_white_space c) eqn:Ec; cbn [andb negb].
    + assert (Hr : all_white r = false -> r <> ""%string)
        by (intros H ->; discriminate).
      destruct b.
      * destruct (IH true) as [Hn Hw]. split; [exact Hn|].
        intros Ha He. rewrite ends_clean_cons in He by auto.
        destruct (Hw Ha He) as [Ht Hh]. split; [exact Ht|]. intros _. now apply Hh; left.
      * destruct (IH true) as [Hn Hw]. split; [now constructor|].
        intros Ha He. rewrite ends_clean_cons in He by auto.
        destruct (Hw Ha He) as [Ht Hh]. split.
        -- cbn [tl]. pose proof (splitWhiteFrom_nonempty true r) as Hne.
           destruct (splitWhiteFrom true r) as [|p ps]; [congruence|].
           constructor; [apply Hh; now left | exact Ht].
        -- intros [H|H]; discriminate.
    + destruct (IH false) as [Hn Hw].
      pose proof (splitWhiteFrom_nonempty false r) as Hne.
      destruct (splitWhiteFrom false r) as [|p ps] eqn:Ep; [congruence|].
      split.
      * inversion Hn; subst. constructor; [|assumption]. simpl. now rewrite Ec.
      * intros _ He. split; [|intros _; discriminate]. cbn [tl].
        destruct r as [|c' r'] eqn:Er.
        -- simpl in Ep. injection Ep as <- <-. constructor.
        -- rewrite <- Er in *. rewrite ends_clean_cons in He by (subst; discriminate).
           destruct (all_white r) eqn:Ew.
           ++ rewrite all_white_not_ends_clean in He by (subst; auto || discriminate).
              discriminate.
           ++ exact (proj1 (Hw eq_refl He)).
Qed.

(** The pieces of a trimmed text: the empty piece alone for the empty
    text, words otherwise. *)
Lemma splitWhite_trim (s : string) :
  splitWhite (JS.trim s) = [""%string]
  \/ (splitWhite (JS.trim s) <> [] /\ Forall word (splitWhite (JS.trim s))).
Proof.
  destruct (trim_clean s) as [Hs He].
  destruct (JS.trim s) as [|c r] eqn:Et; [now left|]. right.
  split; [apply splitWhiteFrom_nonempty|].
  assert (Hc : JS.is_white_space c = false) by (simpl in Hs; now apply negb_true_iff).
  assert (Ha : all_white (String c r) = false) by (simpl; now rewrite Hc).
  destruct (splitWhiteFrom_pieces false (String c r)) as [Hn Hw].
  destruct (Hw Ha He) as [Ht Hh]. specialize (Hh (or_intror Hs)).
  unfold splitWhite.
  destruct (splitWhiteFrom false (String c r)) as [|p ps];
    [constructor|].
  cbn [hd tl] in *. inversion Hn; subst.
  constructor; [now split|].
  rewrite Forall_forall in *. intros x Hx. split; auto.
Qed.

Lemma join_nonempty (words : list string) :
  words <> [] -> Forall word words -> join " " words <> ""%string.
Proof.
  unfold join. intros Hne Hall. destruct words as [|w rest]; [congruence|].
  inversion Hall as [|? ? [Hw _] _]; subst.
  destruct rest; simpl; [exact Hw|]. destruct w; [congruence | discriminate].
Qed.

(** Words joined by single spaces make a trimmed text. *)
Lemma trim_join (words : list string) :
  Forall word words -> JS.trim (join " " words) = join " " words.
Proof.
  intros Hall. destruct words as [|w rest]; [reflexivity|].
  apply trim_of_clean.
  - inversion Hall as [|? ? [Hw Hn] _]; subst. unfold join.
    destruct rest; simpl String.concat.
    + now apply no_white_starts_clean.
    + rewrite starts_clean_app by exact Hw. now apply no_white_starts_clean.
  - revert w Hall. induction rest as [|w' rest IH]; intros w Hall.
    + inversion Hall as [|? ? [Hw Hn] _]; subst. unfold join, ends_clean. simpl.
      apply no_white_starts_clean. now rewrite no_white_rev.
    + inversion Hall as [|? ? _ Hrest]; subst.
      change (join " " (w :: w' :: rest))
        with (w ++ (String " " (join " " (w' :: rest))))%string.
      rewrite ends_clean_app by discriminate.
      rewrite ends_clean_cons by (apply join_nonempty; [discriminate | exact Hrest]).
      now apply IH.
Qed.

(** Joining the pieces of a trimmed text and splitting again gives the
    same pieces. *)
Lemma split_join_split (s : string) :
  let words := splitWhite (JS.trim s) in
  splitWhite (JS.trim (join " " words)) = words.
Proof.
  cbv zeta. destruct (splitWhite_trim s) as [-> | [Hne Hall]]; [reflexivity|].
  rewrite trim_join by exact Hall. now apply splitWhite_join.
Qed.

End Trimmed.

Section Mnemonics.

Context `{L : KeyLibraries}.

Import AccountKey.

(** X19.  Mnemonic phrases survive printing and parsing.  Words that
    [parseMnemonicInput] returned are returned again for the text
    [mnemonicToString] makes of them; so are words that validate, when there
    is at least one and each has at least one code unit and no white space;
    and white space before and after the input changes nothing. *)
Theorem mnemonic_round_trip (input : string) (words : list string) :
  (parseMnemonicInput input = Ok words ->
   parseMnemonicInput (mnemonicToString words) = Ok words)
  /\ (words <> [] -> Forall word words ->
      KeyGeneration.validateMnemonic words = true ->
      parseMnemonicInput (mnemonicToString words) = Ok words)
  /\ (forall w1 w2 : string,
        all_white w1 = true -> all_white w2 = true ->
        parseMnemonicInput (w1 ++ input ++ w2)%string = parseMnemonicInput input).
Proof.
  split; [|split].
  - unfold parseMnemonicInput, mnemonicToString.
    destruct (negb (KeyGeneration.validateMnemonic _)) eqn:Ev; [discriminate|].
    intros [= <-]. rewrite split_join_split. now rewrite Ev.
  - intros Hne Hall Hv. unfold parseMnemonicInput, mnemonicToString.
    rewrite trim_join by exact Hall. rewrite splitWhite_join by assumption.
    now rewrite Hv.
  - intros w1 w2 H1 H2. unfold parseMnemonicInput. now rewrite trim_white.
Qed.

(** X18.  Where the account key comes from.  A private key that is not
    empty is parsed with [parseUserKey], whatever the mnemonic; without one,
    a mnemonic that is missing or has no word gives the error
    [No valid authentication credentials available], a mnemonic that does
    not validate gives [Invalid mnemonic phrase], and a valid one gives
    [parseUserKey] of the private key of the wallet restored from the words
    joined by single spaces.  Every account key returned is at least 0 and
    below the field order [F]. *)
Theorem account_key_sources (credentials : AuthCredentials) :
  (forall key, privateKey credentials = Some key -> key <> ""%string ->
     getAccountKey credentials = parseUserKey (KeyString key))
  /\ (JS.truthy_string (privateKey credentials) = false ->
      (mnemonic credentials = None \/ mnemonic credentials = Some []) ->
      getAccountKey credentials
      = Throw (Error "No valid authentication credentials available"))
  /\ (forall words,
        JS.truthy_string (privateKey credentials) = false ->
        mnemonic credentials = Some words -> words <> [] ->
        KeyGeneration.validateMnemonic words = false ->
        getAccountKey credentials = Throw (Error "Invalid mnemonic phrase"))
  /\ (forall words wallet,
        JS.truthy_string (privateKey credentials) = false ->
        mnemonic credentials = Some words -> words <> [] ->
        KeyGeneration.validateMnemonic words = true ->
        Wallet_fromPhrase (JSArray.join " " words) = Ok wallet ->
        getAccountKey credentials
        = parseUserKey (KeyString (walletPrivateKey wallet)))
  /\ (forall k, getAccountKey credentials = Ok k -> 0 <= k < F).
Proof.
  unfold getAccountKey, KeyGeneration.restoreFromMnemonic,
    KeyGeneration.validateMnemonic.
  split; [|split; [|split; [|split]]].
  - intros key -> Hkey. cbn [JS.truthy_string].
    now destruct (String.eqb_spec key "").
  - intros -> [-> | ->]; reflexivity.
  - intros words -> -> Hne Hv. destruct words; [congruence|].
    cbn [List.length Nat.ltb Nat.leb]. now rewrite Hv.
  - intros words wallet -> -> Hne Hv Hw. destruct words; [congruence|].
    cbn [List.length Nat.ltb Nat.leb]. now rewrite Hv, Hw.
  - intros k. destruct (JS.truthy_string _).
    + apply parseUserKey_range.
    + destruct (mnemonic credentials) as [words|]; [|discriminate].
      destruct (Nat.ltb _ _); [|discriminate].
      destruct (negb _); [discriminate|].
      destruct (Wallet_fromPhrase _); [|discriminate]. apply parseUserKey_range.
Qed.

End Mnemonics.

Lemma mnemonic_round_trip_witness :
  KeyGeneration.validateMnemonic (L := SampleKeys.libraries) SampleKeys.twelve = true
  /\ AccountKey.parseMnemonicInput (L := SampleKeys.libraries)
       (AccountKey.mnemonicToString SampleKeys.twelve)
     = Ok SampleKeys.twelve
  /\ AccountKey.parseMnemonicInput (L := SampleKeys.libraries)
       ("  " ++ "w1 w2" ++ " ")%string
     = AccountKey.parseMnemonicInput (L := SampleKeys.libraries) "w1 w2".
Proof.
  destruct (mnemonic_round_trip (L := SampleKeys.libraries) "w1 w2" SampleKeys.twelve)
    as (_ & Hwords & Hwhite).
  assert (Hne : SampleKeys.twelve <> []) by discriminate.
  assert (Hall : Forall word SampleKeys.twelve)
    by (repeat constructor; discriminate).
  split; [reflexivity|]. split.
  - exact (Hwords Hne Hall eq_refl).
  - exact (Hwhite "  "%string " "%string eq_refl eq_refl).
Defined.

Lemma account_key_sources_witness :
  exists k : Z,
    AccountKey.getAccountKey (L := SampleKeys.libraries) SampleKeys.credentials
    = Ok k
    /\ 0 <= k < F
    /\ parseUserKey
         (KeyString
            ("0x" ++ JS.toString16
                       (Sample.text_code (JSArray.join " " SampleKeys.twelve)))%string)
       = Ok k.
Proof.
  destruct (account_key_sources (L := SampleKeys.libraries) SampleKeys.credentials)
    as (_ & _ & _ & Hwallet & Hrange).
  assert (Hne : SampleKeys.twelve <> []) by discriminate.
  pose proof (Hwallet SampleKeys.twelve _ eq_refl eq_refl Hne eq_refl eq_refl) as Hkey.
  destruct (AccountKey.getAccountKey SampleKeys.credentials) as [k|e] eqn:Hrun.
  - exists k. split; [reflexivity|]. split; [exact (Hrange k eq_refl)|].
    symmetry. exact Hkey.
  - exfalso. vm_compute in Hkey. discriminate Hkey.
Defined.

(* ================================================================== *)
(** ** Serialising and deserialising entities                          *)
(* ================================================================== *)

Section ValueInduction.

Import Transformers.

Variable Q : Value -> Prop.

Hypothesis Q_Null : Q Null.
Hypothesis Q_Undefined : Q Undefined.
Hypothesis Q_Boolean : forall b, Q (Boolean b).
Hypothesis Q_Num : forall n, Q (Num n).
Hypothesis Q_Str : forall s, Q (Str s).
Hypothesis Q_Big : forall z, Q (Big z).
Hypothesis Q_Arr : forall items, Forall Q items -> Q (Arr items).
Hypothesis Q_Obj :
  forall properties, Forall (fun property => Q (snd property)) properties ->
                     Q (Obj properties).

Fixpoint Value_induction (v : Value) : Q v :=
  match v with
  | Null => Q_Null
  | Undefined => Q_Undefined
  | Boolean b => Q_Boolean b
  | Num n => Q_Num n
  | Str s => Q_Str s
  | Big z => Q_Big z
  | Arr items =>
      Q_Arr items
        ((fix all (l : list Value) : Forall Q l :=
            match l with
            | [] => Forall_nil Q
            | x :: rest => Forall_cons x (Value_induction x) (all rest)
            end) items)
  | Obj properties =>
      Q_Obj properties
        ((fix all (l : list (string * Value))
            : Forall (fun property => Q (snd property)) l :=
            match l with
            | [] => Forall_nil _
            | (key, value) :: rest =>
                Forall_cons (key, value) (Value_induction value) (all rest)
            end) properties)
  end.

End ValueInduction.

Module TransformerFacts.

Import Transformers.

(** What deserialising can restore: no object in the value has an own
    property at the key [__proto__]; a bigint sits only at a key listed in
    [bigIntFields], directly, and no string or number sits there. *)
Fixpoint restorable (bigIntFields : list string) (v : Value) : bool :=
  match v with
  | Big _ => false
  | Arr items => forallb (restorable bigIntFields) items
  | Obj properties =>
      forallb (fun property : string * Value =>
                 let (key, value) := property in
                 negb (String.eqb key "__proto__")
                 && if includes key bigIntFields then
                      match value with
                      | Big _ => true
                      | Str _ | Num _ => false
                      | _ => restorable bigIntFields value
                      end
                    else restorable bigIntFields value)
        properties
  | _ => true
  end.

(** The loop of [convertBigIntsToStrings] over the properties of an
    object, by name. *)
Fixpoint eachSerialized (l : list (string * Value)) : list (string * Value) :=
  match l with
  | [] => []
  | (key, value) :: rest =>
      assign key (convertBigIntsToStrings value) (eachSerialized rest)
  end.

Lemma convertBigIntsToStrings_Obj (properties : list (string * Value)) :
  convertBigIntsToStrings (Obj properties) = Obj (eachSerialized properties).
Proof. reflexivity. Qed.

(** The keys at which an assignment writes an own property. *)
Definition writtenKeys (keys : list string) : list string :=
  filter (fun key => negb (String.eqb key "__proto__")) keys.

Lemma assign_keys (key : string) (value : Value) (written : list (string * Value)) :
  map fst (assign key value written)
  = writtenKeys [key] ++ map fst written.
Proof. unfold assign, writtenKeys. cbn. now destruct (String.eqb key "__proto__"). Qed.

(** The loops of [convertStringsToBigInts], by name. *)
Fixpoint eachItem (bigIntFields : list string) (l : list Value)
  : result (list Value) :=
  match l with
  | [] => Ok []
  | item :: rest =>
      y <- convertStringsToBigInts bigIntFields item ;;
      ys <- eachItem bigIntFields rest ;;
      Ok (y :: ys)
  end.

Definition convertProperty (bigIntFields : list string) (key : string)
    (value : Value) : result Value :=
  match (if includes key bigIntFields then stringOrNumber value else None) with
  | Some parsable => z <- safeBigIntParse parsable ;; Ok (Big z)
  | None =>
      if isObject value then convertStringsToBigInts bigIntFields value
      else Ok value
  end.

Fixpoint eachProperty (bigIntFields : list string) (l : list (string * Value))
  : result (list (string * Value)) :=
  match l with
  | [] => Ok []
  | (key, value) :: rest =>
      y <- convertProperty bigIntFields key value ;;
      ys <- eachProperty bigIntFields rest ;;
      Ok (assign key y ys)
  end.

Lemma convertStringsToBigInts_Arr (bigIntFields : list string) (items : list Value) :
  convertStringsToBigInts bigIntFields (Arr items)
  = (converted <- eachItem bigIntFields items ;; Ok (Arr converted)).
Proof.
  cbn [convertStringsToBigInts]. f_equal.
  induction items as [|x r IH]; [reflexivity|]. cbn [eachItem]. now rewrite <- IH.
Qed.

Lemma convertStringsToBigInts_Obj (bigIntFields : list string)
    (properties : list (string * Value)) :
  convertStringsToBigInts bigIntFields (Obj properties)
  = (converted <- eachProperty bigIntFields properties ;; Ok (Obj converted)).
Proof.
  cbn [convertStringsToBigInts]. f_equal.
  induction properties as [|[key value] r IH]; [reflexivity|].
  cbn [eachProperty]. now rewrite <- IH.
Qed.

Lemma restore (bigIntFields : list string) (v : Value) :
  restorable bigIntFields v = true ->
  convertStringsToBigInts bigIntFields (convertBigIntsToStrings v) = Ok v.
Proof.
  induction v as [| | b | n | s | z | items IH | properties IH]
    using Value_induction; try reflexivity; try discriminate.
  - (* arrays *)
    cbn [restorable convertBigIntsToStrings]. intros Hr.
    rewrite convertStringsToBigInts_Arr.
    assert (E : eachItem bigIntFields (map convertBigIntsToStrings items) = Ok items).
    { induction items as [|x r IHr]; [reflexivity|].
      cbn [forallb] in Hr. apply andb_prop in Hr. destruct Hr as [Hx Hrest].
      inversion IH as [|? ? Hx' Hrest']; subst.
      cbn [map eachItem]. rewrite (Hx' Hx). cbn [bind].
      now rewrite (IHr Hrest' Hrest). }
    now rewrite E.
  - (* objects *)
    cbn [restorable]. intros Hr.
    rewrite convertBigIntsToStrings_Obj, convertStringsToBigInts_Obj.
    assert (E : eachProperty bigIntFields (eachSerialized properties)
                = Ok properties).
    { induction properties as [|[key value] r IHr]; [reflexivity|].
      cbn [forallb] in Hr. apply andb_prop in Hr. destruct Hr as [Hx Hrest].
      apply andb_prop in Hx. destruct Hx as [Hkey Hx].
      apply negb_true_iff in Hkey.
      inversion IH as [|? ? Hx' Hrest']; subst. cbn [snd] in Hx'.
      cbn [eachSerialized]. unfold assign at 1. rewrite Hkey.
      cbn [eachProperty].
      assert (Ep : convertProperty bigIntFields key (convertBigIntsToStrings value)
                   = Ok value).
      { unfold convertProperty.
        destruct (includes key bigIntFields).
        - destruct value; try discriminate Hx; try reflexivity.
          + cbn [convertBigIntsToStrings stringOrNumber safeBigIntParse].
            now rewrite BigInt_toString.
          + specialize (Hx' Hx). cbn [convertBigIntsToStrings] in *.
            exact Hx'.
          + specialize (Hx' Hx). cbn [convertBigIntsToStrings] in *.
            exact Hx'.
        - specialize (Hx' Hx).
          destruct value; try discriminate Hx; try reflexivity; exact Hx'. }
      rewrite Ep. cbn [bind]. rewrite (IHr Hrest' Hrest). cbn [bind].
      unfold assign. now rewrite Hkey. }
    now rewrite E.
Qed.

(** A value that is no array and no object. *)
Definition scalar (v : Value) : bool :=
  match v with
  | Arr _ | Obj _ => false
  | _ => true
  end.

(** A property that deserialising cannot read: a number that is not
    finite, at a key listed in [bigIntFields]. *)
Definition unreadable (bigIntFields : list string) (property : string * Value)
  : bool :=
  let (key, value) := property in
  includes key bigIntFields
  && match value with
     | Num (Finite _) => false
     | Num _ => true
     | _ => false
     end.

Lemma convertProperty_scalar (bigIntFields : list string) (key : string)
    (value : Value) :
  scalar value = true ->
  if unreadable bigIntFields (key, value)
  then convertProperty bigIntFields key value = Throw RangeError
  else exists y, convertProperty bigIntFields key value = Ok y.
Proof.
  intros Hs. unfold unreadable, convertProperty.
  destruct (includes key bigIntFields); cbn [andb].
  - destruct value as [| | b | [q| | |] | s | z | |]; try discriminate Hs;
      cbn; try (eexists; reflexivity).
    destruct (JS.BigInt s); eexists; reflexivity.
  - destruct value; try discriminate Hs; cbn; eexists; reflexivity.
Qed.

Lemma eachProperty_scalars (bigIntFields : list string)
    (properties : list (string * Value)) :
  forallb (fun property => scalar (snd property)) properties = true ->
  if existsb (unreadable bigIntFields) properties
  then eachProperty bigIntFields properties = Throw RangeError
  else exists converted,
         eachProperty bigIntFields properties = Ok converted
         /\ map fst converted = writtenKeys (map fst properties).
Proof.
  induction properties as [|[key value] rest IH]; intros Hs.
  - exists []. now split.
  - cbn [forallb snd] in Hs. apply andb_prop in Hs. destruct Hs as [Hv Hrest].
    specialize (IH Hrest). cbn [existsb eachProperty].
    pose proof (convertProperty_scalar bigIntFields key value Hv) as Hp.
    destruct (unreadable bigIntFields (key, value)); cbn [orb].
    + now rewrite Hp.
    + destruct Hp as [y ->]. cbn [bind].
      destruct (existsb (unreadable bigIntFields) rest).
      * now rewrite IH.
      * destruct IH as (converted & -> & Hkeys). cbn [bind].
        exists (assign key y converted). split; [reflexivity|].
        rewrite assign_keys, Hkeys. unfold writtenKeys. cbn [map fst filter app].
        now destruct (negb (String.eqb key "__proto__")).
Qed.

End TransformerFacts.

Section TransformerTheorems.

Import Transformers TransformerFacts.

(** X20.  Serialising and deserialising gives the entity back.  For each of
    the five kinds of entity (activity, pool, state tree leaf, ASP approval
    list, cross-chain intent) and for a list of activities: when no object
    of the entity has an own property named [__proto__], bigints occur in
    the entity only directly at the keys listed for the kind, and no string
    or number sits at such a key, deserialising the serialised entity
    returns the entity. *)
Theorem entities_survive_serialisation (entity : Value) (activities : list Value) :
  (restorable BIGINT_FIELDS.activity entity = true ->
   deserializeActivity (serializeActivity entity) = Ok entity)
  /\ (restorable BIGINT_FIELDS.pool entity = true ->
      deserializePool (serializePool entity) = Ok entity)
  /\ (restorable BIGINT_FIELDS.stateTreeLeaf entity = true ->
      deserializeStateTreeLeaf (serializeStateTreeLeaf entity) = Ok entity)
  /\ (restorable BIGINT_FIELDS.aspApprovalList entity = true ->
      deserializeASPApprovalList (serializeASPApprovalList entity) = Ok entity)
  /\ (restorable BIGINT_FIELDS.crossChainIntent entity = true ->
      deserializeCrossChainIntent (serializeCrossChainIntent entity) = Ok entity)
  /\ (forallb (restorable BIGINT_FIELDS.activity) activities = true ->
      deserializeActivities (serializeActivities activities) = Ok activities).
Proof.
  repeat split; try apply restore.
  induction activities as [|a rest IH]; [reflexivity|].
  cbn [forallb]. intros H. apply andb_prop in H. destruct H as [Ha Hrest].
  specialize (IH Hrest). unfold serializeActivities in *.
  cbn [map deserializeActivities].
  unfold deserializeActivity at 1. unfold serializeActivity at 1.
  rewrite (restore _ _ Ha). cbn [bind]. now rewrite IH.
Qed.

(** X21.  Deserialising an object whose values are no arrays and no objects
    throws a [RangeError] exactly when a key listed as a bigint field holds
    [NaN] or an infinity; otherwise it returns an object with the keys of
    the input in the same order, the key [__proto__] left out: assigning
    to that key writes no own property.  A string that is no integer at a
    bigint field does not throw. *)
Theorem deserialising_throws_on_numbers_that_are_not_finite
    (bigIntFields : list string) (properties : list (string * Value)) :
  forallb (fun property => scalar (snd property)) properties = true ->
  if existsb (unreadable bigIntFields) properties
  then convertStringsToBigInts bigIntFields (Obj properties) = Throw RangeError
  else exists converted,
         convertStringsToBigInts bigIntFields (Obj properties) = Ok (Obj converted)
         /\ map fst converted = writtenKeys (map fst properties).
Proof.
  intros Hs. rewrite convertStringsToBigInts_Obj.
  pose proof (eachProperty_scalars bigIntFields properties Hs) as H.
  destruct (existsb (unreadable bigIntFields) properties).
  - now rewrite H.
  - destruct H as (converted & -> & Hkeys). now exists converted.
Qed.

End TransformerTheorems.

Lemma entities_survive_serialisation_witness :
  Transformers.deserializeActivity
    (Transformers.serializeActivity SampleEntities.activity)
  = Ok SampleEntities.activity
  /\ Transformers.deserializeActivities
       (Transformers.serializeActivities
          [SampleEntities.activity; SampleEntities.activity])
     = Ok [SampleEntities.activity; SampleEntities.activity].
Proof.
  destruct (entities_survive_serialisation SampleEntities.activity
              [SampleEntities.activity; SampleEntities.activity])
    as (Hone & _ & _ & _ & _ & Hall).
  split; [exact (Hone eq_refl) | exact (Hall eq_refl)].
Defined.

Lemma deserialising_throws_on_numbers_that_are_not_finite_witness :
  Transformers.convertStringsToBigInts Transformers.BIGINT_FIELDS.activity
    (Transformers.Obj SampleEntities.broken)
  = Throw RangeError
  /\ exists converted,
       Transformers.convertStringsToBigInts Transformers.BIGINT_FIELDS.activity
         (Transformers.Obj SampleEntities.polluted)
       = Ok (Transformers.Obj converted)
       /\ map fst converted = ["id"; "amount"]%string.
Proof.
  split.
  - exact (deserialising_throws_on_numbers_that_are_not_finite
             Transformers.BIGINT_FIELDS.activity SampleEntities.broken eq_refl).
  - exact (deserialising_throws_on_numbers_that_are_not_finite
             Transformers.BIGINT_FIELDS.activity SampleEntities.polluted eq_refl).
Defined.

(** An own property named [__proto__] is lost both ways, so an entity
    that has one does not come back. *)
Example proto_key_is_not_written :
  Transformers.serializeActivity (Transformers.Obj SampleEntities.polluted)
  = Transformers.Obj [("id", Transformers.Str "0xbb-1");
                      ("amount", Transformers.Str "5")]%string
  /\ Transformers.deserializeActivity (Transformers.Obj SampleEntities.polluted)
     = Ok (Transformers.Obj [("id", Transformers.Str "0xbb-1");
                             ("amount", Transformers.Big 5)]%string)
  /\ TransformerFacts.restorable Transformers.BIGINT_FIELDS.activity
       (Transformers.Obj SampleEntities.polluted) = false.
Proof. repeat split. Qed.

(* ================================================================== *)
(** ** Seeds and entropy                                               *)
(* ================================================================== *)

(** [b.toString(16).padStart(2, '0')]: a byte as two hexadecimal digits. *)
Definition hexByte (b : Z) : string :=
  let h := JS.toString16 b in
  if Nat.ltb (String.length h) 2 then ("0" ++ h)%string else h.

(** The hexadecimal text of a list of bytes. *)
Definition hexOfBytes (bytes : list Z) : string :=
  String.concat "" (map hexByte bytes).

Definition isByte (b : Z) : Prop := 0 <= b < 256.

Section Seeds.

Import JSArray KeyGeneration.

Lemma toUint8_byte (n : JS.number) : isByte (toUint8 n).
Proof.
  destruct n as [z|]; unfold toUint8, isByte; [|lia].
  apply Z.mod_pos_bound. lia.
Qed.

Lemma entropyOf_length (seedBytes : list Z) :
  List.length (entropyOf seedBytes) = 16%nat.
Proof.
  unfold entropyOf.
  destruct (Nat.leb_spec 16 (List.length seedBytes)) as [H|H].
  - rewrite length_firstn. lia.
  - rewrite length_app, length_map, length_seq. lia.
Qed.

Lemma hexToBytes_bytes (hex : string) : Forall isByte (hexToBytes hex).
Proof.
  unfold hexToBytes. apply Forall_forall. intros b Hb.
  apply in_map_iff in Hb. destruct Hb as (slice & <- & _). apply toUint8_byte.
Qed.

Lemma entropyOf_bytes (seedBytes : list Z) :
  Forall isByte seedBytes -> Forall isByte (entropyOf seedBytes).
Proof.
  intros H. unfold entropyOf.
  destruct (Nat.leb 16 (List.length seedBytes)).
  - apply Forall_forall. intros b Hb.
    rewrite Forall_forall in H. apply H.
    rewrite <- (firstn_skipn 16 seedBytes). apply in_or_app. now left.
  - apply Forall_app. split; [exact H|].
    apply Forall_forall. intros b Hb. apply in_map_iff in Hb.
    destruct Hb as (i & <- & _). apply toUint8_byte.
Qed.

(** The two digits of a byte, and what is read back from them. *)
Definition byteChecks (b : Z) : bool :=
  match hexByte b with
  | String c (String d EmptyString) =>
      (toUint8 (parseInt16 (String c (String d ""))) =? b)
      && negb (Ascii.eqb d "x")
  | _ => false
  end.

Lemma all_bytes_check : forallb byteChecks (map Z.of_nat (seq 0 256)) = true.
Proof. vm_compute. reflexivity. Qed.

Lemma byte_checks (b : Z) : isByte b -> byteChecks b = true.
Proof.
  intros Hb. pose proof all_bytes_check as H. rewrite forallb_forall in H.
  apply H. apply in_map_iff. exists (Z.to_nat b). split; [unfold isByte in Hb; lia|].
  apply in_seq. unfold isByte in Hb. lia.
Qed.

Lemma slices_hexOfBytes (bytes : list Z) :
  Forall isByte bytes ->
  map (fun slice => toUint8 (parseInt16 slice)) (slices (hexOfBytes bytes)) = bytes.
Proof.
  unfold hexOfBytes. induction bytes as [|b rest IH]; intros H; [reflexivity|].
  inversion H as [|? ? Hb Hrest]; subst.
  pose proof (byte_checks b Hb) as Hc. unfold byteChecks in Hc.
  assert (E : String.concat "" (map hexByte (b :: rest))
              = (hexByte b ++ String.concat "" (map hexByte rest))%string).
  { cbn [map String.concat]. destruct (map hexByte rest); [|reflexivity].
    simpl. now rewrite string_app_nil_r. }
  rewrite E.
  destruct (hexByte b) as [|c [|d [|? ?]]]; try discriminate Hc.
  apply andb_prop in Hc. destruct Hc as [Hv _]. apply Z.eqb_eq in Hv.
  cbn [append slices map]. now rewrite Hv, (IH Hrest).
Qed.

Lemma hexOfBytes_no_prefix (bytes : list Z) :
  Forall isByte bytes -> JS.startsWith (hexOfBytes bytes) "0x" = false.
Proof.
  intros H. unfold JS.startsWith.
  destruct (String.prefix "0x" (hexOfBytes bytes)) eqn:Ep; [|reflexivity].
  apply String.prefix_correct in Ep. exfalso.
  destruct bytes as [|b rest]; [discriminate Ep|].
  inversion H as [|? ? Hb Hrest]; subst.
  pose proof (byte_checks b Hb) as Hc. unfold byteChecks in Hc.
  unfold hexOfBytes in Ep.
  assert (E : String.concat "" (map hexByte (b :: rest))
              = (hexByte b ++ String.concat "" (map hexByte rest))%string).
  { cbn [map String.concat]. destruct (map hexByte rest); [|reflexivity].
    simpl. now rewrite string_app_nil_r. }
  rewrite E in Ep.
  destruct (hexByte b) as [|c [|d [|? ?]]]; try discriminate Hc.
  apply andb_prop in Hc. destruct Hc as [_ Hx].
  cbn in Ep.
  assert (Hd : d = "x"%char).
  { destruct (String.concat "" (map hexByte rest)); injection Ep; auto. }
  subst d. discriminate Hx.
Qed.

Lemma substring_all (s : string) : String.substring 0 (String.length s) s = s.
Proof. induction s as [|c r IH]; simpl; [reflexivity | now rewrite IH]. Qed.

Lemma hexToBytes_hexOfBytes (bytes : list Z) :
  Forall isByte bytes -> hexToBytes (hexOfBytes bytes) = bytes.
Proof.
  intros H. unfold hexToBytes.
  rewrite hexOfBytes_no_prefix by exact H. now apply slices_hexOfBytes.
Qed.

End Seeds.

(** X22.  [hexToBytes] reads back the hexadecimal text of bytes: for a list
    of bytes, each from 0 to 255, written with two digits per byte,
    [hexToBytes] returns the list, with or without a [0x] prefix. *)
Theorem hex_bytes_round_trip (bytes : list Z) :
  Forall isByte bytes ->
  KeyGeneration.hexToBytes (hexOfBytes bytes) = bytes
  /\ KeyGeneration.hexToBytes ("0x" ++ hexOfBytes bytes)%string = bytes.
Proof.
  intros H. split; [now apply hexToBytes_hexOfBytes|].
  unfold KeyGeneration.hexToBytes.
  change (JS.startsWith ("0x" ++ hexOfBytes bytes)%string "0x")
    with (String.prefix "0x" (String "0" (String "x" (hexOfBytes bytes)))).
  assert (Ep : String.prefix "0x" (String "0" (String "x" (hexOfBytes bytes))) = true).
  { apply String.prefix_correct. cbn. now destruct (hexOfBytes bytes). }
  rewrite Ep. cbn [append String.length].
  replace (S (S (String.length (hexOfBytes bytes))) - 2)%nat
    with (String.length (hexOfBytes bytes)) by lia.
  cbn [String.substring]. rewrite substring_all. now apply slices_hexOfBytes.
Qed.

Lemma hex_bytes_round_trip_witness :
  hexOfBytes [0; 15; 16; 255] = "000f10ff"%string
  /\ KeyGeneration.hexToBytes (hexOfBytes [0; 15; 16; 255]) = [0; 15; 16; 255]
  /\ KeyGeneration.hexToBytes ("0x" ++ hexOfBytes [0; 15; 16; 255])%string
     = [0; 15; 16; 255].
Proof.
  assert (Hall : Forall isByte [0; 15; 16; 255])
    by (repeat constructor; unfold isByte; lia).
  split; [reflexivity|].
  exact (hex_bytes_round_trip [0; 15; 16; 255] Hall).
Defined.

Section Entropy.

Context `{L : KeyLibraries}.

Import KeyGeneration.

(** X23.  [generateKeysFromRandomSeed] uses exactly 16 bytes of entropy, each
    from 0 to 255, whatever the seed; and of a seed of 16 bytes or more only
    the first 16 count: the seed with further bytes appended gives the same
    entropy and the same keys. *)
Theorem only_sixteen_seed_bytes_count (randomSeed : string) :
  List.length (entropyOf (hexToBytes randomSeed)) = 16%nat
  /\ Forall isByte (entropyOf (hexToBytes randomSeed))
  /\ forall bytes extra : list Z,
       List.length bytes = 16%nat -> Forall isByte (bytes ++ extra) ->
       entropyOf (hexToBytes (hexOfBytes (bytes ++ extra))) = bytes
       /\ generateKeysFromRandomSeed (hexOfBytes (bytes ++ extra))
          = generateKeysFromRandomSeed (hexOfBytes bytes).
Proof.
  split; [apply entropyOf_length|].
  split; [apply entropyOf_bytes, hexToBytes_bytes|].
  intros bytes extra Hlen Hall.
  assert (Hb : Forall isByte bytes) by (apply Forall_app in Hall; tauto).
  assert (E : forall more, Forall isByte (bytes ++ more) ->
                entropyOf (hexToBytes (hexOfBytes (bytes ++ more))) = bytes).
  { intros more Hm. rewrite (hexToBytes_hexOfBytes _ Hm).
    unfold entropyOf. rewrite length_app, Hlen. cbn [Nat.add Nat.leb].
    rewrite firstn_app, Hlen, Nat.sub_diag, firstn_O, app_nil_r.
    rewrite <- Hlen. apply firstn_all. }
  split; [now apply E|].
  unfold generateKeysFromRandomSeed. rewrite (E extra Hall).
  rewrite <- (app_nil_r bytes) at 2. rewrite (E []); [reflexivity|].
  now rewrite app_nil_r.
Qed.

End Entropy.

Lemma only_sixteen_seed_bytes_count_witness :
  KeyGeneration.entropyOf
    (KeyGeneration.hexToBytes (hexOfBytes (SampleKeys.sixteen ++ [16; 17])))
  = SampleKeys.sixteen
  /\ KeyGeneration.generateKeysFromRandomSeed (L := SampleKeys.libraries)
       (hexOfBytes (SampleKeys.sixteen ++ [16; 17]))
     = KeyGeneration.generateKeysFromRandomSeed (L := SampleKeys.libraries)
         (hexOfBytes SampleKeys.sixteen).
Proof.
  destruct (only_sixteen_seed_bytes_count (L := SampleKeys.libraries) "")
    as (_ & _ & Hcut).
  assert (Hall : Forall isByte (SampleKeys.sixteen ++ [16; 17]))
    by (repeat constructor; unfold isByte; lia).
  exact (Hcut SampleKeys.sixteen [16; 17] eq_refl Hall).
Defined.
